(** * Lakehouse data scripts: a shallow embedding and its properties

    The Python sources under [data-scripts/] are glue code: they build SQL
    text from templates, hand it to a client object and log what comes
    back.  What can be verified is therefore the control flow around the
    external calls: which calls are made, in which order, what is caught,
    what is re-raised, and what is cached.

    Python code is embedded as functions in a state-and-exception monad
    [M St A].  The local object a function works on ([self], or a client
    passed as argument) is the state component [St]; everything global
    (calls into third-party libraries, log lines, console output, object
    identities, random draws) lives in [world].  Third-party behaviour is a
    parameter, gathered in [platform]. *)

From Stdlib Require Import ZArith Lia List Bool Ascii String DecimalString.
From Stdlib Require Import PrimFloat FloatOps Uint63.
From Stdlib Require Import DecimalZ DecimalPos.
From stdpp Require Import gmap strings list.

Local Open Scope string_scope.
Local Open Scope list_scope.
Local Set Warnings "-register-all".

(** ** Python values, exceptions and outcomes *)

(** A finite Python float, that is a binary64 number, by its exact value
    [mantissa * 2 ^ exponent]. *)
Record binary64 := B64 { mantissa : Z; exponent : Z }.

(** The part of Python's value universe the scripts touch: query results are
    rows (mappings or sequences) of scalars. *)
Inductive pyval :=
| VNone
| VBool (b : bool)
| VInt (z : Z)
| VFloat (f : binary64)
| VStr (s : string)
| VList (l : list pyval)
| VDict (d : list (string * pyval)).

(** An instance of a subclass of [Exception]: its class name and [str(e)]. *)
Record exn := Exn { exn_class : string; exn_msg : string }.

(** How a call ends.  [Exit] is [SystemExit], raised by [sys.exit]; it is a
    [BaseException] and no [except Exception] clause catches it. *)
Inductive outcome (A : Type) :=
| Ret (a : A)
| Raise (e : exn)
| Exit (code : Z).
Arguments Ret {A} a.
Arguments Raise {A} e.
Arguments Exit {A} code.

Definition is_ret {A} (o : outcome A) : bool :=
  match o with Ret _ => true | _ => false end.

(** ** The outside world *)

Inductive service := Trino | Postgres | Redis | MinIO.

Global Instance service_eq_dec : EqDecision service.
Proof. solve_decision. Defined.

Definition service_eqb (a b : service) : bool := bool_decide (a = b).

(** Calls that leave the repository's code.  Connections and cursors are
    named by the identity they were given when they were created. *)
Inductive call :=
| Connect (s : service)
| SetAutocommit (conn : nat)
| NewCursor (s : service) (conn : nat)
| CursorExecute (s : service) (cur : nat) (query : string) (params : option pyval)
| CursorExecuteMany (cur : nat) (query : string) (params : list pyval)
| CursorDescription (cur : nat)
| CursorFetchall (s : service) (cur : nat)
| ConnCommit (conn : nat)
| ConnRollback (conn : nat)
| ConnClose (s : service) (conn : nat)
| RedisPing (h : nat)
| BucketExists (h : nat) (bucket : string)
| FputObject (h : nat) (bucket object_name file_path : string)
| FgetObject (h : nat) (bucket object_name file_path : string)
| ListObjects (h : nat) (bucket prefix : string)
| RemoveObject (h : nat) (bucket object_name : string)
| StatObject (h : nat) (bucket object_name : string)
| Method (name : string) (args : list string).

Inductive level := DEBUG | INFO | SUCCESS | WARNING | ERROR.

Record world := World {
  events : list call;                 (* external calls so far, oldest first *)
  logs : list (level * string);       (* logger output, oldest first *)
  console : list string;              (* rich console output, oldest first *)
  constructed : list (service * nat); (* client objects built, with identity *)
  next_id : nat;                      (* next fresh object identity *)
  draws : nat                         (* values taken from [random] so far *)
}.

Definition world0 : world := World [] [] [] [] 0 0.

(** A [datetime]: proleptic day number and microseconds into the day. *)
Record datetime := Datetime { dt_day : Z; dt_micro : Z }.

Definition add_days (d : datetime) (k : Z) : datetime :=
  Datetime (dt_day d + k) (dt_micro d).

(** The fields of [settings.Settings] that the modelled code reads. *)
Record Settings := {
  trino_host : string; trino_port : Z;
  trino_catalog : string; trino_schema : string;
  postgres_host : string; postgres_port : Z;
  redis_host : string; redis_port : Z;
  minio_endpoint : string; minio_bucket : string
}.

(** Everything the code takes from its surroundings. *)
Record platform := {
  (* whether [import trino] etc. succeeded when [utils.clients] was loaded *)
  installed : service -> bool;
  (* the answer to an external call, given the calls made before it *)
  respond : list call -> call -> pyval + exn;
  (* the [random] module: the value of the k-th draw *)
  rand_choice : nat -> nat -> nat;        (* index chosen in a sequence of the given length *)
  rand_int : nat -> Z -> Z -> Z;          (* randint(a, b) *)
  rand_uniform : nat -> binary64 -> binary64 -> binary64;  (* uniform(a, b) *)
  (* datetime.now() *)
  now : datetime;
  (* str() of a float, str()/repr() of a value, datetime.strftime('%Y-%m-%d') *)
  str_float : binary64 -> string;
  py_str : pyval -> string;
  strftime_ymd : datetime -> string;
  (* format(v, '.2f') *)
  format_2f : pyval -> string + exn;
  settings : Settings
}.

(** ** The monad *)

Definition M (St A : Type) : Type := St -> world -> outcome A * St * world.

Definition ret {St A} (a : A) : M St A := fun s w => (Ret a, s, w).

Definition bind {St A B} (m : M St A) (k : A -> M St B) : M St B :=
  fun s w =>
    match m s w with
    | (Ret a, s1, w1) => k a s1 w1
    | (Raise e, s1, w1) => (Raise e, s1, w1)
    | (Exit c, s1, w1) => (Exit c, s1, w1)
    end.

Declare Scope py_scope.
Delimit Scope py_scope with py.
Notation "x <- m ;; k" := (bind m (fun x => k))
  (at level 100, m at next level, k at level 200, only parsing) : py_scope.
Notation "m ;; k" := (bind m (fun _ => k))
  (at level 100, k at level 200, only parsing) : py_scope.
Local Open Scope py_scope.

Definition throw {St A} (e : exn) : M St A := fun s w => (Raise e, s, w).

(** [sys.exit(code)] *)
Definition sys_exit {St A} (code : Z) : M St A := fun s w => (Exit code, s, w).

Definition get {St} : M St St := fun s w => (Ret s, s, w).
Definition put {St} (s : St) : M St unit := fun _ w => (Ret tt, s, w).

(** [try: body / except Exception as e: handler e] *)
Definition try_except {St A} (body : M St A) (handler : exn -> M St A) : M St A :=
  fun s w =>
    match body s w with
    | (Raise e, s1, w1) => handler e s1 w1
    | r => r
    end.

(** [try: body / finally: fin]: [fin] always runs; however it ends, other
    than by returning, replaces the way [body] ended. *)
Definition try_finally {St A} (body : M St A) (fin : M St unit) : M St A :=
  fun s w =>
    match body s w with
    | (r, s1, w1) =>
        match fin s1 w1 with
        | (Ret _, s2, w2) => (r, s2, w2)
        | (Raise e, s2, w2) => (Raise e, s2, w2)
        | (Exit c, s2, w2) => (Exit c, s2, w2)
        end
    end.

(** Run a computation on a part of the state and store the part back: a
    method call on an object held in a field. *)
Definition zoom {St T A} (proj : St -> T) (upd : T -> St -> St) (m : M T A) : M St A :=
  fun s w =>
    match m (proj s) w with
    | (r, t1, w1) => (r, upd t1 s, w1)
    end.

(** [for x in l: body x] *)
Fixpoint for_each {St A} (l : list A) (body : A -> M St unit) : M St unit :=
  match l with
  | [] => ret tt
  | x :: l' => body x ;; for_each l' body
  end.

Definition lift_result {St A} (r : A + exn) : M St A :=
  match r with inl a => ret a | inr e => throw e end.

(** *** Effects on the world *)

Definition log {St} (lv : level) (msg : string) : M St unit :=
  fun s w => (Ret tt, s,
    World (events w) (logs w ++ [(lv, msg)]) (console w) (constructed w) (next_id w) (draws w)).

Definition console_print {St} (line : string) : M St unit :=
  fun s w => (Ret tt, s,
    World (events w) (logs w) (console w ++ [line]) (constructed w) (next_id w) (draws w)).

Definition fresh_id {St} : M St nat :=
  fun s w => (Ret (next_id w), s,
    World (events w) (logs w) (console w) (constructed w) (S (next_id w)) (draws w)).

Definition note_constructed {St} (sv : service) (id : nat) : M St unit :=
  fun s w => (Ret tt, s,
    World (events w) (logs w) (console w) (constructed w ++ [(sv, id)]) (next_id w) (draws w)).

Definition next_draw {St} : M St nat :=
  fun s w => (Ret (draws w), s,
    World (events w) (logs w) (console w) (constructed w) (next_id w) (S (draws w))).

(** ** Strings and numbers the way Python prints them *)

Definition nl : string := String (ascii_of_nat 10) EmptyString.

(** [str(z)] for an integer *)
Definition str_int (z : Z) : string := NilZero.string_of_int (Z.to_int z).

Fixpoint zeros (n : nat) : string :=
  match n with O => "" | S n' => String "0" (zeros n') end.

(** [format(z, '0{width}d')]: the sign, then zeros, then the digits *)
Definition zero_pad (width : nat) (z : Z) : string :=
  if (z <? 0)%Z then
    let d := str_int (- z) in "-" +:+ zeros (width - 1 - String.length d) +:+ d
  else
    let d := str_int z in zeros (width - String.length d) +:+ d.

(** [sep.join(parts)] *)
Fixpoint join (sep : string) (parts : list string) : string :=
  match parts with
  | [] => ""
  | [p] => p
  | p :: rest => p +:+ sep +:+ join sep rest
  end.

(** ** Binary64 arithmetic

    Python's floats are binary64 numbers: the result of an operation is
    the exact result rounded to the nearest number with a 53-bit
    significand, ties going to the even significand.  The numbers met here
    lie far inside the normal range, so neither overflow nor subnormal
    numbers are modelled.

    CPython rounds a float to [n] decimals by printing its exact binary
    value with [n] decimals, ties going to the even digit, and reading the
    text back as the nearest float. *)

(** The integer nearest to [p / q], ties to even ([0 < q]). *)
Definition round_half_even (p q : Z) : Z :=
  let d := (p / q)%Z in
  match (2 * (p mod q) ?= q)%Z with
  | Lt => d
  | Gt => (d + 1)%Z
  | Eq => if Z.even d then d else (d + 1)%Z
  end.

(** The integer nearest to [p / (q * 2^e)]. *)
Definition scaled_quotient (p q e : Z) : Z :=
  if (0 <=? e)%Z then round_half_even p (q * 2 ^ e)
  else round_half_even (p * 2 ^ (- e)) q.

(** The binary64 number nearest to [p / q], for [0 < p] and [0 < q]: the
    exponent that leaves 53 or 54 bits before the point, and one more when
    the significand would not fit in 53 bits. *)
Definition nearest_positive (p q : Z) : binary64 :=
  let e := (Z.log2 p - Z.log2 q - 53)%Z in
  let m := scaled_quotient p q e in
  if (2 ^ 53 <=? m)%Z then B64 (scaled_quotient p q (e + 1)) (e + 1) else B64 m e.

(** The binary64 number nearest to [p / q], for [0 < q]. *)
Definition nearest_binary64 (p q : Z) : binary64 :=
  match (p ?= 0)%Z with
  | Eq => B64 0 0
  | Gt => nearest_positive p q
  | Lt => let r := nearest_positive (- p) q in B64 (- mantissa r) (exponent r)
  end.

(** [float(z)] *)
Definition float_of_Z (z : Z) : binary64 := nearest_binary64 z 1.

(** [x * y] on floats: the exact product, rounded. *)
Definition float_mul (x y : binary64) : binary64 :=
  let m := (mantissa x * mantissa y)%Z in
  let e := (exponent x + exponent y)%Z in
  if (0 <=? e)%Z then nearest_binary64 (m * 2 ^ e) 1 else nearest_binary64 m (2 ^ (- e)).

(** [x == y] on floats: the two values are the same number. *)
Definition float_eqb (x y : binary64) : bool :=
  let k := Z.min (exponent x) (exponent y) in
  (mantissa x * 2 ^ (exponent x - k) =? mantissa y * 2 ^ (exponent y - k))%Z.

(** [round(x, 2)]: the value in hundredths, ties to even, read back. *)
Definition py_round2 (x : binary64) : binary64 :=
  if (0 <=? exponent x)%Z then x
  else
    let c := round_half_even (Z.abs (mantissa x) * 100) (2 ^ (- exponent x)) in
    nearest_binary64 (Z.sgn (mantissa x) * c) 100.

(** [lo <= x <= hi] for a float [x] and integers [lo], [hi]. *)
Definition float_between (lo hi : Z) (x : binary64) : bool :=
  let v := mantissa x in
  let e := exponent x in
  if (0 <=? e)%Z then (lo <=? v * 2 ^ e)%Z && (v * 2 ^ e <=? hi)%Z
  else (lo * 2 ^ (- e) <=? v)%Z && (v <=? hi * 2 ^ (- e))%Z.

(** The same number as a primitive float of the proof assistant, to
    compare the arithmetic above with the machine's. *)
Definition to_primitive (x : binary64) : float :=
  let a := Z.ldexp (of_uint63 (Uint63.of_Z (Z.abs (mantissa x)))) (exponent x) in
  if (mantissa x <? 0)%Z then PrimFloat.opp a else a.

(** ** Operations on Python values *)

Fixpoint assoc (key : string) (d : list (string * pyval)) : option pyval :=
  match d with
  | [] => None
  | (k, v) :: d' => if String.eqb k key then Some v else assoc key d'
  end.

(** [v[key]] for a string key *)
Definition py_getitem (v : pyval) (key : string) : pyval + exn :=
  match v with
  | VDict d =>
      match assoc key d with
      | Some x => inl x
      | None => inr (Exn "KeyError" ("'" +:+ key +:+ "'"))
      end
  | VList _ => inr (Exn "TypeError" "list indices must be integers or slices, not str")
  | VStr _ => inr (Exn "TypeError" "string indices must be integers, not 'str'")
  | _ => inr (Exn "TypeError" "object is not subscriptable")
  end.

(** [v[0]] *)
Definition py_first (v : pyval) : pyval + exn :=
  match v with
  | VList (x :: _) => inl x
  | VList [] => inr (Exn "IndexError" "list index out of range")
  | VStr (String c _) => inl (VStr (String c EmptyString))
  | VStr EmptyString => inr (Exn "IndexError" "string index out of range")
  | VDict _ => inr (Exn "KeyError" "0")
  | _ => inr (Exn "TypeError" "object is not subscriptable")
  end.

Fixpoint chars (s : string) : list pyval :=
  match s with
  | EmptyString => []
  | String c s' => VStr (String c EmptyString) :: chars s'
  end.

(** The items a [for] loop over [v] visits. *)
Definition py_iter (v : pyval) : list pyval + exn :=
  match v with
  | VList l => inl l
  | VDict d => inl (map (fun kv => VStr (fst kv)) d)
  | VStr s => inl (chars s)
  | _ => inr (Exn "TypeError" "object is not iterable")
  end.

(** [len(v)] *)
Definition py_len (v : pyval) : nat + exn :=
  match v with
  | VList l => inl (List.length l)
  | VDict d => inl (List.length d)
  | VStr s => inl (String.length s)
  | _ => inr (Exn "TypeError" "object has no len()")
  end.

(** Truth value of [v] in a condition. *)
Definition py_truthy (v : pyval) : bool :=
  match v with
  | VNone => false
  | VBool b => b
  | VInt z => negb (z =? 0)%Z
  | VFloat f => negb (mantissa f =? 0)%Z
  | VStr s => negb (String.eqb s "")
  | VList l => match l with [] => false | _ => true end
  | VDict d => match d with [] => false | _ => true end
  end.

(** [v.items()] *)
Definition py_items (v : pyval) : list (string * pyval) + exn :=
  match v with
  | VDict d => inl d
  | _ => inr (Exn "AttributeError" "object has no attribute 'items'")
  end.

(** [v[-n:]] *)
Definition py_last (n : nat) (v : pyval) : pyval + exn :=
  match v with
  | VList l => inl (VList (skipn (List.length l - n) l))
  | VStr s => inl (VStr (string_of_list_ascii
                           (skipn (String.length s - n) (list_ascii_of_string s))))
  | VDict _ => inr (Exn "KeyError" "slice")
  | _ => inr (Exn "TypeError" "object is not subscriptable")
  end.

(** [dict(v)] for a mapping, or a sequence of key and value pairs with
    string keys. *)
Definition py_pair (v : pyval) : (string * pyval) + exn :=
  match v with
  | VList [VStr k; x] => inl (k, x)
  | _ => inr (Exn "TypeError" "cannot convert dictionary update sequence element to a pair")
  end.

Fixpoint py_pairs (l : list pyval) : list (string * pyval) + exn :=
  match l with
  | [] => inl []
  | v :: l' =>
      match py_pair v with
      | inr e => inr e
      | inl kv => match py_pairs l' with inr e => inr e | inl r => inl (kv :: r) end
      end
  end.

Definition py_dict (v : pyval) : pyval + exn :=
  match v with
  | VDict d => inl (VDict d)
  | VList l => match py_pairs l with inl d => inl (VDict d) | inr e => inr e end
  | VStr EmptyString => inl (VDict [])
  | _ => inr (Exn "TypeError" "object is not iterable")
  end.

(** [dict(zip(columns, row))] *)
Fixpoint zip_dict (columns row : list pyval) : list (string * pyval) + exn :=
  match columns, row with
  | c :: cs, x :: xs =>
      match c with
      | VStr k => match zip_dict cs xs with inl d => inl ((k, x) :: d) | inr e => inr e end
      | _ => inr (Exn "TypeError" "column name is not a string")
      end
  | _, _ => inl []
  end.

(** ** External calls *)

Definition add_event (c : call) (w : world) : world :=
  World (events w ++ [c]) (logs w) (console w) (constructed w) (next_id w) (draws w).

(** Make the call [c]: it is recorded, and the platform decides whether it
    returns a value or raises. *)
Definition external {St} (P : platform) (c : call) : M St pyval :=
  fun s w =>
    match respond P (events w) c with
    | inl v => (Ret v, s, add_event c w)
    | inr e => (Raise e, s, add_event c w)
    end.

(** An external call that yields a new object (a connection, a cursor). *)
Definition external_new {St} (P : platform) (c : call) : M St nat :=
  external P c ;; fresh_id.

(** ** utils/clients.py *)

Definition host_port (host : string) (port : Z) : string :=
  host +:+ ":" +:+ str_int port.

Module TrinoClient.

(** An instance: its identity and the attribute [_conn]. *)
Record t := Make { id : nat; _conn : option nat }.

(** The attributes the class defines: a lookup of any other name on an
    instance raises [AttributeError]. *)
Definition attributes : list string :=
  ["_conn"; "conn"; "execute_query"; "execute_with_description";
   "create_iceberg_table"; "show_tables"; "describe_table"; "close"].

Section Methods.
Context (P : platform).

(** [TrinoClient()] *)
Definition init {St} : M St t :=
  if installed P Trino then
    i <- fresh_id ;;
    note_constructed Trino i ;;
    log INFO ("Initializing Trino client for "
              +:+ host_port (trino_host (settings P)) (trino_port (settings P))) ;;
    ret (Make i None)
  else throw (Exn "ImportError" "Trino library not installed. Run: pip install trino").

(** The property [conn]: connect on first use. *)
Definition conn : M t nat :=
  self <- get ;;
  match _conn self with
  | Some c => ret c
  | None =>
      try_except
        (c <- external_new P (Connect Trino) ;;
         put (Make (id self) (Some c)) ;;
         log INFO "Successfully connected to Trino" ;;
         ret c)
        (fun e =>
           log ERROR ("Failed to connect to Trino: " +:+ exn_msg e) ;;
           throw e)
  end.

Definition execute_query (query : string) : M t pyval :=
  try_except
    (c <- conn ;;
     cursor <- external_new P (NewCursor Trino c) ;;
     external P (CursorExecute Trino cursor query None) ;;
     results <- external P (CursorFetchall Trino cursor) ;;
     n <- lift_result (py_len results) ;;
     log DEBUG ("Executed query successfully, returned "
                +:+ str_int (Z.of_nat n) +:+ " rows") ;;
     ret results)
    (fun e =>
       log ERROR ("Query execution failed: " +:+ exn_msg e) ;;
       log ERROR ("Query: " +:+ query) ;;
       throw e).

Definition column_names (description : pyval) : M t (list pyval) :=
  descs <- lift_result (py_iter description) ;;
  (fix names (l : list pyval) : M t (list pyval) :=
     match l with
     | [] => ret []
     | d :: l' =>
         x <- lift_result (py_first d) ;;
         xs <- names l' ;;
         ret (x :: xs)
     end) descs.

Definition execute_with_description (query : string) : M t pyval :=
  try_except
    (c <- conn ;;
     cursor <- external_new P (NewCursor Trino c) ;;
     external P (CursorExecute Trino cursor query None) ;;
     d <- external P (CursorDescription cursor) ;;
     columns <- (if py_truthy d
                 then d' <- external P (CursorDescription cursor) ;; column_names d'
                 else ret []) ;;
     rows <- external P (CursorFetchall Trino cursor) ;;
     n <- lift_result (py_len rows) ;;
     log DEBUG ("Executed query with description, returned "
                +:+ str_int (Z.of_nat n) +:+ " rows") ;;
     ret (VDict [("columns", VList columns); ("data", rows)]))
    (fun e =>
       log ERROR ("Query execution with description failed: " +:+ exn_msg e) ;;
       throw e).

Definition create_iceberg_table (table_name columns : string) (location : option string)
  : M t unit :=
  let location_clause :=
    match location with
    | Some l => if String.eqb l "" then "" else ", external_location = '" +:+ l +:+ "'"
    | None => ""
    end in
  let query := nl +:+
    "        CREATE TABLE IF NOT EXISTS " +:+ trino_catalog (settings P) +:+ "."
      +:+ trino_schema (settings P) +:+ "." +:+ table_name +:+ " (" +:+ nl +:+
    "            " +:+ columns +:+ nl +:+
    "        ) WITH (" +:+ nl +:+
    "            format = 'PARQUET'" +:+ nl +:+
    "            " +:+ location_clause +:+ nl +:+
    "        )" +:+ nl +:+
    "        " in
  execute_query query ;;
  log INFO ("Created Iceberg table: " +:+ table_name).

Definition show_tables : M t pyval :=
  results <- execute_query "SHOW TABLES" ;;
  rows <- lift_result (py_iter results) ;;
  names <- (fix go (l : list pyval) : M t (list pyval) :=
              match l with
              | [] => ret []
              | r :: l' => x <- lift_result (py_first r) ;; xs <- go l' ;; ret (x :: xs)
              end) rows ;;
  ret (VList names).

Definition describe_table (table_name : string) : M t pyval :=
  result <- execute_with_description ("DESCRIBE " +:+ table_name) ;;
  columns <- lift_result (py_getitem result "columns") ;;
  data <- lift_result (py_getitem result "data") ;;
  cols <- lift_result (py_iter columns) ;;
  rows <- lift_result (py_iter data) ;;
  dicts <- (fix go (l : list pyval) : M t (list pyval) :=
              match l with
              | [] => ret []
              | r :: l' =>
                  cells <- lift_result (py_iter r) ;;
                  d <- lift_result (zip_dict cols cells) ;;
                  ds <- go l' ;;
                  ret (VDict d :: ds)
              end) rows ;;
  ret (VList dicts).

(** [close]: an error from the connection's own [close] is logged and
    swallowed, and [_conn] then keeps the connection. *)
Definition close : M t unit :=
  self <- get ;;
  match _conn self with
  | Some c =>
      try_except
        (external P (ConnClose Trino c) ;;
         put (Make (id self) None) ;;
         log INFO "Trino connection closed")
        (fun e => log WARNING ("Error closing Trino connection: " +:+ exn_msg e))
  | None => ret tt
  end.

End Methods.
End TrinoClient.

(** The parameters of [PostgresClient.execute_insert]: none, one tuple, or a
    list of tuples. *)
Inductive insert_params :=
| NoParams
| OneTuple (p : pyval)
| TupleList (l : list pyval).

Module PostgresClient.

Record t := Make { id : nat; _conn : option nat }.

Section Methods.
Context (P : platform).

Definition init {St} : M St t :=
  if installed P Postgres then
    i <- fresh_id ;;
    note_constructed Postgres i ;;
    log INFO ("Initializing PostgreSQL client for "
              +:+ host_port (postgres_host (settings P)) (postgres_port (settings P))) ;;
    ret (Make i None)
  else throw (Exn "ImportError"
                  "psycopg2 library not installed. Run: pip install psycopg2-binary").

(** The property [conn]: connect on first use, then switch autocommit
    off.  [_conn] is assigned before autocommit is set. *)
Definition conn : M t nat :=
  self <- get ;;
  match _conn self with
  | Some c => ret c
  | None =>
      try_except
        (c <- external_new P (Connect Postgres) ;;
         put (Make (id self) (Some c)) ;;
         external P (SetAutocommit c) ;;
         log INFO "Successfully connected to PostgreSQL" ;;
         ret c)
        (fun e =>
           log ERROR ("Failed to connect to PostgreSQL: " +:+ exn_msg e) ;;
           throw e)
  end.

(** [self.conn.rollback()] *)
Definition rollback : M t unit :=
  c <- conn ;; external P (ConnRollback c) ;; ret tt.

(** [self.conn.commit()] *)
Definition commit : M t unit :=
  c <- conn ;; external P (ConnCommit c) ;; ret tt.

Definition execute_query (query : string) (params : option pyval) : M t pyval :=
  try_except
    (c <- conn ;;
     cursor <- external_new P (NewCursor Postgres c) ;;
     external P (CursorExecute Postgres cursor query params) ;;
     results <- external P (CursorFetchall Postgres cursor) ;;
     n <- lift_result (py_len results) ;;
     log DEBUG ("Executed PostgreSQL query, returned "
                +:+ str_int (Z.of_nat n) +:+ " rows") ;;
     ret results)
    (fun e =>
       log ERROR ("PostgreSQL query execution failed: " +:+ exn_msg e) ;;
       rollback ;;
       throw e).

Definition execute_insert (query : string) (params : insert_params) : M t unit :=
  try_except
    (c <- conn ;;
     cursor <- external_new P (NewCursor Postgres c) ;;
     match params with
     | TupleList l =>
         external P (CursorExecuteMany cursor query l) ;;
         log DEBUG ("Executed batch insert with "
                    +:+ str_int (Z.of_nat (List.length l)) +:+ " rows")
     | OneTuple p =>
         external P (CursorExecute Postgres cursor query (Some p)) ;;
         log DEBUG "Executed single insert/update/delete"
     | NoParams =>
         external P (CursorExecute Postgres cursor query None) ;;
         log DEBUG "Executed single insert/update/delete"
     end ;;
     commit)
    (fun e =>
       log ERROR ("PostgreSQL insert execution failed: " +:+ exn_msg e) ;;
       rollback ;;
       throw e).

Definition close : M t unit :=
  self <- get ;;
  match _conn self with
  | Some c =>
      try_except
        (external P (ConnClose Postgres c) ;;
         put (Make (id self) None) ;;
         log INFO "PostgreSQL connection closed")
        (fun e => log WARNING ("Error closing PostgreSQL connection: " +:+ exn_msg e))
  | None => ret tt
  end.

End Methods.
End PostgresClient.

Module RedisClient.

Record t := Make { id : nat; _client : option nat }.

Section Methods.
Context (P : platform).

Definition init {St} : M St t :=
  if installed P Redis then
    i <- fresh_id ;;
    note_constructed Redis i ;;
    log INFO ("Initializing Redis client for "
              +:+ host_port (redis_host (settings P)) (redis_port (settings P))) ;;
    ret (Make i None)
  else throw (Exn "ImportError" "redis library not installed. Run: pip install redis").

(** The property [client]: build the connection object on first use and
    ping it once. *)
Definition client : M t nat :=
  self <- get ;;
  match _client self with
  | Some c => ret c
  | None =>
      try_except
        (c <- external_new P (Connect Redis) ;;
         put (Make (id self) (Some c)) ;;
         external P (RedisPing c) ;;
         log INFO "Successfully connected to Redis" ;;
         ret c)
        (fun e =>
           log ERROR ("Failed to connect to Redis: " +:+ exn_msg e) ;;
           throw e)
  end.

(** [self.client.ping()] *)
Definition ping : M t pyval :=
  c <- client ;; external P (RedisPing c).

End Methods.
End RedisClient.

Module MinIOClient.

Record t := Make { id : nat; _client : option nat }.

Section Methods.
Context (P : platform).

Definition init {St} : M St t :=
  if installed P MinIO then
    i <- fresh_id ;;
    note_constructed MinIO i ;;
    log INFO ("Initializing MinIO client for " +:+ minio_endpoint (settings P)) ;;
    ret (Make i None)
  else throw (Exn "ImportError" "minio library not installed. Run: pip install minio").

(** The property [client]: build the client on first use and test it
    with [bucket_exists]. *)
Definition client : M t nat :=
  self <- get ;;
  match _client self with
  | Some c => ret c
  | None =>
      try_except
        (c <- external_new P (Connect MinIO) ;;
         put (Make (id self) (Some c)) ;;
         bucket_exists <- external P (BucketExists c (minio_bucket (settings P))) ;;
         log INFO ("Successfully connected to MinIO. Bucket '"
                   +:+ minio_bucket (settings P) +:+ "' exists: "
                   +:+ py_str P bucket_exists) ;;
         ret c)
        (fun e =>
           log ERROR ("Failed to connect to MinIO: " +:+ exn_msg e) ;;
           throw e)
  end.

(** [bucket or settings.minio_bucket] *)
Definition bucket_or_default (bucket : option string) : string :=
  match bucket with
  | Some b => if String.eqb b "" then minio_bucket (settings P) else b
  | None => minio_bucket (settings P)
  end.

(** [self.client.bucket_exists(bucket)] *)
Definition bucket_exists (bucket : string) : M t pyval :=
  c <- client ;; external P (BucketExists c bucket).

Definition upload_file (file_path object_name : string) (bucket : option string)
  : M t unit :=
  let bucket := bucket_or_default bucket in
  try_except
    (c <- client ;;
     external P (FputObject c bucket object_name file_path) ;;
     log INFO ("Uploaded file " +:+ file_path +:+ " to " +:+ bucket +:+ "/" +:+ object_name))
    (fun e =>
       log ERROR ("Failed to upload file " +:+ file_path +:+ ": " +:+ exn_msg e) ;;
       throw e).

Definition download_file (object_name file_path : string) (bucket : option string)
  : M t unit :=
  let bucket := bucket_or_default bucket in
  try_except
    (c <- client ;;
     external P (FgetObject c bucket object_name file_path) ;;
     log INFO ("Downloaded " +:+ bucket +:+ "/" +:+ object_name +:+ " to " +:+ file_path))
    (fun e =>
       log ERROR ("Failed to download object " +:+ object_name +:+ ": " +:+ exn_msg e) ;;
       throw e).

(** The answer to [list_objects] stands for the object names the
    iteration yields. *)
Definition list_objects (prefix : string) (bucket : option string) : M t pyval :=
  let bucket := bucket_or_default bucket in
  try_except
    (c <- client ;;
     objects <- external P (ListObjects c bucket prefix) ;;
     object_names <- lift_result (py_iter objects) ;;
     log DEBUG ("Listed " +:+ str_int (Z.of_nat (List.length object_names))
                +:+ " objects in " +:+ bucket +:+ " with prefix '" +:+ prefix +:+ "'") ;;
     ret (VList object_names))
    (fun e =>
       log ERROR ("Failed to list objects in bucket " +:+ bucket +:+ ": " +:+ exn_msg e) ;;
       throw e).

Definition delete_object (object_name : string) (bucket : option string) : M t unit :=
  let bucket := bucket_or_default bucket in
  try_except
    (c <- client ;;
     external P (RemoveObject c bucket object_name) ;;
     log INFO ("Deleted object " +:+ bucket +:+ "/" +:+ object_name))
    (fun e =>
       log ERROR ("Failed to delete object " +:+ object_name +:+ ": " +:+ exn_msg e) ;;
       throw e).

Definition object_exists (object_name : string) (bucket : option string) : M t bool :=
  let bucket := bucket_or_default bucket in
  try_except
    (c <- client ;;
     external P (StatObject c bucket object_name) ;;
     ret true)
    (fun _ => ret false).

End Methods.
End MinIOClient.

(** The health report keeps its keys in the order they were assigned. *)
Definition health_keys : list string := ["trino"; "postgres"; "redis"; "minio"].

Definition repr_bool (b : bool) : string := if b then "True" else "False".

(** [str(health)] for the dictionary of booleans *)
Definition repr_health (health : gmap string bool) : string :=
  "{" +:+ join ", "
    (omap (fun k => match health !! k with
                    | Some b => Some ("'" +:+ k +:+ "': " +:+ repr_bool b)
                    | None => None
                    end) health_keys) +:+ "}".

Module ClientManager.

Record t := Make {
  _trino : option TrinoClient.t;
  _postgres : option PostgresClient.t;
  _redis : option RedisClient.t;
  _minio : option MinIOClient.t
}.

Definition set_trino (c : option TrinoClient.t) (self : t) : t :=
  Make c (_postgres self) (_redis self) (_minio self).
Definition set_postgres (c : option PostgresClient.t) (self : t) : t :=
  Make (_trino self) c (_redis self) (_minio self).
Definition set_redis (c : option RedisClient.t) (self : t) : t :=
  Make (_trino self) (_postgres self) c (_minio self).
Definition set_minio (c : option MinIOClient.t) (self : t) : t :=
  Make (_trino self) (_postgres self) (_redis self) c.

Section Methods.
Context (P : platform).

(** [ClientManager()] *)
Definition init {St} : M St t :=
  log INFO "ClientManager initialized" ;;
  ret (Make None None None None).

(** The four properties: build the client on first access, keep it in
    the field, and hand out the kept one from then on. *)
Definition trino : M t TrinoClient.t :=
  self <- get ;;
  match _trino self with
  | Some c => ret c
  | None => c <- TrinoClient.init P ;; put (set_trino (Some c) self) ;; ret c
  end.

Definition postgres : M t PostgresClient.t :=
  self <- get ;;
  match _postgres self with
  | Some c => ret c
  | None => c <- PostgresClient.init P ;; put (set_postgres (Some c) self) ;; ret c
  end.

Definition redis : M t RedisClient.t :=
  self <- get ;;
  match _redis self with
  | Some c => ret c
  | None => c <- RedisClient.init P ;; put (set_redis (Some c) self) ;; ret c
  end.

Definition minio : M t MinIOClient.t :=
  self <- get ;;
  match _minio self with
  | Some c => ret c
  | None => c <- MinIOClient.init P ;; put (set_minio (Some c) self) ;; ret c
  end.

(** [self.trino.m(...)]: read the property, run the method on the
    object it returns; the field holds that same object, so what the
    method changes in it is seen through the field. *)
Definition on_trino {A} (m : M TrinoClient.t A) : M t A :=
  c <- trino ;; zoom (fun _ => c) (fun c' => set_trino (Some c')) m.
Definition on_postgres {A} (m : M PostgresClient.t A) : M t A :=
  c <- postgres ;; zoom (fun _ => c) (fun c' => set_postgres (Some c')) m.
Definition on_redis {A} (m : M RedisClient.t A) : M t A :=
  c <- redis ;; zoom (fun _ => c) (fun c' => set_redis (Some c')) m.
Definition on_minio {A} (m : M MinIOClient.t A) : M t A :=
  c <- minio ;; zoom (fun _ => c) (fun c' => set_minio (Some c')) m.

(** The four probes of [health_check], each the body of one [try]. *)
Definition check_trino : M t unit :=
  on_trino (TrinoClient.execute_query P "SELECT 1") ;; ret tt.
Definition check_postgres : M t unit :=
  on_postgres (PostgresClient.execute_query P "SELECT 1" None) ;; ret tt.
Definition check_redis : M t unit :=
  on_redis (RedisClient.ping P) ;; ret tt.
Definition check_minio : M t unit :=
  on_minio (MinIOClient.bucket_exists P (minio_bucket (settings P))) ;; ret tt.

Definition health_check : M t (gmap string bool) :=
  let health : gmap string bool := ∅ in
  health <- try_except
    (check_trino ;; ret (<["trino" := true]> health))
    (fun e =>
       log WARNING ("Trino health check failed: " +:+ exn_msg e) ;;
       ret (<["trino" := false]> health)) ;;
  health <- try_except
    (check_postgres ;; ret (<["postgres" := true]> health))
    (fun e =>
       log WARNING ("PostgreSQL health check failed: " +:+ exn_msg e) ;;
       ret (<["postgres" := false]> health)) ;;
  health <- try_except
    (check_redis ;; ret (<["redis" := true]> health))
    (fun e =>
       log WARNING ("Redis health check failed: " +:+ exn_msg e) ;;
       ret (<["redis" := false]> health)) ;;
  health <- try_except
    (check_minio ;; ret (<["minio" := true]> health))
    (fun e =>
       log WARNING ("MinIO health check failed: " +:+ exn_msg e) ;;
       ret (<["minio" := false]> health)) ;;
  log INFO ("Health check results: " +:+ repr_health health) ;;
  ret health.

(** [close_all]: client objects are truthy, so each branch is taken
    exactly when the field holds a client. *)
Definition close_all : M t unit :=
  log INFO "Closing all client connections" ;;
  self <- get ;;
  match _trino self with
  | Some c =>
      zoom (fun _ => c) (fun c' => set_trino (Some c')) (TrinoClient.close P) ;;
      self <- get ;; put (set_trino None self)
  | None => ret tt
  end ;;
  self <- get ;;
  match _postgres self with
  | Some c =>
      zoom (fun _ => c) (fun c' => set_postgres (Some c')) (PostgresClient.close P) ;;
      self <- get ;; put (set_postgres None self)
  | None => ret tt
  end ;;
  self <- get ;;
  match _redis self with
  | Some _ => put (set_redis None self)
  | None => ret tt
  end ;;
  self <- get ;;
  match _minio self with
  | Some _ => put (set_minio None self)
  | None => ret tt
  end ;;
  log INFO "All client connections closed".

End Methods.
End ClientManager.

(** ** The client object the scripts are handed

    The scripts only ever call methods on [trino_client].  It is either an
    instance of [utils.clients.TrinoClient], or some other object (the
    tests pass mocks): such an object offers a set of method names, and
    what a method returns or raises is the platform's answer to the call. *)
Inductive client :=
| TrinoObject (c : TrinoClient.t)
| DuckObject (class_name : string) (methods : list string).

Definition has_name (name : string) (names : list string) : bool :=
  existsb (String.eqb name) names.

Definition attribute_error (class_name name : string) : exn :=
  Exn "AttributeError"
      ("'" +:+ class_name +:+ "' object has no attribute '" +:+ name +:+ "'").

Section Scripts.
Context (P : platform).

Definition on_object {A} (c : TrinoClient.t) (m : M TrinoClient.t A) : M client A :=
  zoom (fun _ => c) (fun c' _ => TrinoObject c') m.

(** A call [trino_client.name(arg, ...)] with string arguments: the
    attribute is looked up first, then called. *)
Definition call_method (name : string) (args : list string) : M client pyval :=
  self <- get ;;
  match self with
  | DuckObject class_name methods =>
      if has_name name methods then external P (Method name args)
      else throw (attribute_error class_name name)
  | TrinoObject c =>
      if negb (has_name name TrinoClient.attributes)
      then throw (attribute_error "TrinoClient" name)
      else if String.eqb name "execute_query" then
        match args with
        | [q] => on_object c (TrinoClient.execute_query P q)
        | _ => throw (Exn "TypeError" "execute_query() takes 2 positional arguments")
        end
      else if String.eqb name "execute_with_description" then
        match args with
        | [q] => on_object c (TrinoClient.execute_with_description P q)
        | _ => throw (Exn "TypeError" "execute_with_description() takes 2 positional arguments")
        end
      else if String.eqb name "create_iceberg_table" then
        match args with
        | [t; cols] =>
            on_object c (TrinoClient.create_iceberg_table P t cols None) ;; ret VNone
        | [t; cols; l] =>
            on_object c (TrinoClient.create_iceberg_table P t cols (Some l)) ;; ret VNone
        | _ => throw (Exn "TypeError" "create_iceberg_table() takes from 3 to 4 positional arguments")
        end
      else if String.eqb name "show_tables" then
        match args with
        | [] => on_object c (TrinoClient.show_tables P)
        | _ => throw (Exn "TypeError" "show_tables() takes 1 positional argument")
        end
      else if String.eqb name "describe_table" then
        match args with
        | [t] => on_object c (TrinoClient.describe_table P t)
        | _ => throw (Exn "TypeError" "describe_table() takes 2 positional arguments")
        end
      else if String.eqb name "close" then
        match args with
        | [] => on_object c (TrinoClient.close P) ;; ret VNone
        | _ => throw (Exn "TypeError" "close() takes 1 positional argument")
        end
      else throw (Exn "TypeError" "object is not callable")
  end.

(** ** create_iceberg_table.py *)

Record row := Row {
  order_id : string;
  product_name : string;
  category : string;
  quantity : Z;
  unit_price : binary64;
  region : string;
  order_date : datetime;
  customer_id : string;
  total_amount : binary64
}.

Definition products : list string :=
  ["Laptop"; "Smartphone"; "Tablet"; "Headphones"; "Keyboard";
   "Mouse"; "Monitor"; "Speaker"; "Camera"; "Watch"].

Definition categories : list string :=
  ["Electronics"; "Computers"; "Accessories"; "Audio"; "Photography"].

Definition regions : list string := ["US"; "EU"; "ASIA"; "LATAM"; "AFRICA"].

(** [random.choice(seq)] *)
Definition random_choice {St} (seq : list string) : M St string :=
  k <- next_draw ;;
  match nth_error seq (rand_choice P k (List.length seq)) with
  | Some x => ret x
  | None => throw (Exn "IndexError" "list index out of range")
  end.

(** [random.randint(a, b)] *)
Definition random_randint {St} (a b : Z) : M St Z :=
  k <- next_draw ;; ret (rand_int P k a b).

(** [random.uniform(a, b)] *)
Definition random_uniform {St} (a b : binary64) : M St binary64 :=
  k <- next_draw ;; ret (rand_uniform P k a b).

(** [range(start, stop, step)] for a step other than zero *)
Fixpoint range_from (fuel : nat) (i stop step : Z) : list Z :=
  match fuel with
  | O => []
  | S fuel' =>
      if ((0 <? step)%Z && (i <? stop)%Z) || ((step <? 0)%Z && (stop <? i)%Z)
      then i :: range_from fuel' (i + step) stop step
      else []
  end.

Definition py_range (start stop step : Z) : list Z :=
  range_from (Z.to_nat (Z.abs (stop - start))) start stop step.

(** [[f x for x in l]] with an effectful [f] *)
Fixpoint map_m {St A B} (f : A -> M St B) (l : list A) : M St (list B) :=
  match l with
  | [] => ret []
  | x :: l' => y <- f x ;; ys <- map_m f l' ;; ret (y :: ys)
  end.

(** One turn of the loop in [generate_sample_data]: the record for
    index [i]. *)
Definition make_record {St} (base_date : datetime) (i : Z) : M St row :=
  product <- random_choice products ;;
  cat <- random_choice categories ;;
  qty <- random_randint 1 10 ;;
  u <- random_uniform (B64 10 0) (B64 1000 0) ;;
  reg <- random_choice regions ;;
  days <- random_randint 0 365 ;;
  cust <- random_randint 1 1000 ;;
  let price := py_round2 u in
  ret (Row ("ORD-" +:+ zero_pad 6 (i + 1)) product cat qty price reg
           (add_days base_date days)
           ("CUST-" +:+ zero_pad 4 cust)
           (py_round2 (float_mul (float_of_Z qty) price))).

(** [str(df.shape)] for a frame built from a list of records *)
Definition shape (df : list row) : string :=
  match df with
  | [] => "(0, 0)"
  | _ => "(" +:+ str_int (Z.of_nat (List.length df)) +:+ ", 9)"
  end.

Definition generate_sample_data {St} (num_records : Z) : M St (list row) :=
  log INFO ("Generating " +:+ str_int num_records +:+ " sample records") ;;
  let base_date := add_days (now P) (-365) in
  data <- map_m (make_record base_date) (py_range 0 num_records 1) ;;
  log INFO ("Generated DataFrame with shape: " +:+ shape data) ;;
  ret data.

Definition create_table_sql (table_name schema : string) : string :=
  nl +:+
  "    CREATE TABLE IF NOT EXISTS iceberg." +:+ schema +:+ "." +:+ table_name +:+ " (" +:+ nl +:+
  "        order_id VARCHAR," +:+ nl +:+
  "        product_name VARCHAR," +:+ nl +:+
  "        category VARCHAR," +:+ nl +:+
  "        quantity INTEGER," +:+ nl +:+
  "        unit_price DECIMAL(10,2)," +:+ nl +:+
  "        total_amount DECIMAL(10,2)," +:+ nl +:+
  "        region VARCHAR," +:+ nl +:+
  "        order_date DATE," +:+ nl +:+
  "        customer_id VARCHAR" +:+ nl +:+
  "    ) WITH (" +:+ nl +:+
  "        format = 'PARQUET'," +:+ nl +:+
  "        location = 's3://warehouse/" +:+ schema +:+ "/" +:+ table_name +:+ "/'" +:+ nl +:+
  "    )" +:+ nl +:+
  "    ".

Definition create_iceberg_table (table_name schema : string) : M client unit :=
  log INFO ("Creating Iceberg table: " +:+ schema +:+ "." +:+ table_name) ;;
  try_except
    (call_method "execute" [create_table_sql table_name schema] ;;
     log SUCCESS ("Successfully created table: " +:+ schema +:+ "." +:+ table_name))
    (fun e =>
       log ERROR ("Failed to create table: " +:+ exn_msg e) ;;
       throw e).

(** [l[i:j]] *)
Definition py_slice {A} (l : list A) (i j : Z) : list A :=
  let n := Z.of_nat (List.length l) in
  let clip k := Z.max 0 (Z.min n (if (k <? 0)%Z then k + n else k)) in
  firstn (Z.to_nat (clip j - clip i)) (skipn (Z.to_nat (clip i)) l).

(** The text of one row in a VALUES clause. *)
Definition row_values (r : row) : string :=
  "('" +:+ order_id r +:+ "', '" +:+ product_name r +:+ "', '" +:+ category r +:+ "', "
  +:+ str_int (quantity r) +:+ ", " +:+ str_float P (unit_price r) +:+ ", "
  +:+ str_float P (total_amount r) +:+ ", "
  +:+ "'" +:+ region r +:+ "', DATE '" +:+ strftime_ymd P (order_date r) +:+ "', "
  +:+ "'" +:+ customer_id r +:+ "')".

(** The INSERT statement for the rows of one batch. *)
Definition insert_sql (table_name schema : string) (batch_df : list row) : string :=
  nl +:+
  "        INSERT INTO iceberg." +:+ schema +:+ "." +:+ table_name +:+ nl +:+
  "        VALUES " +:+ join ", " (map row_values batch_df) +:+ nl +:+
  "        ".

(** The body of the loop in [insert_data_batch], for the batch starting
    at row [i]. *)
Definition insert_one_batch (df : list row) (table_name schema : string)
    (batch_size total_batches : Z) (i : Z) : M client unit :=
  let batch_df := py_slice df i (i + batch_size) in
  let batch_num := (i / batch_size + 1)%Z in
  log INFO ("Processing batch " +:+ str_int batch_num +:+ "/" +:+ str_int total_batches) ;;
  try_except
    (call_method "execute" [insert_sql table_name schema batch_df] ;;
     log INFO ("Successfully inserted batch " +:+ str_int batch_num))
    (fun e =>
       log ERROR ("Failed to insert batch " +:+ str_int batch_num +:+ ": " +:+ exn_msg e) ;;
       throw e).

Definition insert_data_batch (df : list row) (table_name schema : string)
    (batch_size : Z) : M client unit :=
  let len := Z.of_nat (List.length df) in
  log INFO ("Inserting " +:+ str_int len +:+ " records into " +:+ schema +:+ "."
            +:+ table_name +:+ " in batches of " +:+ str_int batch_size) ;;
  if (batch_size =? 0)%Z
  then throw (Exn "ZeroDivisionError" "integer division or modulo by zero")
  else
    let total_batches := ((len + batch_size - 1) / batch_size)%Z in
    for_each (py_range 0 len batch_size)
             (insert_one_batch df table_name schema batch_size total_batches).

Definition count_sql (table_name schema : string) : string :=
  "SELECT COUNT(*) as row_count FROM iceberg." +:+ schema +:+ "." +:+ table_name.

Definition sample_sql (table_name schema : string) : string :=
  "SELECT * FROM iceberg." +:+ schema +:+ "." +:+ table_name +:+ " LIMIT 5".

Definition agg_sql (table_name schema : string) : string :=
  nl +:+
  "    SELECT " +:+ nl +:+
  "        category," +:+ nl +:+
  "        COUNT(*) as order_count," +:+ nl +:+
  "        SUM(total_amount) as total_revenue," +:+ nl +:+
  "        AVG(total_amount) as avg_order_value" +:+ nl +:+
  "    FROM iceberg." +:+ schema +:+ "." +:+ table_name +:+ nl +:+
  "    GROUP BY category" +:+ nl +:+
  "    ORDER BY total_revenue DESC" +:+ nl +:+
  "    ".

(** [for row in rows: logger.info(f"  {dict(row)}")] *)
Definition log_rows (rows : pyval) : M client unit :=
  l <- lift_result (py_iter rows) ;;
  for_each l (fun r => d <- lift_result (py_dict r) ;; log INFO ("  " +:+ py_str P d)).

Definition verify_data (table_name schema : string) : M client unit :=
  log INFO ("Verifying data in " +:+ schema +:+ "." +:+ table_name) ;;
  result <- call_method "fetchone" [count_sql table_name schema] ;;
  row_count <- lift_result (py_getitem result "row_count") ;;
  log INFO ("Table contains " +:+ py_str P row_count +:+ " rows") ;;
  sample_data <- call_method "fetchall" [sample_sql table_name schema] ;;
  log INFO "Sample data:" ;;
  log_rows sample_data ;;
  agg_results <- call_method "fetchall" [agg_sql table_name schema] ;;
  log INFO "Revenue by category:" ;;
  log_rows agg_results.

(** A method call on the local variable [trino_client], which is unbound
    until the constructor has returned. *)
Definition on_client {A} (m : M client A) : M (option client) A :=
  s <- get ;;
  match s with
  | Some c => zoom (fun _ => c) (fun c' _ => Some c') m
  | None => throw (Exn "UnboundLocalError" "local variable 'trino_client' referenced before assignment")
  end.

(** [main], for a given way of building the client; the state is the
    local variable [trino_client]. *)
Definition main_with (new_client : M (option client) client) : M (option client) unit :=
  log INFO "Starting Iceberg table creation and data insertion" ;;
  let table_name := "ecommerce_orders" in
  let schema := "sales" in
  let num_records := 2000%Z in
  let batch_size := 200%Z in
  try_finally
    (try_except
       (c <- new_client ;;
        put (Some c) ;;
        log INFO ("Creating schema: " +:+ schema) ;;
        on_client (call_method "execute" ["CREATE SCHEMA IF NOT EXISTS iceberg." +:+ schema]) ;;
        df <- generate_sample_data num_records ;;
        on_client (create_iceberg_table table_name schema) ;;
        on_client (insert_data_batch df table_name schema batch_size) ;;
        on_client (verify_data table_name schema) ;;
        log SUCCESS "Successfully completed Iceberg table creation and data insertion!")
       (fun e =>
          log ERROR ("Script failed with error: " +:+ exn_msg e) ;;
          sys_exit 1))
    (s <- get ;;
     match s with
     | Some _ => on_client (call_method "close" []) ;; ret tt
     | None => ret tt
     end).

(** [main] as the script runs it: the client is a [TrinoClient]. *)
Definition main : M (option client) unit :=
  main_with (c <- TrinoClient.init P ;; ret (TrinoObject c)).

End Scripts.

(** ** analyze_data.py *)

Section Analysis.
Context (P : platform).

Definition select_from (columns : list string) (full_table_name : string)
    (tail : list string) : string :=
  nl +:+
  "    SELECT " +:+ nl +:+
  join ("," +:+ nl) (map (fun c => "        " +:+ c) columns) +:+ nl +:+
  "    FROM " +:+ full_table_name +:+ nl +:+
  String.concat "" (map (fun l => "    " +:+ l +:+ nl) tail) +:+
  "    ".

Definition stats_query (full_table_name : string) : string :=
  select_from
    ["COUNT(*) as total_records";
     "COUNT(DISTINCT customer_id) as unique_customers";
     "COUNT(DISTINCT product_name) as unique_products";
     "MIN(order_date) as earliest_order";
     "MAX(order_date) as latest_order";
     "SUM(total_amount) as total_revenue";
     "AVG(total_amount) as avg_order_value"]
    full_table_name [].

Definition category_query (full_table_name : string) : string :=
  select_from
    ["category";
     "COUNT(*) as order_count";
     "SUM(total_amount) as total_revenue";
     "AVG(total_amount) as avg_order_value";
     "SUM(quantity) as total_quantity"]
    full_table_name ["GROUP BY category"; "ORDER BY total_revenue DESC"].

Definition regional_query (full_table_name : string) : string :=
  select_from
    ["region";
     "COUNT(*) as order_count";
     "SUM(total_amount) as total_revenue";
     "AVG(total_amount) as avg_order_value";
     "COUNT(DISTINCT customer_id) as unique_customers"]
    full_table_name ["GROUP BY region"; "ORDER BY total_revenue DESC"].

Definition monthly_query (full_table_name : string) : string :=
  select_from
    ["DATE_FORMAT(order_date, '%Y-%m') as month";
     "COUNT(*) as order_count";
     "SUM(total_amount) as monthly_revenue";
     "AVG(total_amount) as avg_order_value"]
    full_table_name ["GROUP BY DATE_FORMAT(order_date, '%Y-%m')"; "ORDER BY month"].

Definition product_query (full_table_name : string) : string :=
  select_from
    ["product_name";
     "category";
     "COUNT(*) as order_count";
     "SUM(quantity) as total_quantity";
     "SUM(total_amount) as total_revenue";
     "AVG(unit_price) as avg_price"]
    full_table_name
    ["GROUP BY product_name, category"; "ORDER BY total_revenue DESC"; "LIMIT 10"].

Definition customer_query (full_table_name : string) : string :=
  select_from
    ["customer_id";
     "COUNT(*) as order_count";
     "SUM(total_amount) as total_spent";
     "AVG(total_amount) as avg_order_value";
     "SUM(quantity) as total_items"]
    full_table_name ["GROUP BY customer_id"; "ORDER BY total_spent DESC"; "LIMIT 10"].

(** [row[key]] printed with [str], and printed with the format [.2f] *)
Definition field (r : pyval) (key : string) : M client string :=
  v <- lift_result (py_getitem r key) ;; ret (py_str P v).

Definition field_2f (r : pyval) (key : string) : M client string :=
  v <- lift_result (py_getitem r key) ;; lift_result (format_2f P v).

(** [for i, row in enumerate(rows, start)] *)
Fixpoint for_enumerate (start : Z) (rows : list pyval)
    (body : Z -> pyval -> M client unit) : M client unit :=
  match rows with
  | [] => ret tt
  | r :: rows' => body start r ;; for_enumerate (start + 1) rows' body
  end.

(** The bodies of the six [try] blocks. *)
Definition stats_block (full_table_name : string) : M client unit :=
  stats <- call_method P "fetchone" [stats_query full_table_name] ;;
  if py_truthy stats then
    log INFO "Table Statistics:" ;;
    items <- lift_result (py_items stats) ;;
    for_each items (fun kv => log INFO ("  " +:+ fst kv +:+ ": " +:+ py_str P (snd kv)))
  else ret tt.

Definition category_block (full_table_name : string) : M client unit :=
  category_results <- call_method P "fetchall" [category_query full_table_name] ;;
  log INFO "Category Performance:" ;;
  rows <- lift_result (py_iter category_results) ;;
  for_each rows (fun r =>
    a <- field r "category" ;;
    b <- field_2f r "total_revenue" ;;
    c <- field r "order_count" ;;
    d <- field_2f r "avg_order_value" ;;
    log INFO ("  " +:+ a +:+ ": $" +:+ b +:+ " (" +:+ c +:+ " orders, avg: $" +:+ d +:+ ")")).

Definition regional_block (full_table_name : string) : M client unit :=
  regional_results <- call_method P "fetchall" [regional_query full_table_name] ;;
  log INFO "Regional Performance:" ;;
  rows <- lift_result (py_iter regional_results) ;;
  for_each rows (fun r =>
    a <- field r "region" ;;
    b <- field_2f r "total_revenue" ;;
    c <- field r "unique_customers" ;;
    d <- field r "order_count" ;;
    log INFO ("  " +:+ a +:+ ": $" +:+ b +:+ " (" +:+ c +:+ " customers, " +:+ d +:+ " orders)")).

Definition monthly_block (full_table_name : string) : M client unit :=
  monthly_results <- call_method P "fetchall" [monthly_query full_table_name] ;;
  log INFO "Monthly Trends (last 10 months):" ;;
  last <- lift_result (py_last 10 monthly_results) ;;
  rows <- lift_result (py_iter last) ;;
  for_each rows (fun r =>
    a <- field r "month" ;;
    b <- field_2f r "monthly_revenue" ;;
    c <- field r "order_count" ;;
    log INFO ("  " +:+ a +:+ ": $" +:+ b +:+ " (" +:+ c +:+ " orders)")).

Definition product_block (full_table_name : string) : M client unit :=
  product_results <- call_method P "fetchall" [product_query full_table_name] ;;
  log INFO "Top 10 Products by Revenue:" ;;
  rows <- lift_result (py_iter product_results) ;;
  for_enumerate 1 rows (fun i r =>
    a <- field r "product_name" ;;
    b <- field r "category" ;;
    c <- field_2f r "total_revenue" ;;
    d <- field r "order_count" ;;
    log INFO ("  " +:+ str_int i +:+ ". " +:+ a +:+ " (" +:+ b +:+ "): $" +:+ c
              +:+ " (" +:+ d +:+ " orders)")).

Definition customer_block (full_table_name : string) : M client unit :=
  customer_results <- call_method P "fetchall" [customer_query full_table_name] ;;
  log INFO "Top 10 Customers by Total Spent:" ;;
  rows <- lift_result (py_iter customer_results) ;;
  for_enumerate 1 rows (fun i r =>
    a <- field r "customer_id" ;;
    b <- field_2f r "total_spent" ;;
    c <- field r "order_count" ;;
    d <- field_2f r "avg_order_value" ;;
    log INFO ("  " +:+ str_int i +:+ ". " +:+ a +:+ ": $" +:+ b +:+ " (" +:+ c
              +:+ " orders, avg: $" +:+ d +:+ ")")).

(** [try: body / except Exception as e: logger.error(f"{what}: {e}")] *)
Definition guarded (what : string) (body : M client unit) : M client unit :=
  try_except body (fun e => log ERROR (what +:+ ": " +:+ exn_msg e)).

Definition run_analysis_queries (table_name schema : string) : M client unit :=
  let full_table_name := "iceberg." +:+ schema +:+ "." +:+ table_name in
  log INFO ("Running analysis on " +:+ full_table_name) ;;
  log INFO "=== Basic Table Statistics ===" ;;
  guarded "Failed to get basic stats" (stats_block full_table_name) ;;
  log INFO (nl +:+ "=== Revenue by Category ===") ;;
  guarded "Failed to get category analysis" (category_block full_table_name) ;;
  log INFO (nl +:+ "=== Regional Performance ===") ;;
  guarded "Failed to get regional analysis" (regional_block full_table_name) ;;
  log INFO (nl +:+ "=== Monthly Trend Analysis ===") ;;
  guarded "Failed to get monthly analysis" (monthly_block full_table_name) ;;
  log INFO (nl +:+ "=== Top Products ===") ;;
  guarded "Failed to get product analysis" (product_block full_table_name) ;;
  log INFO (nl +:+ "=== Top Customers ===") ;;
  guarded "Failed to get customer analysis" (customer_block full_table_name).

(** The six queries, in the order the function sends them, each with the
    client method it is sent through. *)
Definition analysis_calls (table_name schema : string) : list call :=
  let full_table_name := "iceberg." +:+ schema +:+ "." +:+ table_name in
  [Method "fetchone" [stats_query full_table_name];
   Method "fetchall" [category_query full_table_name];
   Method "fetchall" [regional_query full_table_name];
   Method "fetchall" [monthly_query full_table_name];
   Method "fetchall" [product_query full_table_name];
   Method "fetchall" [customer_query full_table_name]].

(** What [run_analysis_queries] logs when the corresponding query fails. *)
Definition analysis_failures : list string :=
  ["Failed to get basic stats"; "Failed to get category analysis";
   "Failed to get regional analysis"; "Failed to get monthly analysis";
   "Failed to get product analysis"; "Failed to get customer analysis"].

End Analysis.

(** ** utils/cli.py *)

Inductive source_format := csv | json | parquet.

Definition source_name (f : source_format) : string :=
  match f with csv => "csv" | json => "json" | parquet => "parquet" end.

Section Cli.

(** [Panel.fit(title)] as printed; the frame is left out. *)
Definition panel (title : string) : string := title.

(** [not target]: an option that was not given is [None], and the empty
    string is false as well. *)
Definition falsy (o : option string) : bool :=
  match o with
  | None => true
  | Some s => String.eqb s ""
  end.

Definition ingest {St} (source : option source_format) (target : option string)
  : M St unit :=
  console_print (panel "🚀 Data Ingestion") ;;
  if falsy (option_map source_name source) || falsy target then
    console_print "❌ Please specify both --source and --target" ;;
    console_print "Example: lakehouse-ingest --source=csv --target=my_table" ;;
    sys_exit 1
  else
    console_print ("📊 Source format: " +:+ default "" (option_map source_name source)) ;;
    console_print ("🎯 Target table: " +:+ default "" target) ;;
    console_print "⚠️  Ingestion functionality not yet implemented".

(** The entry point of the packaged script. *)
Definition ingest_command {St} : M St unit := ingest None None.

End Cli.

(** ** analyze_data.py: the table check and [main] *)

Module analyze_data.
Section Script.
Context (P : platform).

(** [v == name] for a string [name] *)
Definition is_string (name : string) (v : pyval) : bool :=
  match v with VStr s => String.eqb s name | _ => false end.

Definition check_table_exists (table_name schema : string) : M client bool :=
  try_except
    (let tables_query := "SHOW TABLES FROM iceberg." +:+ schema in
     tables <- call_method P "fetchall" [tables_query] ;;
     rows <- lift_result (py_iter tables) ;;
     table_names <- map_m (fun table => lift_result (py_getitem table "Table")) rows ;;
     let found := existsb (is_string table_name) table_names in
     log INFO ("Table " +:+ schema +:+ "." +:+ table_name +:+ " exists: " +:+ repr_bool found) ;;
     ret found)
    (fun e =>
       log ERROR ("Failed to check if table exists: " +:+ exn_msg e) ;;
       ret false).

(** [main], for a given way of building the client; the state is the
    local variable [trino_client]. *)
Definition main_with (new_client : M (option client) client) : M (option client) unit :=
  log INFO "Starting data analysis" ;;
  let table_name := "ecommerce_orders" in
  let schema := "sales" in
  try_finally
    (try_except
       (c <- new_client ;;
        put (Some c) ;;
        found <- on_client (check_table_exists table_name schema) ;;
        (if negb found then
           log ERROR ("Table " +:+ schema +:+ "." +:+ table_name +:+ " does not exist. "
                      +:+ "Please run create_iceberg_table.py first.") ;;
           sys_exit 1
         else ret tt) ;;
        on_client (run_analysis_queries P table_name schema) ;;
        log SUCCESS "Data analysis completed successfully!")
       (fun e =>
          log ERROR ("Analysis failed with error: " +:+ exn_msg e) ;;
          sys_exit 1))
    (s <- get ;;
     match s with
     | Some _ => on_client (call_method P "close" []) ;; ret tt
     | None => ret tt
     end).

(** [main] as the script runs it: the client is a [TrinoClient]. *)
Definition main : M (option client) unit :=
  main_with (c <- TrinoClient.init P ;; ret (TrinoObject c)).

End Script.
End analyze_data.

(** ** run_demo.py: the script around [create_iceberg_table.main] *)

Module run_demo.
Section Script.
Context (P : platform).

Definition script : M (option client) unit :=
  log INFO "Starting Iceberg demo" ;;
  try_except
    (main P ;;
     log SUCCESS "Demo completed successfully!")
    (fun e =>
       log ERROR ("Demo failed: " +:+ exn_msg e) ;;
       sys_exit 1).

End Script.
End run_demo.

(** ** utils/clients.py: the module-level helpers

    The state is the module's global [clients]. *)

Module clients.
Section Helpers.
Context (P : platform).

Definition check_services_health : M ClientManager.t (gmap string bool) :=
  ClientManager.health_check P.

(** [with ClientContext() as c: body]: [__enter__] hands out the global
    manager, [__exit__] closes it and returns [None], so that whatever
    [body] raised goes on. *)
Definition ClientContext {A} (body : M ClientManager.t A) : M ClientManager.t A :=
  try_finally body (ClientManager.close_all P).

End Helpers.
End clients.

(** ** Text of the health report *)

(** [health.items()], in the order the keys were assigned *)
Definition health_items (health : gmap string bool) : list (string * bool) :=
  omap (fun k => match health !! k with Some b => Some (k, b) | None => None end) health_keys.

Definition is_lower (c : ascii) : bool :=
  (97 <=? nat_of_ascii c)%nat && (nat_of_ascii c <=? 122)%nat.
Definition is_upper (c : ascii) : bool :=
  (65 <=? nat_of_ascii c)%nat && (nat_of_ascii c <=? 90)%nat.
Definition upper_char (c : ascii) : ascii :=
  if is_lower c then ascii_of_nat (nat_of_ascii c - 32) else c.
Definition lower_char (c : ascii) : ascii :=
  if is_upper c then ascii_of_nat (nat_of_ascii c + 32) else c.

(** [s.upper()] for ASCII text *)
Fixpoint upper (s : string) : string :=
  match s with
  | EmptyString => EmptyString
  | String c s' => String (upper_char c) (upper s')
  end.

(** [s.title()] for ASCII text: the first letter of each run of letters
    in upper case, the others in lower case. *)
Fixpoint title_from (inside : bool) (s : string) : string :=
  match s with
  | EmptyString => EmptyString
  | String c s' =>
      let letter := is_lower c || is_upper c in
      String (if letter then (if inside then lower_char c else upper_char c) else c)
             (title_from letter s')
  end.

Definition title (s : string) : string := title_from false s.

(** [sum(health.values())] *)
Definition healthy_count (items : list (string * bool)) : Z :=
  fold_right (fun (kv : string * bool) n => ((if kv.2 then 1 else 0) + n)%Z) 0%Z items.

(** ** utils/cli.py: the health check command *)

Module cli.
Section Commands.
Context (P : platform).

(** [console.print(table)] as printed: one line for the header and one
    for each row, the cells separated by a bar; the frame is left out. *)
Definition table_text (header : list string) (rows : list (list string)) : string :=
  join nl (map (join " | ") (header :: rows)).

(** [services_info.get(service, "N/A")] *)
Definition services_info : list (string * string) :=
  [("trino", host_port (trino_host (settings P)) (trino_port (settings P)));
   ("postgres", host_port (postgres_host (settings P)) (postgres_port (settings P)));
   ("redis", host_port (redis_host (settings P)) (redis_port (settings P)));
   ("minio", minio_endpoint (settings P))].

Fixpoint lookup_or (key : string) (d : list (string * string)) (default : string) : string :=
  match d with
  | [] => default
  | (k, v) :: d' => if String.eqb k key then v else lookup_or key d' default
  end.

Definition health_check : M ClientManager.t unit :=
  console_print (panel "🏥 Service Health Check") ;;
  try_except
    (health_results <- ClientManager.health_check P ;;
     let items := health_items health_results in
     let rows := map (fun kv : string * bool =>
                        [title kv.1;
                         if kv.2 then "✅ Healthy" else "❌ Unhealthy";
                         lookup_or kv.1 services_info "N/A"]) items in
     console_print (table_text ["Service"; "Status"; "Endpoint"] rows) ;;
     let healthy := healthy_count items in
     let total_count := Z.of_nat (List.length items) in
     if (healthy =? total_count)%Z then
       console_print (nl +:+ "✅ All services are healthy (" +:+ str_int healthy
                      +:+ "/" +:+ str_int total_count +:+ ")")
     else
       console_print (nl +:+ "⚠️  " +:+ str_int healthy +:+ "/" +:+ str_int total_count
                      +:+ " services are healthy"))
    (fun e =>
       console_print ("❌ Health check failed: " +:+ exn_msg e) ;;
       sys_exit 1).

(** The entry point of the packaged script. *)
Definition health_check_command : M ClientManager.t unit := health_check.

End Commands.
End cli.

(** ** test_connection.py *)

Module test_connection.
Section Script.
Context (P : platform).

(** The loop over the report: a line for each service, and whether all
    were healthy so far. *)
Fixpoint report {St} (items : list (string * bool)) (all_healthy : bool) : M St bool :=
  match items with
  | [] => ret all_healthy
  | (service, is_healthy) :: items' =>
      let status := if is_healthy then "✓ HEALTHY" else "✗ FAILED" in
      log INFO ("  " +:+ upper service +:+ ": " +:+ status) ;;
      report items' (if negb is_healthy then false else all_healthy)
  end.

(** The state is the local [client_manager]. *)
Definition test_connections : M ClientManager.t bool :=
  log INFO "Testing service connections..." ;;
  client_manager <- ClientManager.init ;;
  put client_manager ;;
  try_finally
    (try_except
       (health_results <- ClientManager.health_check P ;;
        log INFO "=== Connection Test Results ===" ;;
        all_healthy <- report (health_items health_results) true ;;
        if all_healthy : bool then
          log SUCCESS "All services are healthy!" ;;
          ret true
        else
          log ERROR "Some services are not healthy" ;;
          ret false)
       (fun e =>
          log ERROR ("Connection test failed: " +:+ exn_msg e) ;;
          ret false))
    (ClientManager.close_all P).

Definition main : M ClientManager.t unit :=
  log INFO "Starting connection test" ;;
  success <- test_connections ;;
  if success : bool then
    log SUCCESS "Connection test completed successfully!" ;;
    sys_exit 0
  else
    log ERROR "Connection test failed" ;;
    sys_exit 1.

End Script.
End test_connection.

(** ** settings.py: the helper methods

    The methods read one field each; the field is the argument here.
    Text is ASCII. *)

Module settings_helpers.

(** [c.isspace()] for an ASCII character *)
Definition is_space (c : ascii) : bool :=
  let n := nat_of_ascii c in
  ((9 <=? n)%nat && (n <=? 13)%nat) || ((28 <=? n)%nat && (n <=? 32)%nat).

(** [s.lower()] for ASCII text *)
Fixpoint lower (s : string) : string :=
  match s with
  | EmptyString => EmptyString
  | String c s' => String (lower_char c) (lower s')
  end.

Definition is_development (environment : string) : bool :=
  String.eqb (lower environment) "development".

Definition is_production (environment : string) : bool :=
  String.eqb (lower environment) "production".

(** [s.split(sep)] for a separator of one character: a piece for every
    separator, and one more. *)
Fixpoint split (sep : ascii) (s : string) : list string :=
  match s with
  | EmptyString => [EmptyString]
  | String c s' =>
      if Ascii.eqb c sep then EmptyString :: split sep s'
      else match split sep s' with
           | piece :: pieces => String c piece :: pieces
           | [] => [String c EmptyString]
           end
  end.

(** [s.lstrip()], [s.rstrip()] and [s.strip()] *)
Fixpoint lstrip (s : string) : string :=
  match s with
  | EmptyString => EmptyString
  | String c s' => if is_space c then lstrip s' else s
  end.

Fixpoint rstrip (s : string) : string :=
  match s with
  | EmptyString => EmptyString
  | String c s' =>
      match rstrip s' with
      | EmptyString => if is_space c then EmptyString else String c EmptyString
      | t => String c t
      end
  end.

Definition strip (s : string) : string := rstrip (lstrip s).

Definition get_email_recipients_list (email_recipients : string) : list string :=
  if String.eqb email_recipients "" then []
  else
    omap (fun email => if String.eqb (strip email) "" then None else Some (strip email))
         (split "," email_recipients).

End settings_helpers.

(** ** Sample platforms

    Concrete surroundings on which the statements below are exercised. *)

Definition demo_settings : Settings :=
  {| trino_host := "localhost"; trino_port := 8080;
     trino_catalog := "iceberg"; trino_schema := "default";
     postgres_host := "localhost"; postgres_port := 5433;
     redis_host := "localhost"; redis_port := 6379;
     minio_endpoint := "localhost:9000"; minio_bucket := "warehouse" |}.

Definition demo_platform (inst : service -> bool)
    (resp : list call -> call -> pyval + exn)
    (ri : nat -> Z -> Z -> Z) (ru : nat -> binary64 -> binary64 -> binary64) : platform :=
  {| installed := inst;
     respond := resp;
     rand_choice := fun _ _ => O;
     rand_int := ri;
     rand_uniform := ru;
     now := Datetime 739000 0;
     str_float := fun _ => "0.0";
     py_str := fun _ => "?";
     strftime_ymd := fun _ => "2024-01-01";
     format_2f := fun _ => inl "0.00";
     settings := demo_settings |}.

(** Every library is installed and every call returns an empty result. *)
Definition all_up : platform :=
  demo_platform (fun _ => true) (fun _ _ => inl (VList []))
                (fun _ a _ => a) (fun _ a _ => a).

(** Every library is installed and every call fails. *)
Definition all_down : platform :=
  demo_platform (fun _ => true) (fun _ _ => inr (Exn "ConnectionError" "connection refused"))
                (fun _ a _ => a) (fun _ a _ => a).

(** The client libraries are not installed. *)
Definition nothing_installed : platform :=
  demo_platform (fun _ => false) (fun _ _ => inl (VList []))
                (fun _ a _ => a) (fun _ a _ => a).

(** The database is reachable but refuses every statement. *)
Definition refuses_statements : platform :=
  demo_platform (fun _ => true)
    (fun _ c => match c with
                | CursorExecute _ _ _ _ | CursorExecuteMany _ _ _ =>
                    inr (Exn "ProgrammingError" "syntax error")
                | _ => inl (VList [])
                end)
    (fun _ a _ => a) (fun _ a _ => a).

(** [randint(1, 10)] gives 3, and [uniform(10.0, 1000.0)] gives
    10.099999999999946, which is [10.0 + 990.0 * random()] for
    [random() = 909818106539 / 2^53]. *)
Definition three_at_ten_point_one : platform :=
  demo_platform (fun _ => true) (fun _ _ => inl (VList []))
                (fun _ a b => if (a =? 1)%Z && (3 <=? b)%Z then 3%Z else a)
                (fun _ _ _ => B64 5685794529555221 (-49)).

(** A client object as the tests build it: it offers every method the
    scripts call. *)
Definition mock_client : client :=
  DuckObject "Mock" ["execute"; "fetchone"; "fetchall"; "close"].

Definition sample_row (i : Z) : row :=
  Row ("ORD-" +:+ zero_pad 6 i) "Laptop" "Electronics" 1 (float_of_Z 100) "US"
      (Datetime 738886 0) ("CUST-" +:+ zero_pad 4 i) (float_of_Z 100).

Definition five_rows : list row := map sample_row [1; 2; 3; 4; 5]%Z.

(** The surroundings of a successful run against a mock: [fetchone]
    returns a row with the count, everything else an empty result. *)
Definition mock_platform : platform :=
  demo_platform (fun _ => true)
    (fun _ c => match c with
                | Method "fetchone" _ => inl (VDict [("row_count", VInt 2000)])
                | _ => inl (VList [])
                end)
    (fun _ a _ => a) (fun _ a _ => a).

(** The frame [main] generates on that platform. *)
Definition mock_data : list row :=
  match (generate_sample_data mock_platform 2000 tt world0).1.1 with
  | Ret df => df
  | _ => []
  end.

(** The client refuses every [execute]. *)
Definition rejects_execute : platform :=
  demo_platform (fun _ => true)
    (fun _ c => match c with
                | Method "execute" _ => inr (Exn "TrinoUserError" "insert failed")
                | _ => inl (VList [])
                end)
    (fun _ a _ => a) (fun _ a _ => a).

(** [execute_insert] and [execute_query] on a fresh client when the
    database cannot be reached. *)
Definition unreachable_insert : outcome unit * PostgresClient.t * world :=
  PostgresClient.execute_insert all_down "INSERT INTO t VALUES (1)" NoParams
    (PostgresClient.Make 0 None) world0.

Definition unreachable_query : outcome pyval * PostgresClient.t * world :=
  PostgresClient.execute_query all_down "SELECT 1" None (PostgresClient.Make 0 None) world0.

(** A manager that holds no client: the state [ClientManager()] returns,
    and the state [close_all] leaves. *)
Definition no_clients : ClientManager.t := ClientManager.Make None None None None.

(** ** Derived notions used in the statements *)

(** [m] never ends in [SystemExit]. *)
Definition no_exit {St A} (m : M St A) : Prop :=
  ∀ s w c, (m s w).1.1 ≠ Exit c.

(** [m] leaves its object alone, makes no external call, and never ends in
    [SystemExit]: it only computes and logs. *)
Definition quiet {St A} (m : M St A) : Prop :=
  ∀ s w, (m s w).1.2 = s ∧ events (m s w).2 = events w
         ∧ constructed (m s w).2 = constructed w ∧ ∀ c, (m s w).1.1 ≠ Exit c.

(** The world after the [except] clause of a health probe: a warning is
    logged when the probe raised. *)
Definition after_probe {A} (name : string) (r : outcome A) (w : world) : world :=
  match r with
  | Raise e =>
      World (events w)
            (logs w ++ [(WARNING, name +:+ " health check failed: " +:+ exn_msg e)])
            (console w) (constructed w) (next_id w) (draws w)
  | _ => w
  end.

(** The calls [close] makes on the connections a manager's Trino and
    PostgreSQL clients hold. *)
Definition close_calls (self : ClientManager.t) : list call :=
  match ClientManager._trino self with
  | Some c => match TrinoClient._conn c with Some h => [ConnClose Trino h] | None => [] end
  | None => []
  end ++
  match ClientManager._postgres self with
  | Some c => match PostgresClient._conn c with Some h => [ConnClose Postgres h] | None => [] end
  | None => []
  end.

(** The identity of the client a manager holds for a service. *)
Definition cached (self : ClientManager.t) (sv : service) : option nat :=
  match sv with
  | Trino => TrinoClient.id <$> ClientManager._trino self
  | Postgres => PostgresClient.id <$> ClientManager._postgres self
  | Redis => RedisClient.id <$> ClientManager._redis self
  | MinIO => MinIOClient.id <$> ClientManager._minio self
  end.

(** Reading the property of a service: the identity of the object
    returned. *)
Definition access (P : platform) (sv : service) : M ClientManager.t nat :=
  match sv with
  | Trino => c <- ClientManager.trino P ;; ret (TrinoClient.id c)
  | Postgres => c <- ClientManager.postgres P ;; ret (PostgresClient.id c)
  | Redis => c <- ClientManager.redis P ;; ret (RedisClient.id c)
  | MinIO => c <- ClientManager.minio P ;; ret (MinIOClient.id c)
  end.

(** A sequence of property reads by a caller that carries on after a read
    that raised: how each read ended, and the final manager and world. *)
Fixpoint run_accesses (P : platform) (l : list service) (self : ClientManager.t) (w : world)
  : list (service * outcome nat) * ClientManager.t * world :=
  match l with
  | [] => ([], self, w)
  | sv :: l' =>
      match access P sv self w with
      | (r, s1, w1) =>
          match run_accesses P l' s1 w1 with
          | (rs, s2, w2) => ((sv, r) :: rs, s2, w2)
          end
      end
  end.

(** The entries of [constructed] for one service. *)
Definition built (sv : service) (l : list (service * nat)) : list nat :=
  omap (fun p => if service_eqb p.1 sv then Some p.2 else None) l.

(** What a sequence of reads does to one service, from any manager. *)
Definition summary (P : platform) (sv : service) (ops : list service) (s s' : ClientManager.t)
    (new : list (service * nat)) (rs : list (service * outcome nat)) : Prop :=
  (forall i, cached s sv = Some i ->
     built sv new = [] /\ cached s' sv = Some i /\ forall r, (sv, r) ∈ rs -> r = Ret i)
  /\ (cached s sv = None -> sv ∉ ops -> built sv new = [] /\ cached s' sv = None)
  /\ (cached s sv = None -> sv ∈ ops -> installed P sv = true ->
      exists i, built sv new = [i] /\ cached s' sv = Some i
                /\ forall r, (sv, r) ∈ rs -> r = Ret i)
  /\ (cached s sv = None -> sv ∈ ops -> installed P sv = false ->
      built sv new = [] /\ cached s' sv = None
      /\ forall r, (sv, r) ∈ rs -> exists e, r = Raise e).

(** Make the calls of a list one after the other until one raises: the
    calls that were made, and the value of the last one or the exception. *)
Fixpoint attempt (P : platform) (evs : list call) (calls : list call) (last : pyval)
  : list call * (pyval + exn) :=
  match calls with
  | [] => ([], inl last)
  | c :: rest =>
      match respond P evs c with
      | inl v => (c :: (attempt P (evs ++ [c]) rest v).1, (attempt P (evs ++ [c]) rest v).2)
      | inr e => ([c], inr e)
      end
  end.

(** How an [except] clause that calls [rollback] on connection [c] and then
    re-raises [e] ends, after the calls [evs]. *)
Definition after_rollback {A} (P : platform) (evs : list call) (c : nat) (e : exn)
  : outcome A :=
  match respond P evs (ConnRollback c) with
  | inl _ => Raise e
  | inr e' => Raise e'
  end.

(** The cursor call [execute_insert] makes for its parameters. *)
Definition insert_call (cursor : nat) (query : string) (params : insert_params) : call :=
  match params with
  | TupleList l => CursorExecuteMany cursor query l
  | OneTuple p => CursorExecute Postgres cursor query (Some p)
  | NoParams => CursorExecute Postgres cursor query None
  end.

(** The world after a log call. *)
Definition logged (lv : level) (msg : string) (w : world) : world :=
  World (events w) (logs w ++ [(lv, msg)]) (console w) (constructed w)
        (next_id w) (draws w).

(** The world after the [except] clause of one analysis query: the error
    is logged when the block raised. *)
Definition after_guard {A} (what : string) (r : outcome A) (w : world) : world :=
  match r with
  | Raise e => logged ERROR (what +:+ ": " +:+ exn_msg e) w
  | _ => w
  end.

(** The world after [logger.error(msg)]. *)
Definition logged_error (msg : string) (w : world) : world :=
  World (events w) (logs w ++ [(ERROR, msg)]) (console w) (constructed w)
        (next_id w) (draws w).

Definition is_inl {A B} (x : A + B) : bool :=
  match x with inl _ => true | inr _ => false end.

(** The platform lets every call of the client method [name] return. *)
Definition accepts (P : platform) (name : string) : Prop :=
  ∀ evs args, is_inl (respond P evs (Method name args)) = true.

(** What the documentation of [random] promises about [choice],
    [randint] and [uniform], for the calls the generator makes. *)
Definition random_contract (P : platform) : Prop :=
  (∀ k n, (0 < n)%nat → (rand_choice P k n < n)%nat)
  ∧ (∀ k a b, (a <= b)%Z → (a <= rand_int P k a b <= b)%Z)
  ∧ (∀ k, float_between 10 1000 (rand_uniform P k (B64 10 0) (B64 1000 0)) = true).

(** Ceiling of [n / b] for positive [b]. *)
Definition ceil_div (n b : Z) : Z := ((n + b - 1) / b)%Z.

(** The rows with indices [lo], ..., [hi - 1] of a frame. *)
Definition rows_between (df : list row) (lo hi : Z) : list row :=
  firstn (Z.to_nat (hi - lo)) (skipn (Z.to_nat lo) df).

(** The rows of the [k]-th batch, [k] counted from 1. *)
Definition batch (df : list row) (b : Z) (k : Z) : list row :=
  let n := Z.of_nat (List.length df) in
  rows_between df (k * b - b) (Z.min (k * b) n).

(** The batch numbers [1], ..., [count]. *)
Definition batch_numbers (count : Z) : list Z :=
  map (fun i => Z.of_nat i + 1)%Z (seq 0 (Z.to_nat count)).

(** ** Derived notions for the further properties *)

(** [m], run on the object [s], leaves the object as it is, never ends in
    [SystemExit], and makes the calls of [calls], in that order and
    nothing else: it goes on to the next call only when the one before
    returned, and it returns only when all of them did. *)
Definition sends {St A} (P : platform) (s : St) (m : M St A) (calls : list call) : Prop :=
  ∀ w, ∃ sent,
    (m s w).1.2 = s
    ∧ events (m s w).2 = events w ++ sent
    ∧ sent `prefix_of` (attempt P (events w) calls VNone).1
    ∧ match (m s w).1.1 with
      | Ret _ => sent = calls ∧ is_inl (attempt P (events w) calls VNone).2 = true
      | Raise _ => True
      | Exit _ => False
      end.

(** [m] does nothing but make the calls of [calls] until one raises: it
    returns when all of them returned, and raises what the first failing
    call raised. *)
Definition relays {St} (P : platform) (s : St) (m : M St unit) (calls : list call) : Prop :=
  ∀ w,
    (m s w).1.2 = s
    ∧ events (m s w).2 = events w ++ (attempt P (events w) calls VNone).1
    ∧ (m s w).1.1 = match (attempt P (events w) calls VNone).2 with
                    | inl _ => Ret tt
                    | inr e => Raise e
                    end.

(** The INSERT statements for a frame, one for each batch. *)
Definition insert_calls (P : platform) (df : list row) (table_name schema : string)
    (b : Z) : list call :=
  map (fun k => Method "execute" [insert_sql P table_name schema (batch df b k)])
      (batch_numbers (ceil_div (Z.of_nat (List.length df)) b)).

(** The three queries of [verify_data]. *)
Definition verify_calls (table_name schema : string) : list call :=
  [Method "fetchone" [count_sql table_name schema];
   Method "fetchall" [sample_sql table_name schema];
   Method "fetchall" [agg_sql table_name schema]].

(** The statements [main] sends for the frame [df], before it closes the
    client. *)
Definition main_calls (P : platform) (df : list row) : list call :=
  [Method "execute" ["CREATE SCHEMA IF NOT EXISTS iceberg.sales"];
   Method "execute" [create_table_sql "ecommerce_orders" "sales"]]
  ++ insert_calls P df "ecommerce_orders" "sales" 200
  ++ verify_calls "ecommerce_orders" "sales".

(** The number a string of decimal digits stands for. *)
Definition digits_value (s : string) : option Z :=
  option_map Z.of_uint (NilEmpty.uint_of_string s).

(** The fields of a generated record that come from the row's position,
    the customer number and the day offset. *)
Definition record_fields (P : platform) (i : Z) (r : row) : Prop :=
  order_id r = "ORD-" +:+ zero_pad 6 (i + 1)
  /\ (exists n, (1 <= n <= 1000)%Z /\ customer_id r = "CUST-" +:+ zero_pad 4 n)
  /\ (exists d, (0 <= d <= 365)%Z /\ order_date r = add_days (now P) (d - 365)).

(** [m], run on the object [s], always returns, leaves the object as it
    is, and makes exactly the calls of [calls], whatever they answer. *)
Definition always_sends {St A} (s : St) (m : M St A) (calls : list call) : Prop :=
  ∀ w, ∃ a w', m s w = (Ret a, s, w') ∧ events w' = events w ++ calls.

(** The query [check_table_exists] sends. *)
Definition show_tables_call (schema : string) : call :=
  Method "fetchall" ["SHOW TABLES FROM iceberg." +:+ schema].

(** The answer [v] to SHOW TABLES lists the table: every row has an entry
    [Table], and for one of them it is the table's name. *)
Definition lists_table (table_name : string) (v : pyval) : Prop :=
  ∃ rows names,
    py_iter v = inl rows
    ∧ Forall2 (fun row name => py_getitem row "Table" = inl name) rows names
    ∧ VStr table_name ∈ names.

(** [m] prints nothing on the console. *)
Definition prints_nothing {St A} (m : M St A) : Prop :=
  ∀ s w, console (m s w).2 = console w.

(** The report of [health_check] for the four answers. *)
Definition health_report (trino postgres redis minio : bool) : gmap string bool :=
  <["minio" := minio]> (<["redis" := redis]> (<["postgres" := postgres]>
    (<["trino" := trino]> ∅))).

(** The world after a line was printed on the console. *)
Definition printed (line : string) (w : world) : world :=
  World (events w) (logs w) (console w ++ [line]) (constructed w) (next_id w) (draws w).

(** What a first access to the client of service [sv] does to the field
    and to the list of clients built, for a manager [s] in the world [w]:
    nothing when a client is held or the library is missing, a client
    with the next fresh identity otherwise. *)
Definition held_after (P : platform) (s : ClientManager.t) (w : world) (sv : service)
  : option nat :=
  match cached s sv with
  | Some i => Some i
  | None => if installed P sv then Some (next_id w) else None
  end.

Definition newly_built (P : platform) (s : ClientManager.t) (w : world) (sv : service)
  : list (service * nat) :=
  match cached s sv with
  | Some _ => []
  | None => if installed P sv then [(sv, next_id w)] else []
  end.

(** An entry of a list of recipients as [get_email_recipients_list]
    returns it: not empty, without a comma, and without white space at
    either end. *)
Definition has_comma (s : string) : bool :=
  existsb (Ascii.eqb ",") (list_ascii_of_string s).

Definition tidy (s : string) : Prop :=
  s <> "" /\ has_comma s = false
  /\ settings_helpers.lstrip s = s /\ settings_helpers.rstrip s = s.

(** * Properties *)

(** ** The monad's combinators *)

Section Combinators.
Context {St : Type}.

Lemma bind_run {A B} (m : M St A) (k : A -> M St B) s w r s1 w1 :
  m s w = (r, s1, w1) ->
  bind m k s w =
    match r with
    | Ret a => k a s1 w1
    | Raise e => (Raise e, s1, w1)
    | Exit c => (Exit c, s1, w1)
    end.
Proof. intros H. unfold bind. rewrite H. destruct r; reflexivity. Qed.

Lemma no_exit_ret {A} (a : A) : no_exit (@ret St A a).
Proof. intros s w c. discriminate. Qed.

Lemma no_exit_throw {A} (e : exn) : no_exit (@throw St A e).
Proof. intros s w c. discriminate. Qed.

Lemma no_exit_get : no_exit (@get St).
Proof. intros s w c. discriminate. Qed.

Lemma no_exit_put (s0 : St) : no_exit (put s0).
Proof. intros s w c. discriminate. Qed.

Lemma no_exit_log lv msg : no_exit (@log St lv msg).
Proof. intros s w c. discriminate. Qed.

Lemma no_exit_fresh_id : no_exit (@fresh_id St).
Proof. intros s w c. discriminate. Qed.

Lemma no_exit_note_constructed sv i : no_exit (@note_constructed St sv i).
Proof. intros s w c. discriminate. Qed.

Lemma no_exit_lift_result {A} (r : A + exn) : no_exit (@lift_result St A r).
Proof. intros s w c. destruct r; discriminate. Qed.

Lemma no_exit_external P c : no_exit (@external St P c).
Proof. intros s w k. unfold external. destruct (respond P (events w) c); discriminate. Qed.

Lemma no_exit_bind {A B} (m : M St A) (k : A -> M St B) :
  no_exit m -> (forall a, no_exit (k a)) -> no_exit (bind m k).
Proof.
  intros Hm Hk s w c. unfold bind.
  specialize (Hm s w). destruct (m s w) as [[r s1] w1]. destruct r as [a|e|c'].
  - apply Hk.
  - discriminate.
  - exfalso. apply (Hm c'). reflexivity.
Qed.

Lemma no_exit_try_except {A} (m : M St A) (h : exn -> M St A) :
  no_exit m -> (forall e, no_exit (h e)) -> no_exit (try_except m h).
Proof.
  intros Hm Hh s w c. unfold try_except.
  specialize (Hm s w). destruct (m s w) as [[r s1] w1]. destruct r as [a|e|c'].
  - discriminate.
  - apply Hh.
  - apply Hm.
Qed.

Lemma no_exit_zoom {T A} (proj : St -> T) (upd : T -> St -> St) (m : M T A) :
  no_exit m -> no_exit (zoom proj upd m).
Proof.
  intros Hm s w c. unfold zoom.
  specialize (Hm (proj s) w c). destruct (m (proj s) w) as [[r t1] w1]. exact Hm.
Qed.

Lemma no_exit_external_new P c : no_exit (@external_new St P c).
Proof.
  apply no_exit_bind; [apply no_exit_external | intros; apply no_exit_fresh_id].
Qed.

Lemma no_exit_for_each {A} (l : list A) (body : A -> M St unit) :
  (forall x, no_exit (body x)) -> no_exit (for_each l body).
Proof.
  intros Hb. induction l as [|x l IH]; simpl.
  - apply no_exit_ret.
  - apply no_exit_bind; [apply Hb | intros; exact IH].
Qed.

End Combinators.

Create HintDb noexit.
#[export] Hint Resolve no_exit_ret no_exit_throw no_exit_get no_exit_put no_exit_log
  no_exit_fresh_id no_exit_note_constructed no_exit_lift_result no_exit_external
  no_exit_external_new : noexit.

(** Decompose a computation along its binds, handlers and case
    distinctions, closing the leaves with the hint database. *)
Ltac no_exit_step :=
  first
    [ apply no_exit_bind; [| intros ?]
    | apply no_exit_try_except; [| intros ?]
    | apply no_exit_zoom
    | apply no_exit_for_each; intros ?
    | match goal with
      | |- no_exit (match ?x with _ => _ end) => destruct x
      end ].

Ltac solve_no_exit := repeat (first [ solve [auto with noexit] | no_exit_step ]).

(** ** The ingest command *)

(** C8.  [ingest] is a stub.  An option is missing when it was not given
    or is empty (Python's [not]).  If the source or the target is missing,
    the command prints the title, an error and an example and exits with
    status 1; otherwise it prints the title, the source format, the target
    table and the notice that ingestion is not implemented, and returns.
    In both cases no external call is made and no client is built. *)
Theorem ingest_is_a_stub {St : Type} (source : option source_format)
    (target : option string) (s : St) (w : world) :
  let missing := match source with None => true | Some _ => false end || falsy target in
  exists w',
    ingest source target s w = (if missing then Exit 1 else Ret tt, s, w')
    /\ events w' = events w
    /\ constructed w' = constructed w
    /\ console w' =
         console w ++
           panel "🚀 Data Ingestion" ::
           (if missing
            then ["❌ Please specify both --source and --target";
                  "Example: lakehouse-ingest --source=csv --target=my_table"]
            else ["📊 Source format: " +:+ default "" (option_map source_name source);
                  "🎯 Target table: " +:+ default "" target;
                  "⚠️  Ingestion functionality not yet implemented"]).
Proof.
  unfold ingest.
  assert (Hs : falsy (option_map source_name source)
               = match source with None => true | Some _ => false end).
  { destruct source as [[]|]; reflexivity. }
  rewrite Hs. simpl.
  destruct (match source with None => true | Some _ => false end || falsy target) eqn:E;
    unfold bind, console_print, sys_exit; simpl;
    eexists; (split; [reflexivity|]); simpl;
    repeat split; rewrite <- ?app_assoc; reflexivity.
Qed.

(** ** The table script against the repository's own client *)

(** C1 (the run on the failing input).  The class [TrinoClient] defines
    none of [execute], [fetchone] and [fetchall].  So [main], which builds
    a [TrinoClient], ends with exit status 1 on every platform, and not one
    call has reached the SQL engine: when the library is there, the first
    statement already fails on the attribute lookup. *)
Theorem main_reaches_no_statement (P : platform) (w : world) :
  has_name "execute" TrinoClient.attributes = false
  /\ has_name "fetchone" TrinoClient.attributes = false
  /\ has_name "fetchall" TrinoClient.attributes = false
  /\ exists s' w',
       main P None w = (Exit 1, s', w')
       /\ events w' = events w
       /\ last (logs w') =
            Some (ERROR,
                  if installed P Trino
                  then "Script failed with error: 'TrinoClient' object has no attribute 'execute'"
                  else "Script failed with error: Trino library not installed. Run: pip install trino").
Proof.
  repeat (split; [reflexivity|]).
  unfold main, main_with, try_finally, try_except, TrinoClient.init.
  destruct (installed P Trino) eqn:E.
  - do 2 eexists. split; [reflexivity|]. split; [reflexivity|].
    simpl. rewrite last_snoc. reflexivity.
  - do 2 eexists. split; [reflexivity|]. split; [reflexivity|].
    simpl. rewrite last_snoc. reflexivity.
Qed.

(** ** Running external calls *)

Lemma external_run {St} P c (s : St) w :
  external P c s w =
    (match respond P (events w) c with inl v => Ret v | inr e => Raise e end,
     s, add_event c w).
Proof. unfold external. destruct (respond P (events w) c); reflexivity. Qed.

(** ** The object store client *)

Section MinIO.
Context (P : platform).

(** The property [client] either returns a handle or raises. *)
Lemma minio_client_no_exit : no_exit (MinIOClient.client P).
Proof. unfold MinIOClient.client. solve_no_exit. Qed.

(** C9.  [object_exists] always returns.  When the client can be
    obtained, [stat_object] is called and the answer is [True] exactly
    when that call returned; when it cannot, [stat_object] is not called
    and the answer is [False].  The other four operations differ: an
    exception from the client or from the underlying call is raised
    again to the caller. *)
Theorem object_exists_never_raises (object_name other : string)
    (bucket : option string) (self : MinIOClient.t) (w : world) :
  let b := MinIOClient.bucket_or_default P bucket in
  match MinIOClient.client P self w with
  | (Ret c, s1, w1) =>
      MinIOClient.object_exists P object_name bucket self w =
        (Ret (is_inl (respond P (events w1) (StatObject c b object_name))), s1,
         add_event (StatObject c b object_name) w1)
      /\ match respond P (events w1) (FputObject c b object_name other) with
         | inr e => (MinIOClient.upload_file P other object_name bucket self w).1.1 = Raise e
         | inl _ => (MinIOClient.upload_file P other object_name bucket self w).1.1 = Ret tt
         end
      /\ match respond P (events w1) (FgetObject c b object_name other) with
         | inr e => (MinIOClient.download_file P object_name other bucket self w).1.1 = Raise e
         | inl _ => (MinIOClient.download_file P object_name other bucket self w).1.1 = Ret tt
         end
      /\ match respond P (events w1) (ListObjects c b other) with
         | inr e => (MinIOClient.list_objects P other bucket self w).1.1 = Raise e
         | inl _ => True
         end
      /\ match respond P (events w1) (RemoveObject c b object_name) with
         | inr e => (MinIOClient.delete_object P object_name bucket self w).1.1 = Raise e
         | inl _ => (MinIOClient.delete_object P object_name bucket self w).1.1 = Ret tt
         end
  | (Raise e, s1, w1) =>
      MinIOClient.object_exists P object_name bucket self w = (Ret false, s1, w1)
      /\ (MinIOClient.upload_file P other object_name bucket self w).1.1 = Raise e
      /\ (MinIOClient.download_file P object_name other bucket self w).1.1 = Raise e
      /\ (MinIOClient.list_objects P other bucket self w).1.1 = Raise e
      /\ (MinIOClient.delete_object P object_name bucket self w).1.1 = Raise e
  | (Exit _, _, _) => False
  end.
Proof.
  intros b.
  unfold MinIOClient.object_exists, MinIOClient.upload_file, MinIOClient.download_file,
    MinIOClient.list_objects, MinIOClient.delete_object.
  fold b. unfold try_except, bind.
  pose proof (minio_client_no_exit self w) as Hne.
  destruct (MinIOClient.client P self w) as [[r s1] w1].
  destruct r as [c|e|k].
  - rewrite !external_run.
    repeat split.
    + destruct (respond P (events w1) (StatObject c b object_name)); reflexivity.
    + destruct (respond P (events w1) (FputObject c b object_name other)); reflexivity.
    + destruct (respond P (events w1) (FgetObject c b object_name other)); reflexivity.
    + destruct (respond P (events w1) (ListObjects c b other)); [exact I | reflexivity].
    + destruct (respond P (events w1) (RemoveObject c b object_name)); reflexivity.
  - repeat split.
  - apply (Hne k). reflexivity.
Qed.

End MinIO.

(** ** The client manager: closing *)

Section Closing.
Context (P : platform).

(** C7.  [close_all] always returns, and leaves all four fields [None].
    The only external calls it makes are [close] on the connection of the
    Trino client and on the connection of the PostgreSQL client, when the
    manager holds such a client and the client holds a connection;
    nothing is called for Redis or MinIO.  A failing [close] of a
    connection does not get out: the clients' own [close] catches it. *)
Theorem close_all_clears_every_client (self : ClientManager.t) (w : world) :
  exists w',
    ClientManager.close_all P self w = (Ret tt, no_clients, w')
    /\ events w' = events w ++ close_calls self
    /\ constructed w' = constructed w.
Proof.
  destruct self as [tr pg rd mn].
  unfold ClientManager.close_all, close_calls, no_clients.
  unfold bind, get, put, zoom, TrinoClient.close, PostgresClient.close,
    try_except, bind, get, put. simpl.
  destruct tr as [[ti [tc|]]|]; destruct pg as [[pi [pc|]]|];
    destruct rd as [rd|]; destruct mn as [mn|]; simpl;
    rewrite ?external_run; simpl;
    repeat match goal with
      | |- context [respond P ?evs ?c] => destruct (respond P evs c); simpl; rewrite ?external_run; simpl
      end;
    eexists; (split; [reflexivity|]); simpl; rewrite <- ?app_assoc, ?app_nil_r; split; reflexivity.
Qed.

End Closing.

(** ** The client manager: health check *)

Section Health.
Context (P : platform).

Lemma check_trino_no_exit : no_exit (ClientManager.check_trino P).
Proof.
  unfold ClientManager.check_trino, ClientManager.on_trino, ClientManager.trino,
    TrinoClient.init, TrinoClient.execute_query, TrinoClient.conn.
  solve_no_exit.
Qed.

Lemma check_postgres_no_exit : no_exit (ClientManager.check_postgres P).
Proof.
  unfold ClientManager.check_postgres, ClientManager.on_postgres, ClientManager.postgres,
    PostgresClient.init, PostgresClient.execute_query, PostgresClient.rollback,
    PostgresClient.conn.
  solve_no_exit.
Qed.

Lemma check_redis_no_exit : no_exit (ClientManager.check_redis P).
Proof.
  unfold ClientManager.check_redis, ClientManager.on_redis, ClientManager.redis,
    RedisClient.init, RedisClient.ping, RedisClient.client.
  solve_no_exit.
Qed.

Lemma check_minio_no_exit : no_exit (ClientManager.check_minio P).
Proof.
  unfold ClientManager.check_minio, ClientManager.on_minio, ClientManager.minio,
    MinIOClient.init, MinIOClient.bucket_exists, MinIOClient.client.
  solve_no_exit.
Qed.

(** One [try] of [health_check]: the entry is whether the probe
    returned, and a probe that raised leaves a warning. *)
Lemma probe_run (check : M ClientManager.t unit) (key name : string)
    (health : gmap string bool) s w r s1 w1 :
  no_exit check ->
  check s w = (r, s1, w1) ->
  try_except
    (check ;; ret (<[key := true]> health))
    (fun e =>
       log WARNING (name +:+ " health check failed: " +:+ exn_msg e) ;;
       ret (<[key := false]> health)) s w
  = (Ret (<[key := is_ret r]> health), s1, after_probe name r w1).
Proof.
  intros Hne Hrun. unfold try_except, bind. rewrite Hrun.
  destruct r as [[]|e|c]; try reflexivity.
  exfalso. apply (Hne s w c). rewrite Hrun. reflexivity.
Qed.


End Health.

(** ** The client manager: lazy construction *)

Section Lazy.
Context (P : platform).

Lemma built_app sv l1 l2 : built sv (l1 ++ l2) = built sv l1 ++ built sv l2.
Proof. unfold built. apply omap_app. Qed.

Lemma built_same sv i : built sv [(sv, i)] = [i].
Proof. unfold built, service_eqb. simpl. rewrite bool_decide_eq_true_2; reflexivity. Qed.

Lemma built_other sv sv' i : sv' <> sv -> built sv [(sv', i)] = [].
Proof.
  intros H. unfold built, service_eqb. simpl. rewrite bool_decide_eq_false_2; [reflexivity|].
  exact H.
Qed.

(** A property read when the field holds a client: the client is handed
    out and nothing changes. *)
Lemma access_cached sv s w i :
  cached s sv = Some i -> access P sv s w = (Ret i, s, w).
Proof.
  destruct s as [tr pg rd mn]; destruct sv; simpl;
    unfold access, ClientManager.trino, ClientManager.postgres, ClientManager.redis,
      ClientManager.minio, bind, get; simpl.
  - destruct tr as [c|]; simpl; [|discriminate]. intros [= <-]. reflexivity.
  - destruct pg as [c|]; simpl; [|discriminate]. intros [= <-]. reflexivity.
  - destruct rd as [c|]; simpl; [|discriminate]. intros [= <-]. reflexivity.
  - destruct mn as [c|]; simpl; [|discriminate]. intros [= <-]. reflexivity.
Qed.

(** A property read when the field is empty and the library is there: a
    client with a fresh identity is built and stored. *)
Lemma access_builds sv s w :
  cached s sv = None -> installed P sv = true ->
  exists s1 w1,
    access P sv s w = (Ret (next_id w), s1, w1)
    /\ cached s1 sv = Some (next_id w)
    /\ (forall sv', sv' <> sv -> cached s1 sv' = cached s sv')
    /\ constructed w1 = constructed w ++ [(sv, next_id w)].
Proof.
  intros Hc Hi.
  destruct s as [tr pg rd mn]; destruct sv; simpl in Hc;
    unfold access, ClientManager.trino, ClientManager.postgres, ClientManager.redis,
      ClientManager.minio, TrinoClient.init, PostgresClient.init, RedisClient.init,
      MinIOClient.init, bind, get; simpl.
  - destruct tr; [discriminate|]. rewrite Hi. simpl. do 2 eexists.
    split; [reflexivity|]. split; [reflexivity|]. split; [|reflexivity].
    intros [] H; try reflexivity; congruence.
  - destruct pg; [discriminate|]. rewrite Hi. simpl. do 2 eexists.
    split; [reflexivity|]. split; [reflexivity|]. split; [|reflexivity].
    intros [] H; try reflexivity; congruence.
  - destruct rd; [discriminate|]. rewrite Hi. simpl. do 2 eexists.
    split; [reflexivity|]. split; [reflexivity|]. split; [|reflexivity].
    intros [] H; try reflexivity; congruence.
  - destruct mn; [discriminate|]. rewrite Hi. simpl. do 2 eexists.
    split; [reflexivity|]. split; [reflexivity|]. split; [|reflexivity].
    intros [] H; try reflexivity; congruence.
Qed.

(** A property read when the field is empty and the library is missing:
    the constructor raises, and nothing is built or stored. *)
Lemma access_fails sv s w :
  cached s sv = None -> installed P sv = false ->
  exists e, access P sv s w = (Raise e, s, w).
Proof.
  intros Hc Hi.
  destruct s as [tr pg rd mn]; destruct sv; simpl in Hc;
    unfold access, ClientManager.trino, ClientManager.postgres, ClientManager.redis,
      ClientManager.minio, TrinoClient.init, PostgresClient.init, RedisClient.init,
      MinIOClient.init, bind, get; simpl.
  - destruct tr; [discriminate|]. rewrite Hi. eexists. reflexivity.
  - destruct pg; [discriminate|]. rewrite Hi. eexists. reflexivity.
  - destruct rd; [discriminate|]. rewrite Hi. eexists. reflexivity.
  - destruct mn; [discriminate|]. rewrite Hi. eexists. reflexivity.
Qed.

Lemma run_accesses_services ops : forall s w sv r,
  (sv, r) ∈ (run_accesses P ops s w).1.1 -> sv ∈ ops.
Proof.
  induction ops as [|op ops IH]; intros s w sv r; simpl.
  - intros H. apply elem_of_nil in H. contradiction.
  - destruct (access P op s w) as [[r0 s1] w1].
    specialize (IH s1 w1 sv r).
    destruct (run_accesses P ops s1 w1) as [[rs s2] w2]. simpl in *.
    intros H. apply elem_of_cons in H. destruct H as [H|H].
    + inversion H; subst. apply elem_of_cons. left. reflexivity.
    + apply elem_of_cons. right. apply IH. exact H.
Qed.

Lemma run_accesses_summary ops : forall s w,
  exists new,
    constructed (run_accesses P ops s w).2 = constructed w ++ new
    /\ forall sv, summary P sv ops s (run_accesses P ops s w).1.2 new
                          (run_accesses P ops s w).1.1.
Proof.
  induction ops as [|op ops IH]; intros s w.
  - exists []. simpl. split; [rewrite app_nil_r; reflexivity|].
    intros sv. unfold summary.
    split; [|split; [|split]].
    + intros i Hi. repeat split; auto.
      intros r Hr. apply elem_of_nil in Hr. contradiction.
    + auto.
    + intros _ Hin. apply elem_of_nil in Hin. contradiction.
    + intros _ Hin. apply elem_of_nil in Hin. contradiction.
  - simpl.
    destruct (access P op s w) as [[r0 s1] w1] eqn:Ea.
    destruct (IH s1 w1) as (new' & Hc' & Hs').
    pose proof (run_accesses_services ops s1 w1) as Hsv.
    destruct (run_accesses P ops s1 w1) as [[rs s2] w2] eqn:Er. simpl in *.
    destruct (cached s op) as [i|] eqn:Hop.
    + (* the client is already held *)
      rewrite (access_cached _ _ _ _ Hop) in Ea. inversion Ea; subst r0 s1 w1. clear Ea.
      exists new'. split; [exact Hc'|].
      intros sv. destruct (Hs' sv) as (S1 & S2 & S3 & S4).
      split; [|split; [|split]].
      * intros j Hj. destruct (S1 j Hj) as (B & C & R). repeat split; auto.
        intros r Hr. apply elem_of_cons in Hr. destruct Hr as [Hr|Hr]; [|auto].
        inversion Hr; subst. congruence.
      * intros Hn Hnot. apply not_elem_of_cons in Hnot. apply S2; tauto.
      * intros Hn Hin Hi. apply elem_of_cons in Hin.
        destruct Hin as [->|Hin]; [congruence|].
        destruct (S3 Hn Hin Hi) as (j & B & C & R). exists j. repeat split; auto.
        intros r Hr. apply elem_of_cons in Hr. destruct Hr as [Hr|Hr]; [|auto].
        inversion Hr; subst. congruence.
      * intros Hn Hin Hi. apply elem_of_cons in Hin.
        destruct Hin as [->|Hin]; [congruence|].
        destruct (S4 Hn Hin Hi) as (B & C & R). repeat split; auto.
        intros r Hr. apply elem_of_cons in Hr. destruct Hr as [Hr|Hr]; [|auto].
        inversion Hr; subst. congruence.
    + destruct (installed P op) eqn:Hinst.
      * (* the client is built now *)
        destruct (access_builds _ _ w Hop Hinst) as (s1' & w1' & Ea' & Hnew & Hoth & Hcon).
        rewrite Ea' in Ea. inversion Ea; subst r0 s1' w1'. clear Ea.
        exists ((op, next_id w) :: new'). split.
        { rewrite Hc', Hcon, <- app_assoc. reflexivity. }
        intros sv. destruct (Hs' sv) as (S1 & S2 & S3 & S4).
        change ((op, next_id w) :: new') with ([(op, next_id w)] ++ new').
        unfold summary. rewrite built_app.
        destruct (decide (sv = op)) as [->|Hne].
        -- rewrite built_same. destruct (S1 _ Hnew) as (B & C & R).
           split; [|split; [|split]].
           ++ intros j Hj. congruence.
           ++ intros _ Hnot. apply not_elem_of_cons in Hnot. tauto.
           ++ intros _ _ _. exists (next_id w). rewrite B. repeat split; auto.
              intros r Hr. apply elem_of_cons in Hr. destruct Hr as [Hr|Hr]; [|auto].
              inversion Hr; subst. reflexivity.
           ++ intros _ _ Hf. congruence.
        -- rewrite (built_other sv op _ (not_eq_sym Hne)). simpl.
           rewrite (Hoth sv Hne) in S1, S2, S3, S4.
           split; [|split; [|split]].
           ++ intros j Hj. destruct (S1 j Hj) as (B & C & R). repeat split; auto.
              intros r Hr. apply elem_of_cons in Hr. destruct Hr as [Hr|Hr]; [|auto].
              inversion Hr; subst. congruence.
           ++ intros Hn Hnot. apply not_elem_of_cons in Hnot. apply S2; tauto.
           ++ intros Hn Hin Hi. apply elem_of_cons in Hin.
              destruct Hin as [->|Hin]; [congruence|].
              destruct (S3 Hn Hin Hi) as (j & B & C & R). exists j. repeat split; auto.
              intros r Hr. apply elem_of_cons in Hr. destruct Hr as [Hr|Hr]; [|auto].
              inversion Hr; subst. congruence.
           ++ intros Hn Hin Hi. apply elem_of_cons in Hin.
              destruct Hin as [->|Hin]; [congruence|].
              destruct (S4 Hn Hin Hi) as (B & C & R). repeat split; auto.
              intros r Hr. apply elem_of_cons in Hr. destruct Hr as [Hr|Hr]; [|auto].
              inversion Hr; subst. congruence.
      * (* the constructor raises *)
        destruct (access_fails _ _ w Hop Hinst) as (e & Ea').
        rewrite Ea' in Ea. inversion Ea; subst r0 s1 w1. clear Ea.
        exists new'. split; [exact Hc'|].
        intros sv. destruct (Hs' sv) as (S1 & S2 & S3 & S4).
        split; [|split; [|split]].
        -- intros j Hj. destruct (S1 j Hj) as (B & C & R). repeat split; auto.
           intros r Hr. apply elem_of_cons in Hr. destruct Hr as [Hr|Hr]; [|auto].
           inversion Hr; subst. congruence.
        -- intros Hn Hnot. apply not_elem_of_cons in Hnot. apply S2; tauto.
        -- intros Hn Hin Hi. apply elem_of_cons in Hin.
           destruct Hin as [->|Hin]; [congruence|].
           destruct (S3 Hn Hin Hi) as (j & B & C & R). exists j. repeat split; auto.
           intros r Hr. apply elem_of_cons in Hr. destruct Hr as [Hr|Hr]; [|auto].
           inversion Hr; subst. congruence.
        -- intros Hn Hin Hi.
           destruct (decide (sv ∈ ops)) as [Hin'|Hnin].
           ++ destruct (S4 Hn Hin' Hi) as (B & C & R). repeat split; auto.
              intros r Hr. apply elem_of_cons in Hr. destruct Hr as [Hr|Hr]; [|auto].
              inversion Hr; subst. eauto.
           ++ destruct (S2 Hn Hnin) as (B & C). repeat split; auto.
              intros r Hr. apply elem_of_cons in Hr. destruct Hr as [Hr|Hr].
              ** inversion Hr; subst. eauto.
              ** exfalso. apply Hnin. eapply Hsv. exact Hr.
Qed.

(** C5.  Start from a manager that holds no client, as [ClientManager()]
    returns it and as [close_all] leaves it, and read the four properties
    in any order, any number of times.  Then for every service: at most
    one client is built; none is built as long as its property has not
    been read; all reads that return hand out the same object; and when
    the library is installed, the property's reads, the first included,
    all return the one client that was built, which the manager holds in
    its field. *)
Theorem clients_are_built_once (s0 : ClientManager.t) (w : world) (ops : list service) :
  (forall sv, cached s0 sv = None) ->
  let '(rs, s', w') := run_accesses P ops s0 w in
  exists new,
    constructed w' = constructed w ++ new
    /\ forall sv,
         (List.length (built sv new) <= 1)%nat
         /\ (sv ∉ ops -> built sv new = [])
         /\ (forall i j, (sv, Ret i) ∈ rs -> (sv, Ret j) ∈ rs -> i = j)
         /\ (sv ∈ ops -> installed P sv = true ->
             exists i, built sv new = [i] /\ cached s' sv = Some i
                       /\ forall r, (sv, r) ∈ rs -> r = Ret i).
Proof.
  intros Hempty.
  destruct (run_accesses_summary ops s0 w) as (new & Hc & Hs).
  pose proof (run_accesses_services ops s0 w) as Hsv.
  destruct (run_accesses P ops s0 w) as [[rs s'] w']. simpl in *.
  exists new. split; [exact Hc|].
  intros sv. destruct (Hs sv) as (S1 & S2 & S3 & S4).
  specialize (Hempty sv).
  split; [|split; [|split]].
  - destruct (decide (sv ∈ ops)) as [Hin|Hnin].
    + destruct (installed P sv) eqn:Hi.
      * destruct (S3 Hempty Hin eq_refl) as (i & B & _). rewrite B. simpl. lia.
      * destruct (S4 Hempty Hin eq_refl) as (B & _). rewrite B. simpl. lia.
    + destruct (S2 Hempty Hnin) as (B & _). rewrite B. simpl. lia.
  - intros Hnin. apply (S2 Hempty Hnin).
  - intros i j Hi Hj. pose proof (Hsv _ _ Hi) as Hin.
    destruct (installed P sv) eqn:Hinst.
    + destruct (S3 Hempty Hin eq_refl) as (k & _ & _ & R).
      pose proof (R _ Hi) as Ei. pose proof (R _ Hj) as Ej. congruence.
    + destruct (S4 Hempty Hin eq_refl) as (_ & _ & R).
      destruct (R _ Hi) as (e & He). discriminate.
  - intros Hin Hinst. apply (S3 Hempty Hin Hinst).
Qed.

End Lazy.

(** ** The PostgreSQL client: commit and rollback *)

Section Transactions.
Context (P : platform).

Lemma postgres_conn_no_exit : no_exit (PostgresClient.conn P).
Proof. unfold PostgresClient.conn. solve_no_exit. Qed.

(** Once the property [conn] has returned a connection, it is kept: a
    later read returns it and does nothing else. *)
Lemma postgres_conn_kept self w c s1 w1 :
  PostgresClient.conn P self w = (Ret c, s1, w1) ->
  forall w', PostgresClient.conn P s1 w' = (Ret c, s1, w').
Proof.
  unfold PostgresClient.conn, bind, get, try_except, external_new, bind, put, fresh_id.
  simpl. destruct (PostgresClient._conn self) as [c0|] eqn:E.
  - unfold ret. intros H w'. inversion H; subst. rewrite E. reflexivity.
  - rewrite external_run. destruct (respond P (events w) (Connect Postgres)); simpl.
    + rewrite external_run. simpl.
      destruct (respond P _ (SetAutocommit _)); simpl; unfold throw, ret;
        intros H w'; inversion H; subst; reflexivity.
    + unfold throw. intros H; inversion H.
Qed.

(** One step of running a client method by hand: use what is known
    about the connection, expose the next external call, and split on
    the platform's answer to it (or reuse the answer already chosen). *)
Ltac run_step Hk :=
  rewrite ?Hk, ?external_run; simpl; rewrite <- ?app_assoc; simpl;
  first
    [ match goal with
      | H : respond P ?evs ?x = _ |- context [respond P ?evs ?x] => rewrite H; simpl
      end
    | match goal with
      | |- context [respond P ?evs ?x] => destruct (respond P evs x) eqn:?; simpl
      end ].

(** C10, as amended.  Suppose the connection can be obtained.  Then
    [execute_insert] asks for a cursor, executes (one [executemany] for a
    list of tuples) and commits, stopping at the first call that raises;
    [commit] is called exactly when cursor and execution succeeded.  If
    one of these calls raised, [rollback] is called on the connection and
    the same exception is raised again, unless [rollback] itself raises.
    [execute_query] does the same with cursor, execution and fetch, and
    without commit.  Suppose, on the contrary, the connection cannot be
    obtained: then the handler tries to reach it once more; if that fails
    as well, that failure is raised and neither commit nor rollback is
    called. *)
Theorem postgres_rolls_back_once_connected (query : string) (params : insert_params)
    (qparams : option pyval) (self : PostgresClient.t) (w : world) :
  let ins := PostgresClient.execute_insert P query params self w in
  let qry := PostgresClient.execute_query P query qparams self w in
  match PostgresClient.conn P self w with
  | (Ret c, s1, w1) =>
      let cursor := NewCursor Postgres c in
      let execute := insert_call (next_id w1) query params in
      let isteps := [cursor; execute; ConnCommit c] in
      let qsteps := [cursor; CursorExecute Postgres (next_id w1) query qparams;
                     CursorFetchall Postgres (next_id w1)] in
      (ConnCommit c ∈ (attempt P (events w1) isteps VNone).1
         <-> is_inl (respond P (events w1) cursor)
             && is_inl (respond P (events w1 ++ [cursor]) execute) = true)
      /\ match attempt P (events w1) isteps VNone with
         | (done, inl _) =>
             ins.1.1 = Ret tt /\ events ins.2 = events w1 ++ done
         | (done, inr e) =>
             ins.1.1 = after_rollback P (events w1 ++ done) c e
             /\ events ins.2 = events w1 ++ done ++ [ConnRollback c]
         end
      /\ match attempt P (events w1) qsteps VNone with
         | (done, inl results) =>
             match py_len results with
             | inl _ => qry.1.1 = Ret results /\ events qry.2 = events w1 ++ done
             | inr e =>
                 qry.1.1 = after_rollback P (events w1 ++ done) c e
                 /\ events qry.2 = events w1 ++ done ++ [ConnRollback c]
             end
         | (done, inr e) =>
             qry.1.1 = after_rollback P (events w1 ++ done) c e
             /\ events qry.2 = events w1 ++ done ++ [ConnRollback c]
         end
  | (Raise e0, s1, w1) =>
      match PostgresClient.conn P s1
              (logged_error ("PostgreSQL insert execution failed: " +:+ exn_msg e0) w1) with
      | (Ret c, _, w2) =>
          ins.1.1 = after_rollback P (events w2) c e0
          /\ events ins.2 = events w2 ++ [ConnRollback c]
      | (Raise e1, _, w2) => ins.1.1 = Raise e1 /\ events ins.2 = events w2
      | (Exit _, _, _) => False
      end
      /\ match PostgresClient.conn P s1
                (logged_error ("PostgreSQL query execution failed: " +:+ exn_msg e0) w1) with
         | (Ret c, _, w2) =>
             qry.1.1 = after_rollback P (events w2) c e0
             /\ events qry.2 = events w2 ++ [ConnRollback c]
         | (Raise e1, _, w2) => qry.1.1 = Raise e1 /\ events qry.2 = events w2
         | (Exit _, _, _) => False
         end
  | (Exit _, _, _) => False
  end.
Proof.
  intros ins qry. subst ins qry.
  unfold PostgresClient.execute_insert, PostgresClient.execute_query,
    PostgresClient.rollback, PostgresClient.commit.
  pose proof (postgres_conn_no_exit self w) as Hne.
  destruct (PostgresClient.conn P self w) as [[r s1] w1] eqn:Ec.
  destruct r as [c|e0|k].
  - pose proof (postgres_conn_kept _ _ _ _ _ Ec) as Hk.
    cbv zeta. split; [|split].
    + simpl.
      destruct (respond P (events w1) (NewCursor Postgres c)) as [v1|e1]; simpl.
      * destruct (respond P (events w1 ++ [NewCursor Postgres c])
                    (insert_call (next_id w1) query params)) as [v2|e2]; simpl.
        -- split; [reflexivity|]. intros _.
           destruct (respond P _ (ConnCommit c)); simpl;
             do 2 apply list_elem_of_further; apply list_elem_of_here.
        -- split; [|discriminate]. intros H. exfalso.
           destruct params; simpl in H;
             repeat (apply elem_of_cons in H; destruct H as [H|H]; [discriminate|]);
             apply elem_of_nil in H; exact H.
      * split; [|discriminate]. intros H. exfalso.
        repeat (apply elem_of_cons in H; destruct H as [H|H]; [discriminate|]).
        apply elem_of_nil in H. exact H.
    + unfold try_except, bind. rewrite Ec.
      unfold external_new, bind, fresh_id, log, throw, ret, after_rollback.
      destruct params; simpl; repeat run_step Hk; simpl.
      all: split; [reflexivity | rewrite <- ?app_assoc; reflexivity].
    + unfold try_except, bind. rewrite Ec.
      unfold external_new, bind, fresh_id, log, throw, ret, after_rollback, lift_result.
      simpl; repeat run_step Hk; simpl.
      all: try (split; [reflexivity | rewrite <- ?app_assoc; reflexivity]).
      all: match goal with |- context [py_len ?v] => destruct (py_len v) end; simpl.
      all: unfold throw, ret; simpl; repeat run_step Hk; simpl.
      all: split; [reflexivity | rewrite <- ?app_assoc; reflexivity].
  - unfold try_except, bind. rewrite Ec.
    unfold log, throw, after_rollback, logged_error. simpl.
    split.
    + pose proof (postgres_conn_no_exit s1
        (World (events w1)
           (logs w1 ++ [(ERROR, "PostgreSQL insert execution failed: " +:+ exn_msg e0)])
           (console w1) (constructed w1) (next_id w1) (draws w1))) as Hne2.
      destruct (PostgresClient.conn P s1 _) as [[r2 s2] w2].
      destruct r2 as [c|e1|k]; simpl.
      * rewrite external_run. simpl.
        destruct (respond P (events w2) (ConnRollback c)); simpl; split; reflexivity.
      * split; reflexivity.
      * apply (Hne2 k). reflexivity.
    + pose proof (postgres_conn_no_exit s1
        (World (events w1)
           (logs w1 ++ [(ERROR, "PostgreSQL query execution failed: " +:+ exn_msg e0)])
           (console w1) (constructed w1) (next_id w1) (draws w1))) as Hne2.
      destruct (PostgresClient.conn P s1 _) as [[r2 s2] w2].
      destruct r2 as [c|e1|k]; simpl.
      * rewrite external_run. simpl.
        destruct (respond P (events w2) (ConnRollback c)); simpl; split; reflexivity.
      * split; reflexivity.
      * apply (Hne2 k). reflexivity.
  - apply (Hne k). reflexivity.
Qed.

End Transactions.

(** ** The analysis script *)

Section Quiet.
Context {St : Type}.

Lemma quiet_ret {A} (a : A) : quiet (@ret St A a).
Proof. intros s w. repeat split; discriminate. Qed.

Lemma quiet_throw {A} (e : exn) : quiet (@throw St A e).
Proof. intros s w. repeat split; discriminate. Qed.

Lemma quiet_log lv msg : quiet (@log St lv msg).
Proof. intros s w. repeat split; discriminate. Qed.

Lemma quiet_lift_result {A} (r : A + exn) : quiet (@lift_result St A r).
Proof. intros s w. destruct r; repeat split; discriminate. Qed.

Lemma quiet_bind {A B} (m : M St A) (k : A -> M St B) :
  quiet m -> (forall a, quiet (k a)) -> quiet (bind m k).
Proof.
  intros Hm Hk s w. unfold bind.
  destruct (Hm s w) as (Hs & He & Hc & Hx).
  destruct (m s w) as [[r s1] w1]. simpl in *. subst s1.
  destruct r as [a|e|c].
  - destruct (Hk a s w1) as (Hs' & He' & Hc' & Hx').
    split; [exact Hs'|]. split; [congruence|]. split; [congruence|]. exact Hx'.
  - split; [reflexivity|]. split; [exact He|]. split; [exact Hc|]. discriminate.
  - exfalso. apply (Hx c). reflexivity.
Qed.

Lemma quiet_for_each {A} (l : list A) (body : A -> M St unit) :
  (forall x, quiet (body x)) -> quiet (for_each l body).
Proof.
  intros Hb. induction l as [|x l IH]; simpl.
  - apply quiet_ret.
  - apply quiet_bind; [apply Hb | intros; exact IH].
Qed.

Lemma quiet_no_exit {A} (m : M St A) : quiet m -> no_exit m.
Proof. intros H s w. apply H. Qed.

End Quiet.

Lemma quiet_for_enumerate (rows : list pyval) (body : Z -> pyval -> M client unit) :
  (forall i r, quiet (body i r)) -> forall start, quiet (for_enumerate start rows body).
Proof.
  intros Hb. induction rows as [|r rows IH]; intros start; simpl.
  - apply quiet_ret.
  - apply quiet_bind; [apply Hb | intros; apply IH].
Qed.

Lemma quiet_field P r key : quiet (field P r key).
Proof.
  unfold field. apply quiet_bind; [apply quiet_lift_result | intros; apply quiet_ret].
Qed.

Lemma quiet_field_2f P r key : quiet (field_2f P r key).
Proof.
  unfold field_2f. apply quiet_bind; [apply quiet_lift_result | intros; apply quiet_lift_result].
Qed.

Create HintDb quiet.
#[export] Hint Resolve quiet_ret quiet_throw quiet_log quiet_lift_result quiet_field
  quiet_field_2f : quiet.

Ltac quiet_step :=
  first
    [ apply quiet_bind; [| intros ?]
    | apply quiet_for_each; intros ?
    | apply quiet_for_enumerate; intros ? ?
    | match goal with
      | |- quiet (match ?x with _ => _ end) => destruct x
      end ].

Ltac solve_quiet := repeat (first [ solve [auto with quiet] | quiet_step ]).

Section AnalysisProofs.
Context (P : platform).

(** A method the class [TrinoClient] lacks, or a method of any other
    object: the call returns or raises. *)
Lemma call_fetchone_no_exit args : no_exit (call_method P "fetchone" args).
Proof.
  unfold call_method. apply no_exit_bind; [apply no_exit_get|].
  intros [c|cls ms]; simpl.
  - apply no_exit_throw.
  - destruct (has_name "fetchone" ms); auto with noexit.
Qed.

Lemma call_fetchall_no_exit args : no_exit (call_method P "fetchall" args).
Proof.
  unfold call_method. apply no_exit_bind; [apply no_exit_get|].
  intros [c|cls ms]; simpl.
  - apply no_exit_throw.
  - destruct (has_name "fetchall" ms); auto with noexit.
Qed.

(** A method call on an object other than a [TrinoClient] that offers the
    method is one external call, and leaves the object as it is. *)
Lemma call_method_duck cls ms name args w :
  has_name name ms = true ->
  call_method P name args (DuckObject cls ms) w =
    (match respond P (events w) (Method name args) with
     | inl v => Ret v
     | inr e => Raise e
     end, DuckObject cls ms, add_event (Method name args) w).
Proof.
  intros H. unfold call_method, bind, get. simpl. rewrite H. apply external_run.
Qed.

(** A block that makes one method call and then only formats and logs. *)
Lemma block_duck {A} cls ms name q (rest : pyval -> M client A) w :
  has_name name ms = true ->
  (forall v, quiet (rest v)) ->
  (bind (call_method P name [q]) rest (DuckObject cls ms) w).1.2 = DuckObject cls ms
  /\ events (bind (call_method P name [q]) rest (DuckObject cls ms) w).2
     = events w ++ [Method name [q]].
Proof.
  intros H Hq. unfold bind. rewrite (call_method_duck _ _ _ _ _ H).
  destruct (respond P (events w) (Method name [q])) as [v|e]; simpl.
  - destruct (Hq v (DuckObject cls ms) (add_event (Method name [q]) w)) as (Hs & He & _).
    destruct (rest v _ _) as [[r s1] w1]. simpl in *. split; [exact Hs|exact He].
  - split; reflexivity.
Qed.

Lemma block_duck_run {A} cls ms name q (rest : pyval -> M client A) w r s1 w1 :
  has_name name ms = true ->
  (forall v, quiet (rest v)) ->
  bind (call_method P name [q]) rest (DuckObject cls ms) w = (r, s1, w1) ->
  s1 = DuckObject cls ms /\ events w1 = events w ++ [Method name [q]].
Proof.
  intros H Hq Hrun. destruct (block_duck cls ms name q rest w H Hq) as (Hs & He).
  rewrite Hrun in Hs, He. split; assumption.
Qed.

Lemma after_guard_events {A} what (r : outcome A) w :
  events (after_guard what r w) = events w.
Proof. destruct r; reflexivity. Qed.

Lemma block_no_exit {A} name q (rest : pyval -> M client A) :
  no_exit (call_method P name [q]) ->
  (forall v, quiet (rest v)) ->
  no_exit (bind (call_method P name [q]) rest).
Proof.
  intros H Hq. apply no_exit_bind; [exact H|]. intros v. apply quiet_no_exit, Hq.
Qed.

(** One [try] of [run_analysis_queries]: it returns, and an exception of
    the block leaves an error in the log. *)
Lemma guarded_run what (body : M client unit) s w r s1 w1 :
  no_exit body ->
  body s w = (r, s1, w1) ->
  guarded what body s w = (Ret tt, s1, after_guard what r w1).
Proof.
  intros Hne Hrun. unfold guarded, try_except. rewrite Hrun.
  destruct r as [[]|e|c]; try reflexivity.
  exfalso. apply (Hne s w c). rewrite Hrun. reflexivity.
Qed.

Lemma stats_block_no_exit full : no_exit (stats_block P full).
Proof.
  unfold stats_block. apply block_no_exit; [apply call_fetchone_no_exit|].
  intros v. solve_quiet.
Qed.

Lemma category_block_no_exit full : no_exit (category_block P full).
Proof.
  unfold category_block. apply block_no_exit; [apply call_fetchall_no_exit|].
  intros v. solve_quiet.
Qed.

Lemma regional_block_no_exit full : no_exit (regional_block P full).
Proof.
  unfold regional_block. apply block_no_exit; [apply call_fetchall_no_exit|].
  intros v. solve_quiet.
Qed.

Lemma monthly_block_no_exit full : no_exit (monthly_block P full).
Proof.
  unfold monthly_block. apply block_no_exit; [apply call_fetchall_no_exit|].
  intros v. solve_quiet.
Qed.

Lemma product_block_no_exit full : no_exit (product_block P full).
Proof.
  unfold product_block. apply block_no_exit; [apply call_fetchall_no_exit|].
  intros v. solve_quiet.
Qed.

Lemma customer_block_no_exit full : no_exit (customer_block P full).
Proof.
  unfold customer_block. apply block_no_exit; [apply call_fetchall_no_exit|].
  intros v. solve_quiet.
Qed.


End AnalysisProofs.

(** ** Batched insertion *)

Section Batching.
Context (P : platform).

(** [ceil_div] is the ceiling of the quotient. *)
Lemma ceil_div_bounds n b :
  (0 < b)%Z -> (0 <= n)%Z ->
  (0 <= ceil_div n b /\ n <= ceil_div n b * b /\ (ceil_div n b - 1) * b < n
   \/ n = 0 /\ ceil_div n b = 0)%Z.
Proof.
  intros Hb Hn. unfold ceil_div.
  destruct (Z.eq_dec n 0%Z) as [->|Hne].
  - right. split; [reflexivity|]. apply Z.div_small. lia.
  - left. pose proof (Z.div_mod (n + b - 1) b ltac:(lia)) as Hdm.
    pose proof (Z.mod_pos_bound (n + b - 1) b Hb) as Hmod.
    assert (0 <= (n + b - 1) / b)%Z by (apply Z.div_pos; lia).
    nia.
Qed.

Lemma ceil_div_step x b :
  (0 < b)%Z -> ceil_div x b = (1 + ceil_div (x - b) b)%Z.
Proof.
  intros Hb. unfold ceil_div.
  replace (x + b - 1)%Z with ((x - b + b - 1) + 1 * b)%Z by lia.
  rewrite Z.div_add by lia. lia.
Qed.

Lemma ceil_div_nonpos x b : (0 < b)%Z -> (x <= 0)%Z -> (ceil_div x b <= 0)%Z.
Proof.
  intros Hb Hx. unfold ceil_div.
  assert ((x + b - 1) / b < 1)%Z; [|lia].
  apply Z.div_lt_upper_bound; lia.
Qed.

(** [range(i, stop, step)] with a positive step: the values
    [i + k * step] for [k] below the ceiling of [(stop - i) / step]. *)
Lemma range_from_pos fuel : forall i stop step,
  (0 < step)%Z -> (stop - i <= Z.of_nat fuel)%Z ->
  range_from fuel i stop step =
    map (fun k => i + Z.of_nat k * step)%Z (seq 0 (Z.to_nat (ceil_div (stop - i) step))).
Proof.
  induction fuel as [|fuel IH]; intros i stop step Hs Hf.
  - simpl. pose proof (ceil_div_nonpos (stop - i) step Hs ltac:(lia)).
    replace (Z.to_nat (ceil_div (stop - i) step)) with O by lia. reflexivity.
  - simpl. destruct (Z.ltb_spec 0 step) as [_|]; [|lia]. simpl.
    destruct (Z.ltb_spec i stop) as [Hlt|Hge]; simpl.
    + rewrite (IH (i + step)%Z stop step Hs) by lia.
      rewrite (ceil_div_step (stop - i) step Hs).
      replace (stop - i - step)%Z with (stop - (i + step))%Z by lia.
      assert (0 <= ceil_div (stop - (i + step)) step)%Z.
      { unfold ceil_div. apply Z.div_pos; lia. }
      replace (Z.to_nat (1 + ceil_div (stop - (i + step)) step))
        with (S (Z.to_nat (ceil_div (stop - (i + step)) step))) by lia.
      simpl. f_equal; [lia|].
      rewrite <- seq_shift, map_map. apply map_ext. intros k. lia.
    + destruct (Z.ltb_spec step 0); [lia|]. simpl.
      pose proof (ceil_div_nonpos (stop - i) step Hs ltac:(lia)).
      replace (Z.to_nat (ceil_div (stop - i) step)) with O by lia. reflexivity.
Qed.

Lemma py_range_pos n b :
  (0 < b)%Z -> (0 <= n)%Z ->
  py_range 0 n b = map (fun k => Z.of_nat k * b)%Z (seq 0 (Z.to_nat (ceil_div n b))).
Proof.
  intros Hb Hn. unfold py_range. rewrite range_from_pos by lia.
  replace (n - 0)%Z with n by lia. apply map_ext. intros k. lia.
Qed.

(** The slice the loop takes at a start inside the frame is the batch's
    rows. *)
Lemma py_slice_rows (df : list row) i b :
  (0 < b)%Z -> (0 <= i <= Z.of_nat (List.length df))%Z ->
  py_slice df i (i + b) = rows_between df i (Z.min (i + b) (Z.of_nat (List.length df))).
Proof.
  intros Hb Hi. unfold py_slice, rows_between.
  destruct (Z.ltb_spec i 0); [lia|]. destruct (Z.ltb_spec (i + b) 0); [lia|].
  f_equal; [lia|]. f_equal. lia.
Qed.

(** One turn of the loop, with a client that offers [execute] and a
    platform that accepts it: one INSERT is sent and the turn returns. *)
Lemma insert_one_batch_accepted df t s b total i cls ms w :
  has_name "execute" ms = true ->
  accepts P "execute" ->
  exists w',
    insert_one_batch P df t s b total i (DuckObject cls ms) w
      = (Ret tt, DuckObject cls ms, w')
    /\ events w' = events w ++ [Method "execute" [insert_sql P t s (py_slice df i (i + b))]].
Proof.
  intros Hm Hacc. unfold insert_one_batch, try_except, bind, log.
  rewrite (call_method_duck P _ _ _ _ _ Hm). simpl.
  specialize (Hacc (events w) [insert_sql P t s (py_slice df i (i + b))]).
  destruct (respond P (events w) _) as [v|e]; [|discriminate].
  eexists. split; reflexivity.
Qed.

Lemma for_each_sends {St A} (body : A -> M St unit) (f : A -> call) (s : St) :
  (forall x w, exists w', body x s w = (Ret tt, s, w') /\ events w' = events w ++ [f x]) ->
  forall l w, exists w',
    for_each l body s w = (Ret tt, s, w') /\ events w' = events w ++ map f l.
Proof.
  intros Hb. induction l as [|x l IH]; intros w; simpl.
  - exists w. split; [reflexivity|]. rewrite app_nil_r. reflexivity.
  - destruct (Hb x w) as (w1 & H1 & E1). destruct (IH w1) as (w2 & H2 & E2).
    exists w2. unfold bind. rewrite H1. split; [exact H2|].
    rewrite E2, E1, <- app_assoc. reflexivity.
Qed.

Lemma batch_numbers_succ c :
  batch_numbers (Z.of_nat (S c)) = batch_numbers (Z.of_nat c) ++ [(Z.of_nat c + 1)%Z].
Proof.
  unfold batch_numbers. rewrite !Nat2Z.id, seq_S, map_app. reflexivity.
Qed.

(** The first [c] batches, one after the other, are the first
    [min (c * b) n] rows. *)
Lemma batches_concat (df : list row) b c :
  (0 < b)%Z ->
  concat (map (batch df b) (batch_numbers (Z.of_nat c)))
    = take (Z.to_nat (Z.min (Z.of_nat c * b) (Z.of_nat (List.length df)))) df.
Proof.
  intros Hb. induction c as [|c IH].
  - simpl. replace (Z.to_nat (Z.min 0 _)) with O by lia. reflexivity.
  - rewrite batch_numbers_succ, map_app, concat_app, IH. simpl. rewrite app_nil_r.
    unfold batch, rows_between.
    set (n := Z.of_nat (List.length df)).
    replace ((Z.of_nat c + 1) * b - b)%Z with (Z.of_nat c * b)%Z by lia.
    replace (Z.of_nat (S c) * b)%Z with ((Z.of_nat c + 1) * b)%Z by lia.
    destruct (Z.le_gt_cases n (Z.of_nat c * b)) as [Hge|Hlt].
    + replace (Z.to_nat (Z.min ((Z.of_nat c + 1) * b) n - Z.of_nat c * b)) with O by lia.
      simpl. rewrite app_nil_r. f_equal. lia.
    + replace (Z.to_nat (Z.min (Z.of_nat c * b) n)) with (Z.to_nat (Z.of_nat c * b)) by lia.
      rewrite take_take_drop. f_equal. lia.
Qed.


End Batching.

(** ** Sample data *)

Lemma round_half_even_bounds p q lo hi :
  (0 < q)%Z -> (lo * q <= p)%Z -> (p <= hi * q)%Z ->
  (lo <= round_half_even p q <= hi)%Z.
Proof.
  intros Hq Hlo Hhi. unfold round_half_even.
  assert (Hdm : (p = q * (p / q) + p mod q)%Z) by (apply Z.div_mod; lia).
  pose proof (Z.mod_pos_bound p q Hq) as Hmod.
  assert (Hd1 : (lo <= p / q)%Z) by (apply Z.div_le_lower_bound; lia).
  assert (Hd2 : (p / q <= hi)%Z) by (apply Z.div_le_upper_bound; lia).
  assert (Hup : (0 < p mod q -> p / q + 1 <= hi)%Z).
  { intros Hr. assert (p / q < hi)%Z as Hlt; [|clear - Hlt; lia].
    apply (Z.mul_lt_mono_pos_l q); [exact Hq|].
    generalize dependent (p / q)%Z. generalize dependent (p mod q)%Z.
    intros r Hr1 Hr2 d Hd1 Hd2 Hdm. lia. }
  generalize dependent (p / q)%Z. generalize dependent (p mod q)%Z.
  intros r Hr d Hdm Hd1 Hd2 Hup.
  destruct (Z.compare_spec (2 * r) q) as [Heq|Hlt|Hgt].
  - destruct (Z.even d); lia.
  - lia.
  - lia.
Qed.

(** The number nearest to an amount in hundredths between 1000 and 100000
    lies between 10 and 1000: rounding the significand keeps it between
    the significands of 10 and 1000, which are integers. *)
Lemma nearest_hundredths_between c :
  (1000 <= c <= 100000)%Z -> float_between 10 1000 (nearest_binary64 c 100) = true.
Proof.
  intros Hc. unfold nearest_binary64.
  destruct (Z.compare_spec c 0) as [H|H|H]; [lia|lia|].
  unfold nearest_positive.
  assert (Hl1 : (0 <= Z.log2 c)%Z) by apply Z.log2_nonneg.
  assert (Hl2 : (Z.log2 c <= 16)%Z).
  { change 16%Z with (Z.log2 100000). apply Z.log2_le_mono. lia. }
  change (Z.log2 100) with 6%Z.
  assert (Hbounds : forall e, (e < 0)%Z ->
            float_between 10 1000 (B64 (scaled_quotient c 100 e) e) = true).
  { intros e He. unfold float_between, scaled_quotient. simpl.
    destruct (Z.leb_spec 0 e); [lia|].
    assert (Hq : (0 < 2 ^ (- e))%Z) by (apply Z.pow_pos_nonneg; lia).
    pose proof (round_half_even_bounds (c * 2 ^ (- e)) 100
                  (10 * 2 ^ (- e)) (1000 * 2 ^ (- e)) ltac:(lia)) as Hb.
    destruct Hb as [Hb1 Hb2].
    - replace (10 * 2 ^ (- e) * 100)%Z with (1000 * 2 ^ (- e))%Z by ring.
      apply Z.mul_le_mono_nonneg_r; lia.
    - replace (1000 * 2 ^ (- e) * 100)%Z with (100000 * 2 ^ (- e))%Z by ring.
      apply Z.mul_le_mono_nonneg_r; lia.
    - apply andb_true_intro. split; apply Z.leb_le; assumption. }
  destruct (2 ^ 53 <=? scaled_quotient c 100 (Z.log2 c - 6 - 53))%Z;
    apply Hbounds; lia.
Qed.

(** Rounding to two decimals keeps a float between 10 and 1000 there. *)
Lemma py_round2_between u :
  float_between 10 1000 u = true -> float_between 10 1000 (py_round2 u) = true.
Proof.
  intros H. unfold py_round2. unfold float_between in H.
  destruct u as [m e]. simpl in *.
  destruct (Z.leb_spec 0 e) as [He|He].
  - unfold float_between. simpl. destruct (Z.leb_spec 0 e); [exact H|lia].
  - assert (Hq : (0 < 2 ^ (- e))%Z) by (apply Z.pow_pos_nonneg; lia).
    apply andb_prop in H. destruct H as [H1 H2].
    apply Z.leb_le in H1. apply Z.leb_le in H2.
    assert (Hm : (0 < m)%Z) by lia.
    rewrite Z.abs_eq by lia. rewrite Z.sgn_pos by exact Hm. rewrite Z.mul_1_l.
    apply nearest_hundredths_between.
    apply round_half_even_bounds; lia.
Qed.

Section Generation.
Context (P : platform).
Hypothesis contract : random_contract P.

(** [random.choice] on a list that is not empty returns one of its
    elements. *)
Lemma random_choice_member {St} (seq : list string) (s : St) (w : world) :
  (0 < List.length seq)%nat ->
  exists x w', random_choice P seq s w = (Ret x, s, w') /\ x ∈ seq.
Proof.
  intros Hlen. destruct contract as (Hc & _ & _).
  unfold random_choice, bind, next_draw. simpl.
  specialize (Hc (draws w) (List.length seq) Hlen).
  destruct (nth_error seq (rand_choice P (draws w) (List.length seq))) as [x|] eqn:E.
  - exists x. eexists. split; [reflexivity|].
    apply list_elem_of_In. eapply nth_error_In. exact E.
  - apply nth_error_None in E. lia.
Qed.

(** The world after one value was taken from [random]. *)
Lemma random_randint_run {St} a b (s : St) (w : world) :
  random_randint P a b s w =
    (Ret (rand_int P (draws w) a b), s,
     World (events w) (logs w) (console w) (constructed w) (next_id w) (S (draws w))).
Proof. reflexivity. Qed.

Lemma random_uniform_run {St} a b (s : St) (w : world) :
  random_uniform P a b s w =
    (Ret (rand_uniform P (draws w) a b), s,
     World (events w) (logs w) (console w) (constructed w) (next_id w) (S (draws w))).
Proof. reflexivity. Qed.

(** What one generated record looks like, for the loop index [i]. *)
Lemma make_record_row {St} base i (s : St) (w : world) :
  exists r w',
    make_record P base i s w = (Ret r, s, w')
    /\ total_amount r = py_round2 (float_mul (float_of_Z (quantity r)) (unit_price r))
    /\ (1 <= quantity r <= 10)%Z
    /\ float_between 10 1000 (unit_price r) = true
    /\ product_name r ∈ products
    /\ category r ∈ categories
    /\ region r ∈ regions
    /\ order_id r = "ORD-" +:+ zero_pad 6 (i + 1).
Proof.
  unfold make_record.
  destruct (random_choice_member products s w ltac:(simpl; lia)) as (p & w1 & E1 & Hp).
  rewrite (bind_run _ _ _ _ _ _ _ E1). cbv beta iota.
  destruct (random_choice_member categories s w1 ltac:(simpl; lia)) as (c & w2 & E2 & Hc).
  rewrite (bind_run _ _ _ _ _ _ _ E2). cbv beta iota.
  rewrite (bind_run _ _ _ _ _ _ _ (random_randint_run 1 10 s w2)). cbv beta iota.
  rewrite (bind_run _ _ _ _ _ _ _ (random_uniform_run (B64 10 0) (B64 1000 0) s _)). cbv beta iota.
  match goal with
  | |- context [bind (random_choice P regions) _ s ?w3] =>
      destruct (random_choice_member regions s w3 ltac:(simpl; lia)) as (g & w4 & E4 & Hg)
  end.
  rewrite (bind_run _ _ _ _ _ _ _ E4). cbv beta iota.
  rewrite (bind_run _ _ _ _ _ _ _ (random_randint_run 0 365 s w4)). cbv beta iota.
  rewrite (bind_run _ _ _ _ _ _ _ (random_randint_run 1 1000 s _)). cbv beta iota.
  do 2 eexists. split; [reflexivity|]. simpl.
  destruct contract as (_ & Hi & Hu).
  split; [reflexivity|]. split; [apply Hi; lia|].
  split; [apply py_round2_between, Hu|].
  repeat split; assumption.
Qed.

Lemma map_m_records {St} base (l : list Z) : forall (s : St) (w : world),
  exists df w',
    map_m (make_record P base) l s w = (Ret df, s, w')
    /\ List.length df = List.length l
    /\ forall k r, df !! k = Some r ->
         exists i, l !! k = Some i
         /\ total_amount r = py_round2 (float_mul (float_of_Z (quantity r)) (unit_price r))
         /\ (1 <= quantity r <= 10)%Z
         /\ float_between 10 1000 (unit_price r) = true
         /\ product_name r ∈ products
         /\ category r ∈ categories
         /\ region r ∈ regions
         /\ order_id r = "ORD-" +:+ zero_pad 6 (i + 1).
Proof.
  induction l as [|i l IH]; intros s w.
  - exists [], w. simpl. split; [reflexivity|]. split; [reflexivity|].
    intros k r Hk. rewrite lookup_nil in Hk. discriminate.
  - destruct (make_record_row base i s w) as (r0 & w1 & E1 & Hr0).
    destruct (IH s w1) as (df & w2 & E2 & Hlen & Hrows).
    exists (r0 :: df), w2. simpl. unfold bind. rewrite E1, E2.
    split; [reflexivity|]. split; [simpl; lia|].
    intros [|k] r Hk; simpl in Hk.
    + inversion Hk; subst r. exists i. split; [reflexivity|]. exact Hr0.
    + apply Hrows. exact Hk.
Qed.

(** C4, as amended.  If [random] keeps to its documentation, then for
    every [n >= 0] the generator returns a frame of exactly [n] rows, and
    in each row: [total_amount] is [quantity * unit_price] computed in
    binary floating point and then rounded to two decimals; [quantity] is
    an integer from 1 to 10; [unit_price] lies between 10 and 1000;
    [product_name], [category] and [region] come from the fixed lists; and
    [order_id] is ORD- followed by the row's position, counted from 1 and
    padded with zeros to six digits. *)
Theorem generate_sample_data_rows {St : Type} (num_records : Z) (s : St) (w : world) :
  (0 <= num_records)%Z ->
  exists df w',
    generate_sample_data P num_records s w = (Ret df, s, w')
    /\ List.length df = Z.to_nat num_records
    /\ forall k r, df !! k = Some r ->
         total_amount r = py_round2 (float_mul (float_of_Z (quantity r)) (unit_price r))
         /\ (1 <= quantity r <= 10)%Z
         /\ float_between 10 1000 (unit_price r) = true
         /\ product_name r ∈ products
         /\ category r ∈ categories
         /\ region r ∈ regions
         /\ order_id r = "ORD-" +:+ zero_pad 6 (Z.of_nat k + 1).
Proof.
  intros Hn. unfold generate_sample_data.
  destruct (map_m_records (add_days (now P) (-365)) (py_range 0 num_records 1) s
              (logged INFO ("Generating " +:+ str_int num_records +:+ " sample records") w))
    as (df & w1 & E & Hlen & Hrows).
  exists df. eexists. unfold logged in E. unfold bind, log, ret. rewrite E.
  split; [reflexivity|].
  assert (Hrange : py_range 0 num_records 1
                   = map (fun k => Z.of_nat k) (seq 0 (Z.to_nat num_records))).
  { unfold py_range. rewrite range_from_pos by lia.
    replace (ceil_div (num_records - 0) 1) with num_records
      by (unfold ceil_div; rewrite Z.div_1_r; lia).
    apply map_ext. intros k. lia. }
  rewrite Hrange in Hlen, Hrows. rewrite length_map, length_seq in Hlen.
  split; [exact Hlen|].
  intros k r Hk. destruct (Hrows k r Hk) as (i & Hi & H).
  rewrite list_lookup_fmap in Hi.
  destruct (seq 0 (Z.to_nat num_records) !! k) as [j|] eqn:Ej; [|discriminate].
  apply lookup_seq in Ej. destruct Ej as [-> _]. simpl in Hi.
  inversion Hi; subst i. exact H.
Qed.

End Generation.

(** * The statements on concrete runs *)


(** Three records from a source of randomness that keeps its contract. *)
Lemma generate_sample_data_rows_witness :
  exists df w',
    generate_sample_data all_up 3 tt world0 = (Ret df, tt, w')
    /\ List.length df = 3%nat.
Proof.
  assert (Hc : random_contract all_up).
  { split; [|split].
    - intros k n Hn. exact Hn.
    - intros k a b Hab. simpl. lia.
    - intros k. vm_compute. reflexivity. }
  destruct (generate_sample_data_rows all_up Hc 3 tt world0) as (df & w' & E & L & _).
  - lia.
  - exists df, w'. split; [exact E | exact L].
Defined.

(** Reading [trino] twice and [redis] once from a fresh manager builds
    one Trino client, and both reads return it. *)
Lemma clients_are_built_once_witness :
  exists i,
    built Trino (constructed (run_accesses all_up [Trino; Trino; Redis] no_clients world0).2)
      = [i]
    /\ (run_accesses all_up [Trino; Trino; Redis] no_clients world0).1.1
       = [(Trino, Ret i); (Trino, Ret i); (Redis, Ret 1%nat)].
Proof.
  pose proof (clients_are_built_once all_up no_clients world0 [Trino; Trino; Redis]) as H.
  simpl in H.
  destruct H as (new & Hc & Hall).
  - intros sv. destruct sv; reflexivity.
  - destruct (Hall Trino) as (_ & _ & _ & Hd).
    destruct Hd as (i & Hb & Hcached & Hr).
    + apply list_elem_of_here.
    + reflexivity.
    + exists i. simpl. rewrite <- Hc in Hb. split; [exact Hb|].
      inversion Hcached. reflexivity.
Defined.


(** With a mock that offers every method, [main] sends CREATE SCHEMA,
    CREATE TABLE, the ten INSERT statements for its 2000 rows, then the
    count, the sample and the aggregation, and closes the client. *)
Lemma main_with_mock_sends_statements_in_order :
  (main_with mock_platform (ret mock_client) None world0).1.1 = Ret tt
  /\ events (main_with mock_platform (ret mock_client) None world0).2
     = [Method "execute" ["CREATE SCHEMA IF NOT EXISTS iceberg.sales"];
        Method "execute" [create_table_sql "ecommerce_orders" "sales"]]
       ++ map (fun k => Method "execute"
                          [insert_sql mock_platform "ecommerce_orders" "sales"
                             (batch mock_data 200 k)])
              (batch_numbers 10)
       ++ [Method "fetchone" [count_sql "ecommerce_orders" "sales"];
           Method "fetchall" [sample_sql "ecommerce_orders" "sales"];
           Method "fetchall" [agg_sql "ecommerce_orders" "sales"];
           Method "close" []].
Proof. vm_compute. split; reflexivity. Qed.

(** A refused INSERT ends the loop: the first statement is the only one
    sent, and the exception reaches the caller. *)
Lemma insert_data_batch_stops_at_refusal :
  (insert_data_batch rejects_execute five_rows "test_table" "default" 2 mock_client world0).1.1
    = Raise (Exn "TrinoUserError" "insert failed")
  /\ events (insert_data_batch rejects_execute five_rows "test_table" "default" 2
               mock_client world0).2
     = [Method "execute"
          [insert_sql rejects_execute "test_table" "default" (map sample_row [1; 2]%Z)]].
Proof. vm_compute. split; reflexivity. Qed.

(** The health report when every service answers, and when none of the
    client libraries could be imported: all four entries are there in
    both cases. *)
Lemma health_check_on_sample_platforms :
  match (ClientManager.health_check all_up no_clients world0).1.1 with
  | Ret h => map (fun k => h !! k) health_keys = [Some true; Some true; Some true; Some true]
  | _ => False
  end
  /\ match (ClientManager.health_check nothing_installed no_clients world0).1.1 with
     | Ret h =>
         map (fun k => h !! k) health_keys = [Some false; Some false; Some false; Some false]
     | _ => False
     end
  /\ match (ClientManager.health_check all_down no_clients world0).1.1 with
     | Ret h =>
         map (fun k => h !! k) health_keys = [Some false; Some false; Some false; Some false]
     | _ => False
     end.
Proof. vm_compute. repeat split. Qed.

(** ** Where the code departs from the claims *)

(** C4, as stated, fails: with a quantity of 3 and a unit price of 10.1
    the stored total is 30.3, which is not the floating-point product
    [3 * 10.1]. *)
Lemma total_amount_is_not_the_product :
  random_contract three_at_ten_point_one
  /\ exists r,
       (generate_sample_data three_at_ten_point_one 1 tt world0).1.1 = Ret [r]
       /\ quantity r = 3%Z
       /\ unit_price r = nearest_binary64 1010 100
       /\ total_amount r = nearest_binary64 3030 100
       /\ float_eqb (total_amount r)
            (float_mul (float_of_Z (quantity r)) (unit_price r)) = false.
Proof.
  split.
  - split; [|split].
    + intros k n Hn. exact Hn.
    + intros k a b Hab. simpl.
      destruct (Z.eqb_spec a 1); destruct (Z.leb_spec 3 b); simpl; lia.
    + intros k. vm_compute. reflexivity.
  - eexists. split; [vm_compute; reflexivity|].
    vm_compute. repeat split.
Qed.

(** The arithmetic of the model gives what the machine's binary64
    arithmetic gives on these numbers: the draw of [uniform], the float
    nearest to 10.1, three times it, and the float nearest to 30.3. *)
Lemma binary64_agrees_with_the_machine :
  to_primitive (B64 5685794529555221 (-49))
    = PrimFloat.add 10 (PrimFloat.mul 990 (PrimFloat.div 909818106539 9007199254740992))
  /\ to_primitive (nearest_binary64 1010 100) = PrimFloat.div 101 10
  /\ to_primitive (float_mul (float_of_Z 3) (nearest_binary64 1010 100))
     = PrimFloat.mul 3 (PrimFloat.div 101 10)
  /\ to_primitive (nearest_binary64 3030 100) = PrimFloat.div 303 10
  /\ PrimFloat.eqb (PrimFloat.div 303 10) (PrimFloat.mul 3 (PrimFloat.div 101 10)) = false.
Proof. vm_compute. repeat split. Qed.

(** C10, as stated, fails: when the database cannot be reached,
    [execute_insert] and [execute_query] raise without any rollback; the
    only calls made are the two attempts to connect. *)
Lemma no_rollback_without_connection :
  (unreachable_insert).1.1 = Raise (Exn "ConnectionError" "connection refused")
  /\ events (unreachable_insert).2 = [Connect Postgres; Connect Postgres]
  /\ (unreachable_query).1.1 = Raise (Exn "ConnectionError" "connection refused")
  /\ events (unreachable_query).2 = [Connect Postgres; Connect Postgres]
  /\ ~ (exists c, ConnRollback c ∈ events (unreachable_insert).2 ++ events (unreachable_query).2).
Proof.
  vm_compute. repeat split.
  intros (c & Hc).
  repeat (apply elem_of_cons in Hc; destruct Hc as [Hc|Hc]; [discriminate|]).
  apply elem_of_nil in Hc. exact Hc.
Qed.

(** * Further properties of the code *)

(** ** Calls made in sequence *)

Lemma attempt_last P calls : forall evs v v',
  (attempt P evs calls v).1 = (attempt P evs calls v').1
  /\ is_inl (attempt P evs calls v).2 = is_inl (attempt P evs calls v').2.
Proof.
  destruct calls as [|c rest]; intros evs v v'; simpl.
  - split; reflexivity.
  - destruct (respond P evs c); split; reflexivity.
Qed.

Lemma attempt_prefix P calls : forall evs v, (attempt P evs calls v).1 `prefix_of` calls.
Proof.
  induction calls as [|c rest IH]; intros evs v; simpl.
  - reflexivity.
  - destruct (respond P evs c); simpl.
    + apply prefix_cons, IH.
    + apply prefix_cons, prefix_nil.
Qed.

Lemma attempt_all P calls : forall evs v,
  is_inl (attempt P evs calls v).2 = true -> (attempt P evs calls v).1 = calls.
Proof.
  induction calls as [|c rest IH]; intros evs v; simpl.
  - reflexivity.
  - destruct (respond P evs c); simpl.
    + intros H. f_equal. apply IH, H.
    + discriminate.
Qed.

Lemma attempt_app_ok P l1 l2 : forall evs v v',
  is_inl (attempt P evs l1 v).2 = true ->
  (attempt P evs (l1 ++ l2) v).1 = l1 ++ (attempt P (evs ++ l1) l2 v').1
  /\ is_inl (attempt P evs (l1 ++ l2) v).2 = is_inl (attempt P (evs ++ l1) l2 v').2.
Proof.
  induction l1 as [|c rest IH]; intros evs v v'; simpl.
  - intros _. rewrite app_nil_r. apply attempt_last.
  - destruct (respond P evs c); simpl; [|discriminate].
    intros H. destruct (IH (evs ++ [c]) p v' H) as (H1 & H2).
    rewrite <- app_assoc in H1, H2. simpl in H1, H2. rewrite H1, H2. split; reflexivity.
Qed.

Lemma attempt_app_failed P l1 l2 : forall evs v,
  is_inl (attempt P evs l1 v).2 = false ->
  attempt P evs (l1 ++ l2) v = attempt P evs l1 v.
Proof.
  induction l1 as [|c rest IH]; intros evs v; simpl.
  - discriminate.
  - destruct (respond P evs c); simpl; [|reflexivity].
    intros H. rewrite (IH _ _ H). reflexivity.
Qed.

Lemma attempt_app_prefix P l1 l2 evs v :
  (attempt P evs l1 v).1 `prefix_of` (attempt P evs (l1 ++ l2) v).1.
Proof.
  destruct (is_inl (attempt P evs l1 v).2) eqn:E.
  - destruct (attempt_app_ok P l1 l2 evs v VNone E) as (H & _). rewrite H.
    rewrite (attempt_all _ _ _ _ E). apply prefix_app_r. reflexivity.
  - rewrite (attempt_app_failed _ _ _ _ _ E). reflexivity.
Qed.

Lemma attempt_app_result P l1 l2 : forall evs v v1,
  (attempt P evs l1 v).2 = inl v1 ->
  (attempt P evs (l1 ++ l2) v).2 = (attempt P (evs ++ l1) l2 v1).2.
Proof.
  induction l1 as [|c rest IH]; intros evs v v1; simpl.
  - intros H. inversion H; subst. rewrite app_nil_r. reflexivity.
  - destruct (respond P evs c); simpl; [|discriminate].
    intros H. rewrite (IH _ _ _ H), <- app_assoc. reflexivity.
Qed.

Lemma attempt_outcome_last P l evs v v' :
  match (attempt P evs l v).2 with inl _ => Ret tt | inr e => Raise e end
  = match (attempt P evs l v').2 with inl _ => Ret tt | inr e => Raise e end.
Proof. destruct l as [|c rest]; simpl; [reflexivity|]. destruct (respond P evs c); reflexivity. Qed.

Section Sends.
Context {St : Type} (P : platform) (s : St).

Lemma sends_quiet {A} (m : M St A) : quiet m -> sends P s m [].
Proof.
  intros Hq w. destruct (Hq s w) as (Hs & He & _ & Hx).
  exists []. rewrite app_nil_r. simpl.
  split; [exact Hs|]. split; [exact He|]. split; [reflexivity|].
  destruct ((m s w).1.1) as [a|e|c]; auto. apply (Hx c); reflexivity.
Qed.

Lemma sends_bind {A B} (m : M St A) (k : A -> M St B) l1 l2 :
  sends P s m l1 -> (forall a, sends P s (k a) l2) -> sends P s (bind m k) (l1 ++ l2).
Proof.
  intros Hm Hk w. destruct (Hm w) as (sent1 & Hs & He & Hp & Hr).
  unfold bind. destruct (m s w) as [[r s1] w1]. simpl in *. subst s1.
  destruct r as [a|e|c]; [| |contradiction].
  - destruct Hr as (-> & Hok).
    destruct (Hk a w1) as (sent2 & Hs2 & He2 & Hp2 & Hr2).
    destruct (attempt_app_ok P l1 l2 (events w) VNone VNone Hok) as (H1 & H2).
    exists (l1 ++ sent2). rewrite He in *.
    split; [exact Hs2|]. split; [rewrite He2, app_assoc; reflexivity|].
    split; [rewrite H1; apply prefix_app, Hp2|].
    destruct ((k a s w1).1.1); auto.
    destruct Hr2 as (-> & Hok2). split; [reflexivity|]. rewrite H2. exact Hok2.
  - exists sent1. simpl. repeat split; auto.
    etransitivity; [exact Hp|]. apply attempt_app_prefix.
Qed.

Lemma sends_seq {A B} (m : M St A) (k : A -> M St B) l :
  quiet m -> (forall a, sends P s (k a) l) -> sends P s (bind m k) l.
Proof. intros Hq Hk. apply (sends_bind m k [] l); [apply sends_quiet, Hq|exact Hk]. Qed.

Lemma sends_then {A B} (m : M St A) (k : A -> M St B) l :
  sends P s m l -> (forall a, quiet (k a)) -> sends P s (bind m k) l.
Proof.
  intros Hm Hq. rewrite <- (app_nil_r l).
  apply sends_bind; [exact Hm|]. intros a. apply sends_quiet, Hq.
Qed.

(** An [except] clause that logs and raises again. *)
Lemma sends_reraise {A} (m : M St A) (h : exn -> M St A) l :
  sends P s m l ->
  (forall e s' w, exists e' w', h e s' w = (Raise e', s', w') /\ events w' = events w) ->
  sends P s (try_except m h) l.
Proof.
  intros Hm Hh w. destruct (Hm w) as (sent & Hs & He & Hp & Hr).
  exists sent. unfold try_except.
  destruct (m s w) as [[r s1] w1]. simpl in *.
  destruct r as [a|e|c]; simpl; auto.
  destruct (Hh e s1 w1) as (e' & w' & -> & Hw). simpl.
  rewrite Hw. auto.
Qed.

Lemma sends_for_each {A} (l : list A) (body : A -> M St unit) (f : A -> call) :
  (forall x, sends P s (body x) [f x]) -> sends P s (for_each l body) (map f l).
Proof.
  intros Hb. induction l as [|x l IH]; simpl.
  - apply sends_quiet, quiet_ret.
  - apply (sends_bind (body x) (fun _ => for_each l body) [f x] (map f l)); auto.
Qed.

Lemma relays_sends (m : M St unit) l : relays P s m l -> sends P s m l.
Proof.
  intros H w. destruct (H w) as (Hs & He & Hr).
  exists (attempt P (events w) l VNone).1. repeat split; auto.
  rewrite Hr. destruct (attempt P (events w) l VNone).2 eqn:E; auto.
  split; [|reflexivity]. apply attempt_all. rewrite E. reflexivity.
Qed.

Lemma relays_bind (m : M St unit) (k : unit -> M St unit) l1 l2 :
  relays P s m l1 -> (forall a, relays P s (k a) l2) -> relays P s (bind m k) (l1 ++ l2).
Proof.
  intros Hm Hk w. destruct (Hm w) as (Hs & He & Hr).
  unfold bind. destruct (m s w) as [[r s1] w1]. simpl in *. subst s1 r.
  destruct (attempt P (events w) l1 VNone).2 as [v|e] eqn:E.
  - assert (Hok : is_inl (attempt P (events w) l1 VNone).2 = true) by (rewrite E; reflexivity).
    destruct (attempt_app_ok P l1 l2 (events w) VNone VNone Hok) as (H1 & H2).
    rewrite (attempt_all _ _ _ _ Hok) in He.
    destruct (Hk tt w1) as (Hs2 & He2 & Hr2). rewrite He in *.
    split; [exact Hs2|]. split; [rewrite He2, H1, app_assoc; reflexivity|].
    rewrite Hr2, (attempt_app_result P l1 l2 _ _ _ E).
    apply attempt_outcome_last.
  - assert (Hf : is_inl (attempt P (events w) l1 VNone).2 = false) by (rewrite E; reflexivity).
    rewrite (attempt_app_failed _ _ _ _ _ Hf), E. simpl. auto.
Qed.

Lemma relays_for_each {A} (l : list A) (body : A -> M St unit) (f : A -> call) :
  (forall x, relays P s (body x) [f x]) -> relays P s (for_each l body) (map f l).
Proof.
  intros Hb. induction l as [|x l IH]; simpl.
  - intros w. simpl. rewrite app_nil_r. repeat split.
  - apply (relays_bind (body x) (fun _ => for_each l body) [f x] (map f l)); auto.
Qed.

Lemma relays_after_log lv msg (k : unit -> M St unit) l :
  relays P s (k tt) l -> relays P s (bind (log lv msg) k) l.
Proof. intros H w. unfold bind, log. exact (H (logged lv msg w)). Qed.

End Sends.

(** ** The table script with a client that offers the methods *)

Section ScriptCalls.
Context (P : platform) (cls : string) (ms : list string).

Lemma attempt_one evs c v :
  attempt P evs [c] v =
    match respond P evs c with inl v' => ([c], inl v') | inr e => ([c], inr e) end.
Proof. simpl. destruct (respond P evs c); reflexivity. Qed.

Lemma sends_call name args :
  has_name name ms = true ->
  sends P (DuckObject cls ms) (call_method P name args) [Method name args].
Proof.
  intros H w. rewrite (call_method_duck P _ _ _ _ _ H), attempt_one.
  exists [Method name args]. simpl.
  destruct (respond P (events w) (Method name args)); simpl; repeat split; reflexivity.
Qed.

Lemma sends_on_client {A} (c : client) (m : M client A) l :
  sends P c m l -> sends P (Some c) (on_client m) l.
Proof.
  intros H w. destruct (H w) as (sent & Hs & He & Hp & Hr).
  exists sent. unfold on_client, bind, get, zoom. simpl.
  destruct (m c w) as [[r s1] w1]. simpl in *. subst s1.
  destruct r; simpl; auto.
Qed.

Lemma insert_one_batch_relays df t s b total i :
  has_name "execute" ms = true ->
  relays P (DuckObject cls ms) (insert_one_batch P df t s b total i)
    [Method "execute" [insert_sql P t s (py_slice df i (i + b))]].
Proof.
  intros Hm w. rewrite attempt_one.
  unfold insert_one_batch, try_except, bind, log.
  rewrite (call_method_duck P _ _ _ _ _ Hm). simpl.
  destruct (respond P (events w) _) as [v|e]; simpl; repeat split; reflexivity.
Qed.

Lemma insert_statements (df : list row) t s b :
  (0 < b)%Z ->
  map (fun i => Method "execute" [insert_sql P t s (py_slice df i (i + b))])
      (py_range 0 (Z.of_nat (List.length df)) b)
  = insert_calls P df t s b.
Proof.
  intros Hb. unfold insert_calls.
  set (n := Z.of_nat (List.length df)).
  assert (Hn : (0 <= n)%Z) by (unfold n; lia).
  assert (Hcount : (0 <= ceil_div n b /\ n <= ceil_div n b * b /\ (ceil_div n b - 1) * b < n
                    \/ n = 0 /\ ceil_div n b = 0)%Z) by (apply ceil_div_bounds; assumption).
  rewrite (py_range_pos n b Hb Hn).
  generalize dependent (ceil_div n b). intros count Hcount.
  unfold batch_numbers. rewrite !map_map. apply map_ext_in.
  intros j Hj. apply in_seq in Hj. do 2 f_equal.
  rewrite py_slice_rows by (fold n; nia).
  unfold batch. fold n.
  replace ((Z.of_nat j + 1) * b - b)%Z with (Z.of_nat j * b)%Z by ring.
  replace ((Z.of_nat j + 1) * b)%Z with (Z.of_nat j * b + b)%Z by ring.
  reflexivity.
Qed.

Lemma insert_data_batch_relays df t s b :
  (0 < b)%Z ->
  has_name "execute" ms = true ->
  relays P (DuckObject cls ms) (insert_data_batch P df t s b) (insert_calls P df t s b).
Proof.
  intros Hb Hm. unfold insert_data_batch. apply relays_after_log.
  destruct (Z.eqb_spec b 0); [lia|].
  rewrite <- (insert_statements df t s b Hb).
  apply (relays_for_each P (DuckObject cls ms) _ _
           (fun i => Method "execute" [insert_sql P t s (py_slice df i (i + b))])).
  intros i. apply insert_one_batch_relays, Hm.
Qed.

End ScriptCalls.

(** X1.  [insert_data_batch] with a client that offers [execute], for a
    batch size above zero: the INSERT statements of the batches are sent
    in order until one raises.  The function returns if all of them
    returned; otherwise it raises what the failing [execute] raised, and
    no later batch is sent.  The client object is left as it is. *)
Theorem insert_data_batch_stops_at_the_first_failure (P : platform) (df : list row)
    (table_name schema : string) (b : Z) (cls : string) (ms : list string) (w : world) :
  (0 < b)%Z ->
  has_name "execute" ms = true ->
  let res := insert_data_batch P df table_name schema b (DuckObject cls ms) w in
  let tried := attempt P (events w) (insert_calls P df table_name schema b) VNone in
  res.1.2 = DuckObject cls ms
  /\ events res.2 = events w ++ tried.1
  /\ res.1.1 = match tried.2 with inl _ => Ret tt | inr e => Raise e end.
Proof.
  intros Hb Hm. exact (insert_data_batch_relays P cls ms df table_name schema b Hb Hm w).
Qed.

Lemma insert_data_batch_stops_at_the_first_failure_witness :
  let res := insert_data_batch rejects_execute five_rows "t" "s" 2 mock_client world0 in
  let tried := attempt rejects_execute [] (insert_calls rejects_execute five_rows "t" "s" 2) VNone in
  res.1.2 = mock_client
  /\ events res.2 = [] ++ tried.1
  /\ res.1.1 = match tried.2 with inl _ => Ret tt | inr e => Raise e end.
Proof.
  apply (insert_data_batch_stops_at_the_first_failure rejects_execute five_rows "t" "s" 2
           "Mock" ["execute"; "fetchone"; "fetchall"; "close"] world0); [lia|reflexivity].
Defined.

Lemma range_from_empty fuel stop step :
  ((0 < step -> stop <= 0) /\ (step < 0 -> 0 <= stop))%Z ->
  range_from fuel 0 stop step = [].
Proof.
  intros H. destruct fuel as [|fuel]; [reflexivity|]. simpl.
  destruct (Z.ltb_spec 0 step); destruct (Z.ltb_spec 0 stop);
    destruct (Z.ltb_spec step 0); destruct (Z.ltb_spec stop 0); simpl; try reflexivity; lia.
Qed.

(** X2.  The edges of [insert_data_batch], whatever the client: with a
    batch size of zero it raises [ZeroDivisionError] before anything is
    sent; with a batch size below zero, or a frame without rows, the loop
    has no turn and the function returns without any call. *)
Theorem insert_data_batch_without_batches (P : platform) (df : list row)
    (table_name schema : string) (b : Z) (c : client) (w : world) :
  (b <= 0)%Z \/ df = [] ->
  let res := insert_data_batch P df table_name schema b c w in
  res.1.2 = c
  /\ events res.2 = events w
  /\ res.1.1 = if (b =? 0)%Z
               then Raise (Exn "ZeroDivisionError" "integer division or modulo by zero")
               else Ret tt.
Proof.
  intros H. unfold insert_data_batch, bind, log.
  destruct (Z.eqb_spec b 0) as [->|Hb0]; simpl; [repeat split; reflexivity|].
  unfold py_range. rewrite range_from_empty.
  - simpl. repeat split; reflexivity.
  - destruct H as [H| ->]; simpl; lia.
Qed.

Lemma insert_data_batch_without_batches_witness :
  let res := insert_data_batch all_up five_rows "t" "s" (-2) mock_client world0 in
  res.1.2 = mock_client
  /\ events res.2 = events world0
  /\ res.1.1 = if (-2 =? 0)%Z
               then Raise (Exn "ZeroDivisionError" "integer division or modulo by zero")
               else Ret tt.
Proof.
  apply (insert_data_batch_without_batches all_up five_rows "t" "s" (-2) mock_client world0).
  left. lia.
Defined.

Lemma quiet_next_draw {St} : quiet (@next_draw St).
Proof. intros s w. repeat split. discriminate. Qed.

Lemma quiet_map_m {St A B} (f : A -> M St B) (l : list A) :
  (forall x, quiet (f x)) -> quiet (map_m f l).
Proof.
  intros Hf. induction l as [|x l IH]; simpl.
  - apply quiet_ret.
  - apply quiet_bind; [apply Hf|]. intros y.
    apply quiet_bind; [exact IH|]. intros ys. apply quiet_ret.
Qed.

Lemma map_m_length {St A B} (f : A -> M St B) (l : list A) : forall s w ys s' w',
  map_m f l s w = (Ret ys, s', w') -> List.length ys = List.length l.
Proof.
  induction l as [|x l IH]; simpl; intros s w ys s' w'.
  - unfold ret. intros H. inversion H. reflexivity.
  - unfold bind. destruct (f x s w) as [[[y|e|c] s1] w1]; try discriminate.
    destruct (map_m f l s1 w1) as [[[zs|e|c] s2] w2] eqn:E; try discriminate.
    unfold ret. intros H. inversion H; subst. simpl. f_equal. exact (IH _ _ _ _ _ E).
Qed.

Lemma quiet_random_choice {St} P seq : quiet (@random_choice P St seq).
Proof.
  unfold random_choice. apply quiet_bind; [apply quiet_next_draw|]. intros k.
  destruct (nth_error seq _); [apply quiet_ret|apply quiet_throw].
Qed.

Lemma quiet_make_record {St} P base i : quiet (@make_record P St base i).
Proof.
  unfold make_record, random_randint, random_uniform.
  repeat (first [ apply quiet_random_choice | apply quiet_next_draw | apply quiet_ret
                | apply quiet_bind; [| intros ?] ]).
Qed.

Lemma quiet_generate_sample_data {St} P n : quiet (@generate_sample_data P St n).
Proof.
  unfold generate_sample_data.
  apply quiet_bind; [apply quiet_log|]. intros _.
  apply quiet_bind; [apply quiet_map_m; intros i; apply quiet_make_record|]. intros data.
  apply quiet_bind; [apply quiet_log|]. intros _. apply quiet_ret.
Qed.

Lemma generate_sample_data_length {St} P n (s : St) w df s' w' :
  generate_sample_data P n s w = (Ret df, s', w') ->
  List.length df = List.length (py_range 0 n 1).
Proof.
  unfold generate_sample_data, bind, log.
  destruct (map_m _ _ _ _) as [[[ys|e|c] s1] w1] eqn:E; try discriminate.
  unfold ret. intros H. inversion H; subst. exact (map_m_length _ _ _ _ _ _ _ E).
Qed.

Lemma quiet_log_rows P rows : quiet (log_rows P rows).
Proof. unfold log_rows. solve_quiet. Qed.

Section TableScript.
Context (P : platform) (cls : string) (ms : list string).
Hypothesis has_execute : has_name "execute" ms = true.
Hypothesis has_fetchone : has_name "fetchone" ms = true.
Hypothesis has_fetchall : has_name "fetchall" ms = true.

Lemma create_iceberg_table_sends t s :
  sends P (DuckObject cls ms) (create_iceberg_table P t s)
    [Method "execute" [create_table_sql t s]].
Proof.
  unfold create_iceberg_table.
  apply sends_seq; [apply quiet_log|]. intros _.
  apply sends_reraise.
  - apply sends_then; [apply sends_call, has_execute|]. intros v. apply quiet_log.
  - intros e s' w. do 2 eexists. split; reflexivity.
Qed.

Lemma verify_data_sends t s :
  sends P (DuckObject cls ms) (verify_data P t s) (verify_calls t s).
Proof.
  unfold verify_data, verify_calls.
  apply sends_seq; [apply quiet_log|]. intros _.
  apply (sends_bind P _ _ _ [Method "fetchone" [count_sql t s]]
           [Method "fetchall" [sample_sql t s]; Method "fetchall" [agg_sql t s]]);
    [apply sends_call, has_fetchone|]. intros result.
  apply sends_seq; [apply quiet_lift_result|]. intros row_count.
  apply sends_seq; [apply quiet_log|]. intros _.
  apply (sends_bind P _ _ _ [Method "fetchall" [sample_sql t s]]
           [Method "fetchall" [agg_sql t s]]);
    [apply sends_call, has_fetchall|]. intros sample_data.
  apply sends_seq; [apply quiet_log|]. intros _.
  apply sends_seq; [apply quiet_log_rows|]. intros _.
  apply sends_then; [apply sends_call, has_fetchall|]. intros agg.
  apply quiet_bind; [apply quiet_log|]. intros _. apply quiet_log_rows.
Qed.

End TableScript.



Lemma py_range_2000 : List.length (py_range 0 2000 1) = 2000%nat.
Proof. rewrite py_range_pos by lia. rewrite length_map, length_seq. reflexivity. Qed.

Section MainProofs.
Context (P : platform) (cls : string) (ms : list string).
Hypothesis has_execute : has_name "execute" ms = true.
Hypothesis has_fetchone : has_name "fetchone" ms = true.
Hypothesis has_fetchall : has_name "fetchall" ms = true.
Hypothesis has_close : has_name "close" ms = true.

(** What [main] does after the frame has been generated. *)
Lemma main_rest_sends (df : list row) (k : unit -> M (option client) unit) :
  (forall u, quiet (k u)) ->
  sends P (Some (DuckObject cls ms))
    (on_client (create_iceberg_table P "ecommerce_orders" "sales") ;;
     on_client (insert_data_batch P df "ecommerce_orders" "sales" 200) ;;
     on_client (verify_data P "ecommerce_orders" "sales") ;;
     k tt)
    ([Method "execute" [create_table_sql "ecommerce_orders" "sales"]]
       ++ insert_calls P df "ecommerce_orders" "sales" 200
       ++ verify_calls "ecommerce_orders" "sales").
Proof.
  intros Hk.
  apply sends_bind;
    [apply sends_on_client, create_iceberg_table_sends, has_execute|]. intros _.
  apply sends_bind;
    [apply sends_on_client, relays_sends, insert_data_batch_relays; [lia|exact has_execute]|].
  intros _.
  apply sends_then;
    [apply sends_on_client, verify_data_sends; assumption|]. intros []. apply Hk.
Qed.

End MainProofs.



(** ** Sample data: identifiers and dates *)

Lemma length_zeros n : String.length (zeros n) = n.
Proof. induction n as [|n IH]; simpl; [reflexivity|]. rewrite IH. reflexivity. Qed.

Lemma length_append (a b : string) :
  String.length (a +:+ b) = (String.length a + String.length b)%nat.
Proof. induction a as [|c a IH]; simpl; [reflexivity|]. rewrite IH. reflexivity. Qed.

(** A number that is not negative is padded to the width, and never cut. *)
Lemma length_zero_pad width z :
  (0 <= z)%Z ->
  String.length (zero_pad width z) = Nat.max width (String.length (str_int z)).
Proof.
  intros Hz. unfold zero_pad. destruct (Z.ltb_spec z 0); [lia|].
  rewrite length_append, length_zeros. lia.
Qed.

Lemma str_int_at_most_four z :
  (1 <= z <= 1000)%Z -> (String.length (str_int z) <= 4)%nat.
Proof.
  intros Hz.
  assert (H : forallb (fun k => (String.length (str_int (Z.of_nat k + 1)) <=? 4)%nat)
                      (seq 0 1000) = true) by (vm_compute; reflexivity).
  rewrite forallb_forall in H.
  specialize (H (Z.to_nat (z - 1))).
  replace (Z.of_nat (Z.to_nat (z - 1)) + 1)%Z with z in H by lia.
  apply Nat.leb_le, H, in_seq. lia.
Qed.

Lemma digits_value_zeros n s :
  digits_value (zeros n +:+ s) = digits_value s.
Proof.
  induction n as [|n IH]; simpl; [reflexivity|].
  unfold digits_value in *. simpl.
  destruct (NilEmpty.uint_of_string (zeros n +:+ s)) as [d|];
    destruct (NilEmpty.uint_of_string s) as [d'|]; simpl in *; try discriminate; auto.
Qed.

Lemma digits_value_str_int z : (0 <= z)%Z -> digits_value (str_int z) = Some z.
Proof.
  intros Hz. unfold digits_value, str_int.
  pose proof (DecimalZ.of_to z) as Hof.
  destruct z as [|p|p]; [reflexivity| |lia].
  simpl in *. unfold NilZero.string_of_uint.
  pose proof (DecimalPos.Unsigned.to_uint_nonnil p) as Hnn.
  destruct (Pos.to_uint p) eqn:E; [contradiction|..];
    rewrite <- E, NilEmpty.usu; simpl; rewrite E; f_equal; exact Hof.
Qed.

Lemma digits_value_zero_pad width z :
  (0 <= z)%Z -> digits_value (zero_pad width z) = Some z.
Proof.
  intros Hz. unfold zero_pad. destruct (Z.ltb_spec z 0); [lia|].
  rewrite digits_value_zeros. apply digits_value_str_int, Hz.
Qed.

Lemma zero_pad_inj width z1 z2 :
  (0 <= z1)%Z -> (0 <= z2)%Z -> zero_pad width z1 = zero_pad width z2 -> z1 = z2.
Proof.
  intros H1 H2 H. apply (f_equal digits_value) in H.
  rewrite !digits_value_zero_pad in H by assumption. congruence.
Qed.

Lemma map_m_pointwise {St A B} (f : A -> M St B) (Q : A -> B -> Prop) (s : St) :
  (forall x w, exists y w', f x s w = (Ret y, s, w') /\ Q x y) ->
  forall l w, exists ys w', map_m f l s w = (Ret ys, s, w') /\ Forall2 Q l ys.
Proof.
  intros Hf. induction l as [|x l IH]; intros w; simpl.
  - exists [], w. split; [reflexivity|constructor].
  - destruct (Hf x w) as (y & w1 & E1 & Hy).
    destruct (IH w1) as (ys & w2 & E2 & Hys).
    exists (y :: ys), w2. unfold bind. rewrite E1, E2. split; [reflexivity|].
    constructor; assumption.
Qed.

Lemma py_range_count n :
  (0 <= n)%Z -> py_range 0 n 1 = map Z.of_nat (seq 0 (Z.to_nat n)).
Proof.
  intros Hn. rewrite py_range_pos by lia.
  replace (ceil_div n 1) with n by (unfold ceil_div; rewrite Z.div_1_r; lia).
  apply map_ext. intros k. lia.
Qed.

Section Identifiers.
Context (P : platform).
Hypothesis contract : random_contract P.

Lemma make_record_fields {St} i (s : St) (w : world) :
  exists r w',
    make_record P (add_days (now P) (-365)) i s w = (Ret r, s, w') /\ record_fields P i r.
Proof.
  unfold make_record.
  destruct (random_choice_member P contract products s w ltac:(simpl; lia)) as (p & w1 & E1 & Hp).
  rewrite (bind_run _ _ _ _ _ _ _ E1). cbv beta iota.
  destruct (random_choice_member P contract categories s w1 ltac:(simpl; lia))
    as (c & w2 & E2 & Hc).
  rewrite (bind_run _ _ _ _ _ _ _ E2). cbv beta iota.
  rewrite (bind_run _ _ _ _ _ _ _ (random_randint_run P 1 10 s w2)). cbv beta iota.
  rewrite (bind_run _ _ _ _ _ _ _ (random_uniform_run P (B64 10 0) (B64 1000 0) s _)).
  cbv beta iota.
  match goal with
  | |- context [bind (random_choice P regions) _ s ?w3] =>
      destruct (random_choice_member P contract regions s w3 ltac:(simpl; lia))
        as (g & w4 & E4 & Hg)
  end.
  rewrite (bind_run _ _ _ _ _ _ _ E4). cbv beta iota.
  rewrite (bind_run _ _ _ _ _ _ _ (random_randint_run P 0 365 s w4)). cbv beta iota.
  rewrite (bind_run _ _ _ _ _ _ _ (random_randint_run P 1 1000 s _)). cbv beta iota.
  do 2 eexists. split; [reflexivity|].
  destruct contract as (_ & Hi & _).
  split; [reflexivity|]. split.
  - eexists. split; [|reflexivity]. apply Hi. lia.
  - exists (rand_int P (draws w4) 0 365). split; [apply Hi; lia|].
    unfold add_days. simpl. f_equal. lia.
Qed.

Lemma generate_sample_data_fields {St} (n : Z) (s : St) (w : world) :
  (0 <= n)%Z ->
  exists df w',
    generate_sample_data P n s w = (Ret df, s, w')
    /\ Forall2 (record_fields P) (map Z.of_nat (seq 0 (Z.to_nat n))) df.
Proof.
  intros Hn. unfold generate_sample_data.
  destruct (map_m_pointwise (make_record P (add_days (now P) (-365))) (record_fields P) s
              (fun i w0 => make_record_fields i s w0) (py_range 0 n 1)
              (logged INFO ("Generating " +:+ str_int n +:+ " sample records") w))
    as (df & w1 & E & Hall).
  exists df. eexists. unfold logged in E. unfold bind, log, ret. rewrite E.
  split; [reflexivity|]. rewrite <- py_range_count by exact Hn. exact Hall.
Qed.

Lemma fields_lookup n df k r :
  Forall2 (record_fields P) (map Z.of_nat (seq 0 n)) df ->
  df !! k = Some r -> record_fields P (Z.of_nat k) r.
Proof.
  intros Hall Hk.
  destruct (Forall2_lookup_r _ _ _ _ _ Hall Hk) as (i & Hi & Hf).
  rewrite list_lookup_fmap in Hi.
  destruct (seq 0 n !! k) as [j|] eqn:Ej; [|discriminate].
  apply lookup_seq in Ej. destruct Ej as [-> _]. simpl in Hi.
  inversion Hi; subst i. exact Hf.
Qed.

End Identifiers.

Lemma all_up_keeps_the_contract : random_contract all_up.
Proof.
  split; [|split].
  - intros k n Hn. exact Hn.
  - intros k a b Hab. simpl. lia.
  - intros k. vm_compute. reflexivity.
Qed.

(** X5.  If [random] keeps to its documentation, every row the generator
    returns has as [customer_id] the text CUST- followed by a number
    from 1 to 1000 padded with zeros to four digits, nine characters in
    all; and its [order_date] is [now] moved back by at most 365 days, at
    the same time of day. *)
Theorem generate_sample_data_customers_and_dates {St : Type} (P : platform)
    (num_records : Z) (s : St) (w : world) :
  random_contract P ->
  (0 <= num_records)%Z ->
  exists df w',
    generate_sample_data P num_records s w = (Ret df, s, w')
    /\ forall k r, df !! k = Some r ->
         (exists n, (1 <= n <= 1000)%Z /\ customer_id r = "CUST-" +:+ zero_pad 4 n)
         /\ String.length (customer_id r) = 9%nat
         /\ (dt_day (now P) - 365 <= dt_day (order_date r) <= dt_day (now P))%Z
         /\ dt_micro (order_date r) = dt_micro (now P).
Proof.
  intros contract Hn.
  destruct (generate_sample_data_fields P contract num_records s w Hn) as (df & w' & E & Hall).
  exists df, w'. split; [exact E|].
  intros k r Hk.
  destruct (fields_lookup P _ _ _ _ Hall Hk) as (_ & (n & Hn1 & Hc) & (d & Hd & Ho)).
  split; [exists n; split; assumption|].
  split.
  { rewrite Hc, length_append, length_zero_pad by lia.
    pose proof (str_int_at_most_four n Hn1). simpl. lia. }
  rewrite Ho. unfold add_days. simpl. split; [lia|reflexivity].
Qed.

Lemma generate_sample_data_customers_and_dates_witness :
  exists df w',
    generate_sample_data all_up 3 tt world0 = (Ret df, tt, w')
    /\ forall k r, df !! k = Some r -> String.length (customer_id r) = 9%nat.
Proof.
  destruct (generate_sample_data_customers_and_dates all_up 3 tt world0
              all_up_keeps_the_contract ltac:(lia)) as (df & w' & E & H).
  exists df, w'. split; [exact E|]. intros k r Hk. apply (H k r Hk).
Defined.

(** X6.  If [random] keeps to its documentation, the rows of a generated
    frame have pairwise different [order_id]s, whatever the number of
    rows, and an [order_id] has at least ten characters: the position is
    padded to six digits and never cut. *)
Theorem generate_sample_data_order_ids_are_unique {St : Type} (P : platform)
    (num_records : Z) (s : St) (w : world) :
  random_contract P ->
  (0 <= num_records)%Z ->
  exists df w',
    generate_sample_data P num_records s w = (Ret df, s, w')
    /\ (forall j k r1 r2,
          df !! j = Some r1 -> df !! k = Some r2 -> order_id r1 = order_id r2 -> j = k)
    /\ (forall k r, df !! k = Some r -> (10 <= String.length (order_id r))%nat).
Proof.
  intros contract Hn.
  destruct (generate_sample_data_fields P contract num_records s w Hn) as (df & w' & E & Hall).
  exists df, w'. split; [exact E|]. split.
  - intros j k r1 r2 Hj Hk Heq.
    destruct (fields_lookup P _ _ _ _ Hall Hj) as (H1 & _).
    destruct (fields_lookup P _ _ _ _ Hall Hk) as (H2 & _).
    rewrite H1, H2 in Heq. simpl in Heq. inversion Heq as [Hpad].
    apply zero_pad_inj in Hpad; lia.
  - intros k r Hk. destruct (fields_lookup P _ _ _ _ Hall Hk) as (H1 & _).
    rewrite H1, length_append, length_zero_pad by lia. simpl. lia.
Qed.

Lemma generate_sample_data_order_ids_are_unique_witness :
  exists df w',
    generate_sample_data all_up 3 tt world0 = (Ret df, tt, w')
    /\ (forall j k r1 r2,
          df !! j = Some r1 -> df !! k = Some r2 -> order_id r1 = order_id r2 -> j = k).
Proof.
  destruct (generate_sample_data_order_ids_are_unique all_up 3 tt world0
              all_up_keeps_the_contract ltac:(lia)) as (df & w' & E & H & _).
  exists df, w'. split; [exact E|exact H].
Defined.

(** X7.  Asked for no records, or for a negative number of them, the
    generator returns a frame without rows and takes nothing from
    [random]; the shape it logs is (0, 0). *)
Theorem generate_sample_data_without_records {St : Type} (P : platform)
    (num_records : Z) (s : St) (w : world) :
  (num_records <= 0)%Z ->
  let res := generate_sample_data P num_records s w in
  res.1 = (Ret [], s)
  /\ draws res.2 = draws w
  /\ events res.2 = events w
  /\ logs res.2 = logs w ++ [(INFO, "Generating " +:+ str_int num_records +:+ " sample records");
                            (INFO, "Generated DataFrame with shape: (0, 0)")].
Proof.
  intros Hn. unfold generate_sample_data, py_range.
  rewrite range_from_empty by lia.
  simpl. unfold bind, log, ret. simpl. rewrite <- app_assoc. repeat split; reflexivity.
Qed.

Lemma generate_sample_data_without_records_witness :
  (generate_sample_data all_up (-5) tt world0).1 = (Ret [], tt).
Proof.
  apply (generate_sample_data_without_records all_up (-5) tt world0). lia.
Defined.

(** ** The analysis script: the table check and [main] *)

Lemma map_m_lift {St A B} (g : A -> B + exn) (l : list A) : forall (s : St) (w : world),
  (exists ys, map_m (fun x => lift_result (g x)) l s w = (Ret ys, s, w)
              /\ Forall2 (fun x y => g x = inl y) l ys)
  \/ (exists e, map_m (fun x => lift_result (g x)) l s w = (Raise e, s, w)
                /\ forall ys, ~ Forall2 (fun x y => g x = inl y) l ys).
Proof.
  induction l as [|x l IH]; intros s w; simpl.
  - left. exists []. split; [reflexivity|constructor].
  - unfold bind. destruct (g x) as [y|e] eqn:E; simpl.
    + destruct (IH s w) as [(ys & -> & Hys)|(e & -> & Hno)].
      * left. exists (y :: ys). split; [reflexivity|]. constructor; assumption.
      * right. exists e. split; [reflexivity|]. intros ys H.
        inversion H; subst. eapply Hno; eassumption.
    + right. exists e. split; [reflexivity|]. intros ys H.
      inversion H; subst. congruence.
Qed.

Lemma existsb_is_string name names :
  existsb (analyze_data.is_string name) names = true <-> VStr name ∈ names.
Proof.
  rewrite existsb_exists. split.
  - intros (v & Hin & Hv). destruct v; try discriminate.
    simpl in Hv. apply String.eqb_eq in Hv. subst. apply list_elem_of_In, Hin.
  - intros H. exists (VStr name). split; [apply list_elem_of_In, H|].
    simpl. apply String.eqb_refl.
Qed.

Lemma Forall2_inl_functional {A B} (g : A -> B + exn) l ys ys' :
  Forall2 (fun x y => g x = inl y) l ys ->
  Forall2 (fun x y => g x = inl y) l ys' -> ys = ys'.
Proof.
  intros H. revert ys'. induction H as [|x y l ys Hxy _ IH]; intros ys' H'.
  - inversion H'. reflexivity.
  - inversion H' as [|? y' ? ys'' Hxy' Hrest]; subst. f_equal; [congruence|]. apply IH, Hrest.
Qed.

Lemma check_table_exists_run (P : platform) (table_name schema : string)
    (c : client) (w : world) :
  exists b w',
    analyze_data.check_table_exists P table_name schema c w = (Ret b, c, w')
    /\ match c with
       | TrinoObject _ => b = false /\ events w' = events w
       | DuckObject cls ms =>
           if has_name "fetchall" ms then
             events w' = events w ++ [show_tables_call schema]
             /\ (b = true <->
                 exists v, respond P (events w) (show_tables_call schema) = inl v
                           /\ lists_table table_name v)
           else b = false /\ events w' = events w
       end.
Proof.
  unfold analyze_data.check_table_exists, try_except.
  destruct c as [tc|cls ms].
  - do 2 eexists. split; [reflexivity|]. split; reflexivity.
  - destruct (has_name "fetchall" ms) eqn:Hm.
    2:{ unfold bind, call_method, bind, get. cbv beta iota. rewrite Hm. unfold throw, log, ret.
        do 2 eexists. split; [reflexivity|]. split; reflexivity. }
    unfold bind at 1. rewrite (call_method_duck P _ _ _ _ _ Hm).
    fold (show_tables_call schema).
    destruct (respond P (events w) (show_tables_call schema)) as [v|e] eqn:Er.
    2:{ do 2 eexists. split; [reflexivity|]. split; [reflexivity|].
        split; [discriminate|]. intros (v & Hv & _). discriminate. }
    unfold bind at 1.
    destruct (py_iter v) as [rows|e] eqn:Ei; simpl.
    2:{ do 2 eexists. split; [reflexivity|]. split; [reflexivity|].
        split; [discriminate|]. intros (v' & Hv & rows & names & Hi & _).
        inversion Hv; subst. congruence. }
    unfold bind at 1.
    destruct (map_m_lift (fun table => py_getitem table "Table") rows (DuckObject cls ms)
                (add_event (show_tables_call schema) w))
      as [(names & -> & Hn)|(e & -> & Hno)].
    + do 2 eexists. split; [reflexivity|]. split; [reflexivity|].
      rewrite existsb_is_string. split.
      * intros Hin. exists v. split; [reflexivity|]. exists rows, names. auto.
      * intros (v' & Hv & rows' & names' & Hi & Hf & Hin).
        inversion Hv; subst v'. rewrite Ei in Hi. inversion Hi; subst rows'.
        rewrite (Forall2_inl_functional _ _ _ _ Hn Hf). exact Hin.
    + do 2 eexists. split; [reflexivity|]. split; [reflexivity|].
      split; [discriminate|].
      intros (v' & Hv & rows' & names' & Hi & Hf & _).
      inversion Hv; subst v'. rewrite Ei in Hi. inversion Hi; subst rows'.
      exfalso. exact (Hno _ Hf).
Qed.

(** X8.  [check_table_exists] never raises and leaves the client as it is.
    With a client that offers [fetchall] it sends the one SHOW TABLES
    query, and answers [True] exactly when the query returned rows that
    all have an entry [Table], one of them the table's name; when the
    query raises, or a row has no such entry, the answer is [False].  An
    instance of the repository's [TrinoClient] has no [fetchall]: for it
    the answer is [False] and nothing is sent. *)
Theorem check_table_exists_never_raises (P : platform) (table_name schema : string)
    (c : client) (w : world) :
  exists b w',
    analyze_data.check_table_exists P table_name schema c w = (Ret b, c, w')
    /\ match c with
       | TrinoObject _ => b = false /\ events w' = events w
       | DuckObject cls ms =>
           if has_name "fetchall" ms then
             events w' = events w ++ [show_tables_call schema]
             /\ (b = true <->
                 exists v, respond P (events w) (show_tables_call schema) = inl v
                           /\ lists_table table_name v)
           else b = false /\ events w' = events w
       end.
Proof. exact (check_table_exists_run P table_name schema c w). Qed.

Section AlwaysSends.
Context {St : Type} (s : St).

Lemma always_sends_bind {A B} (m : M St A) (k : A -> M St B) l1 l2 :
  always_sends s m l1 -> (forall a, always_sends s (k a) l2) ->
  always_sends s (bind m k) (l1 ++ l2).
Proof.
  intros Hm Hk w. destruct (Hm w) as (a & w1 & E1 & Ev1).
  destruct (Hk a w1) as (b & w2 & E2 & Ev2).
  exists b, w2. unfold bind. rewrite E1. split; [exact E2|].
  rewrite Ev2, Ev1, app_assoc. reflexivity.
Qed.

Lemma always_sends_log lv msg : always_sends s (log lv msg) [].
Proof. intros w. do 2 eexists. split; [reflexivity|]. simpl. rewrite app_nil_r. reflexivity. Qed.

Lemma always_sends_after_log {B} lv msg (k : unit -> M St B) l :
  always_sends s (k tt) l -> always_sends s (bind (log lv msg) k) l.
Proof.
  intros H. apply (always_sends_bind (log lv msg) k [] l); [apply always_sends_log|].
  intros []. exact H.
Qed.

End AlwaysSends.

Section AnalysisMain.
Context (P : platform) (cls : string) (ms : list string).
Hypothesis has_fetchone : has_name "fetchone" ms = true.
Hypothesis has_fetchall : has_name "fetchall" ms = true.

Lemma guarded_block_always_sends what name q (rest : pyval -> M client unit) :
  has_name name ms = true ->
  no_exit (call_method P name [q]) ->
  (forall v, quiet (rest v)) ->
  always_sends (DuckObject cls ms) (guarded what (bind (call_method P name [q]) rest))
    [Method name [q]].
Proof.
  intros Hm Hne Hq w.
  destruct (bind (call_method P name [q]) rest (DuckObject cls ms) w) as [[r s1] w1] eqn:E.
  rewrite (guarded_run what _ _ _ _ _ _ (block_no_exit P name q rest Hne Hq) E).
  apply (block_duck_run P) in E; [|exact Hm|exact Hq]. destruct E as (-> & Ev).
  do 2 eexists. split; [reflexivity|]. rewrite after_guard_events. exact Ev.
Qed.

Lemma run_analysis_queries_always_sends t s :
  always_sends (DuckObject cls ms) (run_analysis_queries P t s) (analysis_calls t s).
Proof.
  unfold run_analysis_queries, analysis_calls.
  set (full := "iceberg." +:+ s +:+ "." +:+ t).
  apply always_sends_after_log. apply always_sends_after_log.
  apply (always_sends_bind _ _ _ [_] [_; _; _; _; _]).
  { unfold stats_block. apply guarded_block_always_sends;
      [exact has_fetchone|apply call_fetchone_no_exit|intros v; solve_quiet]. }
  intros _. apply always_sends_after_log.
  apply (always_sends_bind _ _ _ [_] [_; _; _; _]).
  { unfold category_block. apply guarded_block_always_sends;
      [exact has_fetchall|apply call_fetchall_no_exit|intros v; solve_quiet]. }
  intros _. apply always_sends_after_log.
  apply (always_sends_bind _ _ _ [_] [_; _; _]).
  { unfold regional_block. apply guarded_block_always_sends;
      [exact has_fetchall|apply call_fetchall_no_exit|intros v; solve_quiet]. }
  intros _. apply always_sends_after_log.
  apply (always_sends_bind _ _ _ [_] [_; _]).
  { unfold monthly_block. apply guarded_block_always_sends;
      [exact has_fetchall|apply call_fetchall_no_exit|intros v; solve_quiet]. }
  intros _. apply always_sends_after_log.
  apply (always_sends_bind _ _ _ [_] [_]).
  { unfold product_block. apply guarded_block_always_sends;
      [exact has_fetchall|apply call_fetchall_no_exit|intros v; solve_quiet]. }
  intros _. apply always_sends_after_log.
  unfold customer_block. apply guarded_block_always_sends;
    [exact has_fetchall|apply call_fetchall_no_exit|intros v; solve_quiet].
Qed.

End AnalysisMain.

(** How a [finally] clause that closes a client with a [close] method
    ends. *)
Lemma close_in_finally (P : platform) cls ms (r : outcome unit) (w : world) :
  has_name "close" ms = true ->
  (let '(o, s2, w3) :=
     bind get (fun s : option client =>
       match s with
       | Some _ => bind (on_client (call_method P "close" [])) (fun _ => ret tt)
       | None => ret tt
       end) (Some (DuckObject cls ms)) w in
   match o with
   | Ret _ => (r, s2, w3)
   | Raise e => (Raise e, s2, w3)
   | Exit c0 => (Exit c0, s2, w3)
   end)
  = (match respond P (events w) (Method "close" []) with
     | inl _ => r
     | inr e => Raise e
     end, Some (DuckObject cls ms), add_event (Method "close" []) w).
Proof.
  intros Hc. unfold bind, get, on_client, zoom, bind, get. cbv beta iota.
  rewrite (call_method_duck P _ _ _ _ _ Hc).
  destruct (respond P (events w) (Method "close" [])); reflexivity.
Qed.

(** X9.  [main] of the analysis script, handed a client that offers
    [fetchone], [fetchall] and [close].  It asks for the tables first.
    If the table is not listed, or the question fails, it ends in
    [sys.exit(1)] without any analysis query: [SystemExit] is no
    [Exception] and passes the [except] clause.  If the table is listed,
    the six analysis queries are sent and [main] returns, whatever they
    answered.  In both cases [close] is the last call, made once; only an
    exception of [close] itself leaves [main] as an exception. *)
Theorem analysis_main_with_a_client (P : platform) (cls : string) (ms : list string)
    (w : world) :
  has_name "fetchone" ms = true ->
  has_name "fetchall" ms = true ->
  has_name "close" ms = true ->
  let c := DuckObject cls ms in
  let res := analyze_data.main_with P (ret c) None w in
  exists listed : bool,
    (listed = true <->
     exists v, respond P (events w) (show_tables_call "sales") = inl v
               /\ lists_table "ecommerce_orders" v)
    /\ let sent := show_tables_call "sales"
                   :: (if listed then analysis_calls "ecommerce_orders" "sales" else []) in
       res.1.2 = Some c
       /\ events res.2 = events w ++ sent ++ [Method "close" []]
       /\ res.1.1 = match respond P (events w ++ sent) (Method "close" []) with
                    | inr e => Raise e
                    | inl _ => if listed then Ret tt else Exit 1
                    end.
Proof.
  intros H1 Ha Hc c res.
  set (w0 := logged INFO "Starting data analysis" w).
  destruct (check_table_exists_run P "ecommerce_orders" "sales" c w0)
    as (listed & w1 & Echk & Hchk).
  subst c. cbv beta iota in Hchk. rewrite Ha in Hchk. destruct Hchk as (Ev1 & Hlisted).
  exists listed. split; [exact Hlisted|]. cbv zeta.
  set (sent := show_tables_call "sales"
               :: (if listed then analysis_calls "ecommerce_orders" "sales" else [])).
  assert (Hres : exists wl,
            events wl = events w ++ sent
            /\ res = (match respond P (events wl) (Method "close" []) with
                      | inr e => Raise e
                      | inl _ => if listed then Ret tt else Exit 1
                      end, Some (DuckObject cls ms), add_event (Method "close" []) wl)).
  { subst res. unfold analyze_data.main_with.
    unfold bind at 1. unfold log at 1. fold (logged INFO "Starting data analysis" w). fold w0.
    unfold try_finally, try_except.
    rewrite (bind_run _ _ _ _ _ _ _
               (eq_refl : ret (DuckObject cls ms) None w0 = (Ret _, None, w0))).
    rewrite (bind_run _ _ _ _ _ _ _
               (eq_refl : put (Some (DuckObject cls ms)) None w0 = (Ret tt, Some _, w0))).
    assert (Eon : on_client (analyze_data.check_table_exists P "ecommerce_orders" "sales")
                    (Some (DuckObject cls ms)) w0 = (Ret listed, Some (DuckObject cls ms), w1)).
    { unfold on_client, bind, get, zoom. cbv beta iota. rewrite Echk. reflexivity. }
    rewrite (bind_run _ _ _ _ _ _ _ Eon).
    subst sent. destruct listed.
    - (* the table is listed *)
      simpl negb. cbv iota.
      rewrite (bind_run _ _ _ _ _ _ _
                 (eq_refl : ret tt (Some (DuckObject cls ms)) w1 = (Ret tt, Some _, w1))).
      destruct (run_analysis_queries_always_sends P cls ms H1 Ha "ecommerce_orders" "sales" w1)
        as ([] & w2 & Erun & Ev2).
      assert (Eon2 : on_client (run_analysis_queries P "ecommerce_orders" "sales")
                       (Some (DuckObject cls ms)) w1 = (Ret tt, Some (DuckObject cls ms), w2)).
      { unfold on_client, bind, get, zoom. cbv beta iota. rewrite Erun. reflexivity. }
      rewrite (bind_run _ _ _ _ _ _ _ Eon2). unfold log at 1.
      rewrite close_in_finally by exact Hc.
      eexists. split; [|reflexivity]. simpl. rewrite Ev2, Ev1, <- app_assoc. reflexivity.
    - (* it is not *)
      simpl negb. cbv iota.
      unfold bind at 2. unfold log at 1. unfold sys_exit at 1. unfold bind at 1.
      rewrite close_in_finally by exact Hc.
      eexists. split; [|reflexivity]. simpl. rewrite Ev1. reflexivity. }
  destruct Hres as (wl & Hwl & ->). simpl. rewrite Hwl.
  split; [reflexivity|]. split; [rewrite <- app_assoc; reflexivity|reflexivity].
Qed.

Lemma analysis_main_with_a_client_witness :
  (analyze_data.main_with all_up (ret mock_client) None world0).1.2 = Some mock_client.
Proof.
  destruct (analysis_main_with_a_client all_up "Mock"
              ["execute"; "fetchone"; "fetchall"; "close"] world0)
    as (listed & _ & Hs & _); [reflexivity..|exact Hs].
Defined.

(** X10.  [main] of the analysis script as it is run, with the
    repository's [TrinoClient]: on every platform it ends with exit status
    1 and not one call has reached the SQL engine.  When the library is
    there, the table check fails on the lookup of [fetchall], answers
    [False], and the script reports that the table does not exist. *)
Theorem analysis_main_reaches_no_query (P : platform) (w : world) :
  exists s' w',
    analyze_data.main P None w = (Exit 1, s', w')
    /\ events w' = events w
    /\ last (logs w') =
         Some (ERROR,
               if installed P Trino
               then "Table sales.ecommerce_orders does not exist. Please run create_iceberg_table.py first."
               else "Analysis failed with error: Trino library not installed. Run: pip install trino").
Proof.
  unfold analyze_data.main, analyze_data.main_with, try_finally, try_except, TrinoClient.init.
  destruct (installed P Trino) eqn:E.
  - do 2 eexists. split; [reflexivity|]. split; [reflexivity|].
    simpl. rewrite last_snoc. reflexivity.
  - do 2 eexists. split; [reflexivity|]. split; [reflexivity|].
    simpl. rewrite last_snoc. reflexivity.
Qed.

(** X11.  [run_demo.py] with the repository's [TrinoClient]: it ends
    with exit status 1 without any call, and logs nothing after [main]:
    neither that the demo completed, nor, its [except] clause being
    passed by [SystemExit], that it failed. *)
Theorem run_demo_never_completes (P : platform) (w : world) :
  let inner := main P None (logged INFO "Starting Iceberg demo" w) in
  run_demo.script P None w = (Exit 1, inner.1.2, inner.2)
  /\ events inner.2 = events w.
Proof.
  unfold run_demo.script, main, main_with, try_finally, try_except, TrinoClient.init.
  destruct (installed P Trino) eqn:E; split; reflexivity.
Qed.

(** ** The clients: lazy connections *)

Lemma trino_conn_run (P : platform) (self : TrinoClient.t) (w : world) :
  let '(r, s1, w1) := TrinoClient.conn P self w in
  match r with
  | Ret c =>
      TrinoClient._conn s1 = Some c
      /\ TrinoClient.id s1 = TrinoClient.id self
      /\ events w1 = events w ++ match TrinoClient._conn self with
                                 | Some _ => []
                                 | None => [Connect Trino]
                                 end
      /\ forall w', TrinoClient.conn P s1 w' = (Ret c, s1, w')
  | Raise e =>
      s1 = self
      /\ TrinoClient._conn self = None
      /\ respond P (events w) (Connect Trino) = inr e
      /\ events w1 = events w ++ [Connect Trino]
      /\ events (TrinoClient.conn P s1 w1).2 = events w1 ++ [Connect Trino]
  | Exit _ => False
  end.
Proof.
  destruct self as [i [c|]];
    unfold TrinoClient.conn, bind, get, try_except, external_new, bind, put, fresh_id, log,
      throw, ret; simpl.
  - rewrite app_nil_r. repeat split; reflexivity.
  - rewrite external_run. destruct (respond P (events w) (Connect Trino)) as [v|e] eqn:E; simpl.
    + repeat split; reflexivity.
    + rewrite external_run. simpl.
      destruct (respond P (events w ++ [Connect Trino]) (Connect Trino));
        repeat split; reflexivity.
Qed.

(** X12.  The property [conn] of [TrinoClient] connects on first use
    only.  Once it has returned a connection, the client holds it and
    every later read returns that same connection without a call.  When
    connecting fails the exception is raised again and the client is left
    without a connection, so that the next read tries once more. *)
Theorem trino_conn_connects_once (P : platform) (self : TrinoClient.t) (w : world) :
  let '(r, s1, w1) := TrinoClient.conn P self w in
  match r with
  | Ret c =>
      TrinoClient._conn s1 = Some c
      /\ TrinoClient.id s1 = TrinoClient.id self
      /\ events w1 = events w ++ match TrinoClient._conn self with
                                 | Some _ => []
                                 | None => [Connect Trino]
                                 end
      /\ forall w', TrinoClient.conn P s1 w' = (Ret c, s1, w')
  | Raise e =>
      s1 = self
      /\ TrinoClient._conn self = None
      /\ respond P (events w) (Connect Trino) = inr e
      /\ events w1 = events w ++ [Connect Trino]
      /\ events (TrinoClient.conn P s1 w1).2 = events w1 ++ [Connect Trino]
  | Exit _ => False
  end.
Proof. exact (trino_conn_run P self w). Qed.


(** X13.  The property [conn] of [PostgresClient] stores the connection
    before it switches autocommit off.  So when the switch raises, the
    exception is raised again but the client keeps the connection, and
    every later read hands it out without a call: autocommit is never
    switched off on it.  When connecting itself fails, the client is
    left without a connection. *)
Theorem postgres_conn_keeps_a_half_made_connection (P : platform) (self : PostgresClient.t)
    (w : world) :
  let '(r, s1, w1) := PostgresClient.conn P self w in
  PostgresClient.id s1 = PostgresClient.id self
  /\ match PostgresClient._conn self with
     | Some c => r = Ret c /\ s1 = self /\ w1 = w
     | None =>
         match respond P (events w) (Connect Postgres) with
         | inr e =>
             r = Raise e /\ s1 = self /\ events w1 = events w ++ [Connect Postgres]
         | inl _ =>
             let c := next_id w in
             PostgresClient._conn s1 = Some c
             /\ events w1 = events w ++ [Connect Postgres; SetAutocommit c]
             /\ r = match respond P (events w ++ [Connect Postgres]) (SetAutocommit c) with
                    | inl _ => Ret c
                    | inr e => Raise e
                    end
             /\ forall w', PostgresClient.conn P s1 w' = (Ret c, s1, w')
         end
     end.
Proof.
  destruct self as [i [c|]];
    unfold PostgresClient.conn, bind, get, try_except, external_new, bind, put, fresh_id, log,
      throw, ret; simpl.
  - repeat split; reflexivity.
  - rewrite external_run.
    destruct (respond P (events w) (Connect Postgres)) as [v|e] eqn:E; simpl.
    + rewrite external_run. simpl.
      destruct (respond P _ (SetAutocommit _)); simpl; rewrite <- app_assoc;
        repeat split; reflexivity.
    + repeat split; reflexivity.
Qed.

(** X14.  The property [client] of [RedisClient] stores the client
    object before it pings the server.  So when the ping raises, the
    exception is raised again but the object is kept, and every later
    read returns it without pinging: a server that was down at first use
    is never tested again by this property. *)
Theorem redis_client_keeps_an_unpinged_client (P : platform) (self : RedisClient.t)
    (w : world) :
  let '(r, s1, w1) := RedisClient.client P self w in
  RedisClient.id s1 = RedisClient.id self
  /\ match RedisClient._client self with
     | Some c => r = Ret c /\ s1 = self /\ w1 = w
     | None =>
         match respond P (events w) (Connect Redis) with
         | inr e =>
             r = Raise e /\ s1 = self /\ events w1 = events w ++ [Connect Redis]
         | inl _ =>
             let c := next_id w in
             RedisClient._client s1 = Some c
             /\ events w1 = events w ++ [Connect Redis; RedisPing c]
             /\ r = match respond P (events w ++ [Connect Redis]) (RedisPing c) with
                    | inl _ => Ret c
                    | inr e => Raise e
                    end
             /\ forall w', RedisClient.client P s1 w' = (Ret c, s1, w')
         end
     end.
Proof.
  destruct self as [i [c|]];
    unfold RedisClient.client, bind, get, try_except, external_new, bind, put, fresh_id, log,
      throw, ret; simpl.
  - repeat split; reflexivity.
  - rewrite external_run.
    destruct (respond P (events w) (Connect Redis)) as [v|e] eqn:E; simpl.
    + rewrite external_run. simpl.
      destruct (respond P _ (RedisPing _)); simpl; rewrite <- app_assoc;
        repeat split; reflexivity.
    + repeat split; reflexivity.
Qed.

(** X15.  The property [client] of [MinIOClient] stores the client
    object before it asks whether the configured bucket exists.  When
    that question raises, the exception is raised again but the object is
    kept, and every later read returns it without asking.  A bucket that
    does not exist is no error: whatever the answer, the client is
    returned. *)
Theorem minio_client_keeps_an_untested_client (P : platform) (self : MinIOClient.t)
    (w : world) :
  let '(r, s1, w1) := MinIOClient.client P self w in
  let bucket := minio_bucket (settings P) in
  MinIOClient.id s1 = MinIOClient.id self
  /\ match MinIOClient._client self with
     | Some c => r = Ret c /\ s1 = self /\ w1 = w
     | None =>
         match respond P (events w) (Connect MinIO) with
         | inr e =>
             r = Raise e /\ s1 = self /\ events w1 = events w ++ [Connect MinIO]
         | inl _ =>
             let c := next_id w in
             MinIOClient._client s1 = Some c
             /\ events w1 = events w ++ [Connect MinIO; BucketExists c bucket]
             /\ r = match respond P (events w ++ [Connect MinIO]) (BucketExists c bucket) with
                    | inl _ => Ret c
                    | inr e => Raise e
                    end
             /\ forall w', MinIOClient.client P s1 w' = (Ret c, s1, w')
         end
     end.
Proof.
  destruct self as [i [c|]];
    unfold MinIOClient.client, bind, get, try_except, external_new, bind, put, fresh_id, log,
      throw, ret; simpl.
  - repeat split; reflexivity.
  - rewrite external_run.
    destruct (respond P (events w) (Connect MinIO)) as [v|e] eqn:E; simpl.
    + rewrite external_run. simpl.
      destruct (respond P _ (BucketExists _ _)); simpl; rewrite <- app_assoc;
        repeat split; reflexivity.
    + repeat split; reflexivity.
Qed.

(** X16.  [TrinoClient.execute_query] obtains the connection, then asks
    for a cursor, executes the query and fetches, and stops at the first
    of these calls that raises.  It returns what [fetchall] returned, and
    otherwise raises the exception it met, unchanged, after logging it and
    the query.  Nothing is closed or rolled back: the client is left in
    the state the connecting left it in. *)
Theorem trino_execute_query_stops_at_the_first_failure (P : platform) (query : string)
    (self : TrinoClient.t) (w : world) :
  let '(rc, s1, w1) := TrinoClient.conn P self w in
  let res := TrinoClient.execute_query P query self w in
  match rc with
  | Ret c =>
      let cursor := next_id w1 in
      let tried := attempt P (events w1)
                     [NewCursor Trino c; CursorExecute Trino cursor query None;
                      CursorFetchall Trino cursor] VNone in
      res.1.2 = s1
      /\ events res.2 = events w1 ++ tried.1
      /\ res.1.1 = match tried.2 with
                   | inl rows => match py_len rows with inl _ => Ret rows | inr e => Raise e end
                   | inr e => Raise e
                   end
  | Raise e => res.1 = (Raise e, s1) /\ events res.2 = events w1
  | Exit _ => False
  end
  /\ match res.1.1 with
     | Raise e =>
         exists earlier,
           logs res.2 = earlier ++ [(ERROR, "Query execution failed: " +:+ exn_msg e);
                                    (ERROR, "Query: " +:+ query)]
     | _ => True
     end.
Proof.
  destruct (TrinoClient.conn P self w) as [[rc s1] w1] eqn:Hc.
  assert (Hx : forall c, rc <> Exit c).
  { intros c ->. pose proof (trino_conn_run P self w) as H. rewrite Hc in H. exact H. }
  unfold TrinoClient.execute_query, try_except.
  rewrite (bind_run _ _ _ _ _ _ _ Hc).
  destruct rc as [c|e|c]; [| |exfalso; exact (Hx c eq_refl)].
  - unfold external_new, bind, fresh_id, log, throw, ret. simpl.
    rewrite external_run. simpl.
    destruct (respond P (events w1) (NewCursor Trino c)) as [v1|e1]; simpl.
    2:{ split; [repeat split; reflexivity|]. eexists. rewrite <- app_assoc. reflexivity. }
    rewrite external_run. simpl.
    destruct (respond P (events w1 ++ [NewCursor Trino c])
                (CursorExecute Trino (next_id w1) query None)) as [v2|e2]; simpl.
    2:{ rewrite <- !app_assoc. simpl.
        split; [repeat split; reflexivity|]. eexists. reflexivity. }
    rewrite external_run. simpl.
    destruct (respond P ((events w1 ++ [NewCursor Trino c])
                           ++ [CursorExecute Trino (next_id w1) query None])
                (CursorFetchall Trino (next_id w1))) as [v3|e3]; simpl.
    2:{ rewrite <- !app_assoc. simpl.
        split; [repeat split; reflexivity|]. eexists. reflexivity. }
    destruct (py_len v3) as [n|e4]; simpl; rewrite <- !app_assoc; simpl.
    + split; [repeat split; reflexivity|exact I].
    + split; [repeat split; reflexivity|]. eexists. reflexivity.
  - unfold bind, log, throw. simpl.
    split; [split; reflexivity|]. eexists. rewrite <- app_assoc. reflexivity.
Qed.

(** X17.  [close] of [TrinoClient] and of [PostgresClient] never raises.
    Without a connection it does nothing.  With one, it closes it; the
    client forgets the connection exactly when that call returned, and
    still holds it when the call raised, so that a second [close] tries
    again, while a second [close] after a successful one does nothing. *)
Theorem close_forgets_a_closed_connection_only (P : platform) :
  (forall (self : TrinoClient.t) (w : world),
     let '(r, s1, w1) := TrinoClient.close P self w in
     r = Ret tt
     /\ TrinoClient.id s1 = TrinoClient.id self
     /\ match TrinoClient._conn self with
        | None => s1 = self /\ w1 = w
        | Some c =>
            events w1 = events w ++ [ConnClose Trino c]
            /\ TrinoClient._conn s1 =
                 (if is_inl (respond P (events w) (ConnClose Trino c)) then None else Some c)
        end
     /\ (TrinoClient._conn s1 = None -> forall w', TrinoClient.close P s1 w' = (Ret tt, s1, w')))
  /\ (forall (self : PostgresClient.t) (w : world),
        let '(r, s1, w1) := PostgresClient.close P self w in
        r = Ret tt
        /\ PostgresClient.id s1 = PostgresClient.id self
        /\ match PostgresClient._conn self with
           | None => s1 = self /\ w1 = w
           | Some c =>
               events w1 = events w ++ [ConnClose Postgres c]
               /\ PostgresClient._conn s1 =
                    (if is_inl (respond P (events w) (ConnClose Postgres c)) then None else Some c)
           end
        /\ (PostgresClient._conn s1 = None ->
            forall w', PostgresClient.close P s1 w' = (Ret tt, s1, w'))).
Proof.
  split.
  - intros [i [c|]] w;
      unfold TrinoClient.close, bind, get, try_except, put, log, ret; simpl.
    + rewrite external_run.
      destruct (respond P (events w) (ConnClose Trino c)); simpl;
        repeat split; try reflexivity; discriminate.
    + repeat split; reflexivity.
  - intros [i [c|]] w;
      unfold PostgresClient.close, bind, get, try_except, put, log, ret; simpl.
    + rewrite external_run.
      destruct (respond P (events w) (ConnClose Postgres c)); simpl;
        repeat split; try reflexivity; discriminate.
    + repeat split; reflexivity.
Qed.

(** ** Console output *)

Section PrintsNothing.
Context {St : Type}.

Lemma prints_nothing_ret {A} (a : A) : prints_nothing (@ret St A a).
Proof. intros s w. reflexivity. Qed.
Lemma prints_nothing_throw {A} (e : exn) : prints_nothing (@throw St A e).
Proof. intros s w. reflexivity. Qed.
Lemma prints_nothing_sys_exit {A} c : prints_nothing (@sys_exit St A c).
Proof. intros s w. reflexivity. Qed.
Lemma prints_nothing_get : prints_nothing (@get St).
Proof. intros s w. reflexivity. Qed.
Lemma prints_nothing_put (s0 : St) : prints_nothing (put s0).
Proof. intros s w. reflexivity. Qed.
Lemma prints_nothing_log lv msg : prints_nothing (@log St lv msg).
Proof. intros s w. reflexivity. Qed.
Lemma prints_nothing_fresh_id : prints_nothing (@fresh_id St).
Proof. intros s w. reflexivity. Qed.
Lemma prints_nothing_note_constructed sv i : prints_nothing (@note_constructed St sv i).
Proof. intros s w. reflexivity. Qed.
Lemma prints_nothing_lift_result {A} (r : A + exn) : prints_nothing (@lift_result St A r).
Proof. intros s w. destruct r; reflexivity. Qed.
Lemma prints_nothing_external P c : prints_nothing (@external St P c).
Proof. intros s w. unfold external. destruct (respond P (events w) c); reflexivity. Qed.

Lemma prints_nothing_bind {A B} (m : M St A) (k : A -> M St B) :
  prints_nothing m -> (forall a, prints_nothing (k a)) -> prints_nothing (bind m k).
Proof.
  intros Hm Hk s w. unfold bind. specialize (Hm s w).
  destruct (m s w) as [[[a|e|c] s1] w1]; simpl in *; try exact Hm.
  rewrite (Hk a s1 w1). exact Hm.
Qed.

Lemma prints_nothing_try_except {A} (m : M St A) (h : exn -> M St A) :
  prints_nothing m -> (forall e, prints_nothing (h e)) -> prints_nothing (try_except m h).
Proof.
  intros Hm Hh s w. unfold try_except. specialize (Hm s w).
  destruct (m s w) as [[[a|e|c] s1] w1]; simpl in *; try exact Hm.
  rewrite (Hh e s1 w1). exact Hm.
Qed.

Lemma prints_nothing_zoom {T A} (proj : St -> T) (upd : T -> St -> St) (m : M T A) :
  (forall t w, console (m t w).2 = console w) -> prints_nothing (zoom proj upd m).
Proof.
  intros Hm s w. unfold zoom. specialize (Hm (proj s) w).
  destruct (m (proj s) w) as [[r t1] w1]. exact Hm.
Qed.

Lemma prints_nothing_external_new P c : prints_nothing (@external_new St P c).
Proof.
  unfold external_new. apply prints_nothing_bind; [apply prints_nothing_external|].
  intros _. apply prints_nothing_fresh_id.
Qed.

End PrintsNothing.

Create HintDb silent.
#[export] Hint Resolve prints_nothing_ret prints_nothing_throw prints_nothing_sys_exit
  prints_nothing_get prints_nothing_put prints_nothing_log prints_nothing_fresh_id
  prints_nothing_note_constructed prints_nothing_lift_result prints_nothing_external
  prints_nothing_external_new : silent.

Ltac prints_nothing_step :=
  first
    [ apply prints_nothing_bind; [| intros ?]
    | apply prints_nothing_try_except; [| intros ?]
    | apply prints_nothing_zoom; intros ? ?
    | match goal with
      | |- prints_nothing (match ?x with _ => _ end) => destruct x
      | |- console (?m ?s ?w).2 = console ?w =>
          revert s w; change (prints_nothing m)
      end ].

Ltac solve_prints_nothing :=
  repeat (first [ solve [auto with silent] | prints_nothing_step ]).

Lemma health_check_prints_nothing (P : platform) :
  prints_nothing (ClientManager.health_check P).
Proof.
  unfold ClientManager.health_check, ClientManager.check_trino, ClientManager.check_postgres,
    ClientManager.check_redis, ClientManager.check_minio, ClientManager.on_trino,
    ClientManager.on_postgres, ClientManager.on_redis, ClientManager.on_minio,
    ClientManager.trino, ClientManager.postgres, ClientManager.redis, ClientManager.minio,
    TrinoClient.init, PostgresClient.init, RedisClient.init, MinIOClient.init,
    TrinoClient.execute_query, PostgresClient.execute_query, PostgresClient.rollback,
    RedisClient.ping, MinIOClient.bucket_exists,
    TrinoClient.conn, PostgresClient.conn, RedisClient.client, MinIOClient.client.
  solve_prints_nothing.
Qed.

(** ** The manager's helpers and the commands built on them *)

Lemma close_all_run (P : platform) (self : ClientManager.t) (w : world) :
  exists w',
    ClientManager.close_all P self w = (Ret tt, no_clients, w')
    /\ events w' = events w ++ close_calls self
    /\ console w' = console w.
Proof.
  destruct self as [tr pg rd mn].
  unfold ClientManager.close_all, close_calls, no_clients.
  unfold bind, get, put, zoom, TrinoClient.close, PostgresClient.close,
    try_except, bind, get, put. simpl.
  destruct tr as [[ti [tc|]]|]; destruct pg as [[pi [pc|]]|];
    destruct rd as [rd|]; destruct mn as [mn|]; simpl;
    rewrite ?external_run; simpl;
    repeat match goal with
      | |- context [respond P ?evs ?c] => destruct (respond P evs c); simpl; rewrite ?external_run; simpl
      end;
    eexists; (split; [reflexivity|]); simpl; rewrite <- ?app_assoc, ?app_nil_r; split; reflexivity.
Qed.

Lemma health_check_run (P : platform) (self : ClientManager.t) (w : world) :
  let '(r1, s1, w1) := ClientManager.check_trino P self w in
  let '(r2, s2, w2) := ClientManager.check_postgres P s1 (after_probe "Trino" r1 w1) in
  let '(r3, s3, w3) := ClientManager.check_redis P s2 (after_probe "PostgreSQL" r2 w2) in
  let '(r4, s4, w4) := ClientManager.check_minio P s3 (after_probe "Redis" r3 w3) in
  exists w',
    ClientManager.health_check P self w
      = (Ret (health_report (is_ret r1) (is_ret r2) (is_ret r3) (is_ret r4)), s4, w')
    /\ events w' = events w4
    /\ constructed w' = constructed w4.
Proof.
  destruct (ClientManager.check_trino P self w) as [[r1 s1] w1] eqn:E1.
  destruct (ClientManager.check_postgres P s1 (after_probe "Trino" r1 w1))
    as [[r2 s2] w2] eqn:E2.
  destruct (ClientManager.check_redis P s2 (after_probe "PostgreSQL" r2 w2))
    as [[r3 s3] w3] eqn:E3.
  destruct (ClientManager.check_minio P s3 (after_probe "Redis" r3 w3))
    as [[r4 s4] w4] eqn:E4.
  unfold ClientManager.health_check.
  unfold bind at 1.
  rewrite (probe_run _ "trino" "Trino" ∅ _ _ _ _ _ (check_trino_no_exit P) E1).
  unfold bind at 1.
  rewrite (probe_run _ "postgres" "PostgreSQL" _ _ _ _ _ _ (check_postgres_no_exit P) E2).
  unfold bind at 1.
  rewrite (probe_run _ "redis" "Redis" _ _ _ _ _ _ (check_redis_no_exit P) E3).
  unfold bind at 1.
  rewrite (probe_run _ "minio" "MinIO" _ _ _ _ _ _ (check_minio_no_exit P) E4).
  unfold bind, log, ret. eexists. split; [reflexivity|].
  simpl. destruct r4; split; reflexivity.
Qed.

Lemma health_items_report b1 b2 b3 b4 :
  health_items (health_report b1 b2 b3 b4)
  = [("trino", b1); ("postgres", b2); ("redis", b3); ("minio", b4)].
Proof. reflexivity. Qed.

(** X18.  A [with ClientContext()] block: however its body ends, by
    returning, raising or [sys.exit], [close_all] runs after it, the
    manager is left without any client, and the body's outcome is passed
    on unchanged; the only calls added are the [close] of the connections
    the Trino and PostgreSQL clients held when the body ended. *)
Theorem client_context_always_closes {A : Type} (P : platform)
    (body : M ClientManager.t A) (self : ClientManager.t) (w : world) :
  let '(r, s1, w1) := body self w in
  exists w2,
    clients.ClientContext P body self w = (r, no_clients, w2)
    /\ events w2 = events w1 ++ close_calls s1
    /\ console w2 = console w1.
Proof.
  destruct (body self w) as [[r s1] w1] eqn:E.
  destruct (close_all_run P s1 w1) as (w2 & Hc & Hev & Hco).
  exists w2. unfold clients.ClientContext, try_finally. rewrite E, Hc. auto.
Qed.

(** The summary line of the health check command. *)
Lemma healthy_count_four b1 b2 b3 b4 :
  let items := [("trino", b1); ("postgres", b2); ("redis", b3); ("minio", b4)] in
  (healthy_count items =? Z.of_nat (List.length items))%Z = b1 && b2 && b3 && b4.
Proof. destruct b1, b2, b3, b4; reflexivity. Qed.

(** X19.  The command [health_check] always returns: the manager's
    [health_check] cannot raise, so the branch that prints a failure and
    exits with status 1 is never taken, not even when every service is
    down.  It prints the title, a table with one row for each of trino,
    postgres, redis and minio, in that order, and a summary: that all
    services are healthy when the four probes returned, and the number of
    healthy ones out of four otherwise. *)
Theorem health_check_command_always_returns (P : platform) (self : ClientManager.t)
    (w : world) :
  let w0 := printed (panel "🏥 Service Health Check") w in
  exists b1 b2 b3 b4 s1 w1 w2,
    ClientManager.health_check P self w0 = (Ret (health_report b1 b2 b3 b4), s1, w1)
    /\ cli.health_check_command P self w = (Ret tt, s1, w2)
    /\ events w2 = events w1
    /\ let status (b : bool) := if b then "✅ Healthy" else "❌ Unhealthy" in
       let healthy := healthy_count [("trino", b1); ("postgres", b2); ("redis", b3); ("minio", b4)] in
       console w2 =
         console w ++
           [panel "🏥 Service Health Check";
            cli.table_text ["Service"; "Status"; "Endpoint"]
              [["Trino"; status b1;
                host_port (trino_host (settings P)) (trino_port (settings P))];
               ["Postgres"; status b2;
                host_port (postgres_host (settings P)) (postgres_port (settings P))];
               ["Redis"; status b3;
                host_port (redis_host (settings P)) (redis_port (settings P))];
               ["Minio"; status b4; minio_endpoint (settings P)]];
            if b1 && b2 && b3 && b4
            then nl +:+ "✅ All services are healthy (4/4)"
            else nl +:+ "⚠️  " +:+ str_int healthy +:+ "/4 services are healthy"].
Proof.
  intros w0.
  pose proof (health_check_run P self w0) as Hrun.
  pose proof (health_check_prints_nothing P self w0) as Hsilent.
  destruct (ClientManager.check_trino P self w0) as [[r1 s1] w1].
  destruct (ClientManager.check_postgres P s1 _) as [[r2 s2] w2].
  destruct (ClientManager.check_redis P s2 _) as [[r3 s3] w3].
  destruct (ClientManager.check_minio P s3 _) as [[r4 s4] w4].
  destruct Hrun as (w' & Hrun & Hev & _).
  rewrite Hrun in Hsilent. simpl in Hsilent.
  exists (is_ret r1), (is_ret r2), (is_ret r3), (is_ret r4), s4, w'.
  set (items := [("trino", is_ret r1); ("postgres", is_ret r2);
                 ("redis", is_ret r3); ("minio", is_ret r4)]).
  exists (printed
            (if is_ret r1 && is_ret r2 && is_ret r3 && is_ret r4
             then nl +:+ "✅ All services are healthy (" +:+ str_int (healthy_count items)
                  +:+ "/" +:+ str_int (Z.of_nat (List.length items)) +:+ ")"
             else nl +:+ "⚠️  " +:+ str_int (healthy_count items) +:+ "/"
                  +:+ str_int (Z.of_nat (List.length items)) +:+ " services are healthy")
            (printed
               (cli.table_text ["Service"; "Status"; "Endpoint"]
                  (map (fun kv : string * bool =>
                          [title kv.1; if kv.2 then "✅ Healthy" else "❌ Unhealthy";
                           cli.lookup_or kv.1 (cli.services_info P) "N/A"]) items))
               w')).
  split; [exact Hrun|].
  split.
  { unfold cli.health_check_command, cli.health_check, try_except.
    unfold bind at 1. unfold console_print at 1.
    fold (printed (panel "🏥 Service Health Check") w). fold w0.
    rewrite (bind_run _ _ _ _ _ _ _ Hrun).
    rewrite health_items_report. cbv zeta.
    unfold bind at 1. unfold console_print at 1.
    pose proof (healthy_count_four (is_ret r1) (is_ret r2) (is_ret r3) (is_ret r4)) as Hfour.
    cbv zeta in Hfour. rewrite Hfour.
    destruct (is_ret r1 && is_ret r2 && is_ret r3 && is_ret r4); reflexivity. }
  split; [reflexivity|].
  unfold printed. simpl console. rewrite Hsilent. rewrite <- !app_assoc.
  destruct (is_ret r1 && is_ret r2 && is_ret r3 && is_ret r4) eqn:Hall.
  - apply andb_prop in Hall as [Hall H4]. apply andb_prop in Hall as [Hall H3].
    apply andb_prop in Hall as [H1 H2]. subst items. rewrite H1, H2, H3, H4. reflexivity.
  - reflexivity.
Qed.

Lemma close_all_logs (P : platform) (self : ClientManager.t) (w : world) :
  exists rest, logs (ClientManager.close_all P self w).2 = logs w ++ rest.
Proof.
  destruct self as [tr pg rd mn].
  unfold ClientManager.close_all.
  unfold bind, get, put, zoom, TrinoClient.close, PostgresClient.close,
    try_except, bind, get, put. simpl.
  destruct tr as [[ti [tc|]]|]; destruct pg as [[pi [pc|]]|];
    destruct rd as [rd|]; destruct mn as [mn|]; simpl;
    rewrite ?external_run; simpl;
    repeat match goal with
      | |- context [respond P ?evs ?c] => destruct (respond P evs c); simpl; rewrite ?external_run; simpl
      end;
    rewrite <- ?app_assoc; eexists; reflexivity.
Qed.

Lemma report_run {St} (b1 b2 b3 b4 : bool) (s : St) (w : world) :
  let status (b : bool) := if b then "✓ HEALTHY" else "✗ FAILED" in
  test_connection.report [("trino", b1); ("postgres", b2); ("redis", b3); ("minio", b4)] true s w
  = (Ret (b1 && b2 && b3 && b4), s,
     logged INFO ("  MINIO: " +:+ status b4)
       (logged INFO ("  REDIS: " +:+ status b3)
          (logged INFO ("  POSTGRES: " +:+ status b2)
             (logged INFO ("  TRINO: " +:+ status b1) w)))).
Proof. destruct b1, b2, b3, b4; reflexivity. Qed.

Lemma test_connections_run (P : platform) (s : ClientManager.t) (w : world) :
  let w0 := logged INFO "ClientManager initialized"
              (logged INFO "Testing service connections..." w) in
  let status (b : bool) := if b then "✓ HEALTHY" else "✗ FAILED" in
  exists b1 b2 b3 b4 s1 w1 w2 rest,
    ClientManager.health_check P no_clients w0 = (Ret (health_report b1 b2 b3 b4), s1, w1)
    /\ test_connection.test_connections P s w = (Ret (b1 && b2 && b3 && b4), no_clients, w2)
    /\ events w2 = events w1 ++ close_calls s1
    /\ logs w2 =
         logs w1 ++
           [(INFO, "=== Connection Test Results ===");
            (INFO, "  TRINO: " +:+ status b1);
            (INFO, "  POSTGRES: " +:+ status b2);
            (INFO, "  REDIS: " +:+ status b3);
            (INFO, "  MINIO: " +:+ status b4);
            if b1 && b2 && b3 && b4
            then (SUCCESS, "All services are healthy!")
            else (ERROR, "Some services are not healthy")]
           ++ rest.
Proof.
  intros w0 status.
  pose proof (health_check_run P no_clients w0) as Hrun.
  destruct (ClientManager.check_trino P no_clients w0) as [[r1 s1] w1].
  destruct (ClientManager.check_postgres P s1 _) as [[r2 s2] w2].
  destruct (ClientManager.check_redis P s2 _) as [[r3 s3] w3].
  destruct (ClientManager.check_minio P s3 _) as [[r4 s4] w4].
  destruct Hrun as (w' & Hrun & Hev & _).
  set (b := is_ret r1 && is_ret r2 && is_ret r3 && is_ret r4).
  set (wr := logged (if b then SUCCESS else ERROR)
               (if b then "All services are healthy!" else "Some services are not healthy")
               (logged INFO ("  MINIO: " +:+ status (is_ret r4))
                  (logged INFO ("  REDIS: " +:+ status (is_ret r3))
                     (logged INFO ("  POSTGRES: " +:+ status (is_ret r2))
                        (logged INFO ("  TRINO: " +:+ status (is_ret r1))
                           (logged INFO "=== Connection Test Results ===" w')))))).
  assert (Hbody :
    try_except
      (health_results <- ClientManager.health_check P ;;
       log INFO "=== Connection Test Results ===" ;;
       all_healthy <- test_connection.report (health_items health_results) true ;;
       if all_healthy : bool then
         log SUCCESS "All services are healthy!" ;; ret true
       else
         log ERROR "Some services are not healthy" ;; ret false)
      (fun e => log ERROR ("Connection test failed: " +:+ exn_msg e) ;; ret false)
      no_clients w0 = (Ret b, s4, wr)).
  { unfold try_except. rewrite (bind_run _ _ _ _ _ _ _ Hrun).
    rewrite health_items_report.
    unfold bind at 1. unfold log at 1.
    fold (logged INFO "=== Connection Test Results ===" w').
    rewrite (bind_run _ _ _ _ _ _ _ (report_run _ _ _ _ _ _)).
    fold b. subst wr. destruct b; reflexivity. }
  destruct (close_all_run P s4 wr) as (w5 & Hclose & Hev5 & _).
  destruct (close_all_logs P s4 wr) as (rest & Hlogs). rewrite Hclose in Hlogs. simpl in Hlogs.
  exists (is_ret r1), (is_ret r2), (is_ret r3), (is_ret r4), s4, w', w5, rest.
  split; [exact Hrun|]. split.
  { unfold test_connection.test_connections, ClientManager.init.
    unfold bind at 1. unfold log at 1. unfold bind at 1. unfold bind at 1. unfold log at 1.
    unfold ret at 1. unfold bind at 1. unfold put at 1.
    unfold try_finally.
    fold (logged INFO "Testing service connections..." w).
    fold (logged INFO "ClientManager initialized"
            (logged INFO "Testing service connections..." w)).
    fold w0. fold no_clients. rewrite Hbody, Hclose. reflexivity. }
  split.
  { rewrite Hev5. subst wr. destruct b; reflexivity. }
  rewrite Hlogs. subst wr. fold b. destruct b; simpl; rewrite <- !app_assoc; reflexivity.
Qed.

(** X20.  [test_connections] builds a manager of its own, runs the
    health check on it and always returns a boolean: [True] exactly when
    all four probes returned.  It logs one line for each service, in the
    order trino, postgres, redis, minio, with the name in capitals, and
    the verdict.  Before it returns, [close_all] has run: the manager
    holds no client any more, and the connections opened for the check
    were closed. *)
Theorem test_connections_reports_and_cleans_up (P : platform) (s : ClientManager.t)
    (w : world) :
  let w0 := logged INFO "ClientManager initialized"
              (logged INFO "Testing service connections..." w) in
  let status (b : bool) := if b then "✓ HEALTHY" else "✗ FAILED" in
  exists b1 b2 b3 b4 s1 w1 w2 rest,
    ClientManager.health_check P no_clients w0 = (Ret (health_report b1 b2 b3 b4), s1, w1)
    /\ test_connection.test_connections P s w = (Ret (b1 && b2 && b3 && b4), no_clients, w2)
    /\ events w2 = events w1 ++ close_calls s1
    /\ logs w2 =
         logs w1 ++
           [(INFO, "=== Connection Test Results ===");
            (INFO, "  TRINO: " +:+ status b1);
            (INFO, "  POSTGRES: " +:+ status b2);
            (INFO, "  REDIS: " +:+ status b3);
            (INFO, "  MINIO: " +:+ status b4);
            if b1 && b2 && b3 && b4
            then (SUCCESS, "All services are healthy!")
            else (ERROR, "Some services are not healthy")]
           ++ rest.
Proof. exact (test_connections_run P s w). Qed.

(** X21.  [main] of [test_connection.py] never returns normally: it
    ends in [sys.exit(0)] when all four probes of the health check
    returned, and in [sys.exit(1)] otherwise. *)
Theorem test_connection_exit_status (P : platform) (s : ClientManager.t) (w : world) :
  let w0 := logged INFO "ClientManager initialized"
              (logged INFO "Testing service connections..."
                 (logged INFO "Starting connection test" w)) in
  exists b1 b2 b3 b4 s1 w1 w2,
    ClientManager.health_check P no_clients w0 = (Ret (health_report b1 b2 b3 b4), s1, w1)
    /\ test_connection.main P s w
       = (Exit (if b1 && b2 && b3 && b4 then 0 else 1), no_clients, w2)
    /\ events w2 = events w1 ++ close_calls s1.
Proof.
  intros w0.
  destruct (test_connections_run P s (logged INFO "Starting connection test" w))
    as (b1 & b2 & b3 & b4 & s1 & w1 & w2 & rest & Hh & Ht & Hev & _).
  exists b1, b2, b3, b4, s1, w1.
  unfold test_connection.main.
  unfold bind at 1. unfold log at 1. fold (logged INFO "Starting connection test" w).
  rewrite (bind_run _ _ _ _ _ _ _ Ht).
  destruct (b1 && b2 && b3 && b4); eexists; (split; [exact Hh|]);
    (split; [reflexivity|exact Hev]).
Qed.

(** X22.  The packaged entry point [ingest_command] passes no source and
    no target, so it can only fail: it prints the title, the error and
    the example, and ends in [sys.exit(1)], without any external call. *)
Theorem ingest_command_always_exits {St : Type} (s : St) (w : world) :
  exists w',
    ingest_command s w = (Exit 1, s, w')
    /\ events w' = events w
    /\ console w' =
         console w ++
           [panel "🚀 Data Ingestion";
            "❌ Please specify both --source and --target";
            "Example: lakehouse-ingest --source=csv --target=my_table"].
Proof.
  eexists. unfold ingest_command, ingest, bind, console_print, sys_exit. simpl.
  split; [reflexivity|]. split; [reflexivity|]. simpl. rewrite <- !app_assoc. reflexivity.
Qed.

(** ** The object store client: transfers *)

(** A method of [MinIOClient] that reads the client, makes one call on
    it, and raises again what it met. *)
Lemma minio_one_call (P : platform) (mk : nat -> call) (done : string)
    (failed : exn -> string) (self : MinIOClient.t) (w : world) :
  let '(rc, s1, w1) := MinIOClient.client P self w in
  let res :=
    try_except
      (c <- MinIOClient.client P ;; external P (mk c) ;; log INFO done)
      (fun e => log ERROR (failed e) ;; throw e) self w in
  match rc with
  | Ret c =>
      res.1.2 = s1
      /\ events res.2 = events w1 ++ [mk c]
      /\ res.1.1 = match respond P (events w1) (mk c) with
                   | inl _ => Ret tt
                   | inr e => Raise e
                   end
  | Raise e => res.1 = (Raise e, s1) /\ events res.2 = events w1
  | Exit _ => False
  end.
Proof.
  destruct (MinIOClient.client P self w) as [[rc s1] w1] eqn:Hc.
  unfold try_except. rewrite (bind_run _ _ _ _ _ _ _ Hc).
  destruct rc as [c|e|c].
  - unfold bind. rewrite external_run.
    destruct (respond P (events w1) (mk c)); simpl; repeat split; reflexivity.
  - unfold bind, log, throw. simpl. split; reflexivity.
  - apply (minio_client_no_exit P self w c). rewrite Hc. reflexivity.
Qed.

(** X23.  [upload_file], [download_file] and [delete_object] of
    [MinIOClient] read the client and make one call on it, in the bucket
    given or, when none or an empty name is given, in the configured one.
    Unlike [object_exists], they swallow nothing: what the call raises,
    or what obtaining the client raised, is raised again unchanged. *)
Theorem minio_transfers_make_one_call (P : platform) (file_path object_name : string)
    (bucket : option string) (self : MinIOClient.t) (w : world) :
  let '(rc, s1, w1) := MinIOClient.client P self w in
  let b := match bucket with
           | Some name => if String.eqb name "" then minio_bucket (settings P) else name
           | None => minio_bucket (settings P)
           end in
  let one_call (res : outcome unit * MinIOClient.t * world) (mk : nat -> call) :=
    match rc with
    | Ret c =>
        res.1.2 = s1
        /\ events res.2 = events w1 ++ [mk c]
        /\ res.1.1 = match respond P (events w1) (mk c) with
                     | inl _ => Ret tt
                     | inr e => Raise e
                     end
    | Raise e => res.1 = (Raise e, s1) /\ events res.2 = events w1
    | Exit _ => False
    end in
  one_call (MinIOClient.upload_file P file_path object_name bucket self w)
           (fun c => FputObject c b object_name file_path)
  /\ one_call (MinIOClient.download_file P object_name file_path bucket self w)
              (fun c => FgetObject c b object_name file_path)
  /\ one_call (MinIOClient.delete_object P object_name bucket self w)
              (fun c => RemoveObject c b object_name).
Proof.
  pose proof (fun mk done failed => minio_one_call P mk done failed self w) as H.
  destruct (MinIOClient.client P self w) as [[rc s1] w1].
  cbv zeta. split; [|split].
  - apply (H (fun c => FputObject c (MinIOClient.bucket_or_default P bucket) object_name file_path)
             _ (fun e => _)).
  - apply (H (fun c => FgetObject c (MinIOClient.bucket_or_default P bucket) object_name file_path)
             _ (fun e => _)).
  - apply (H (fun c => RemoveObject c (MinIOClient.bucket_or_default P bucket) object_name)
             _ (fun e => _)).
Qed.

(** ** The Trino client: results with their columns *)

Lemma first_items_run {St} (l : list pyval) (s : St) (w : world) :
  (fix go (l : list pyval) : M St (list pyval) :=
     match l with
     | [] => ret []
     | r :: l' => x <- lift_result (py_first r) ;; xs <- go l' ;; ret (x :: xs)
     end) l s w
  = map_m (fun r => lift_result (py_first r)) l s w.
Proof.
  revert s w. induction l as [|r l IH]; intros s w; [reflexivity|].
  simpl. unfold bind. destruct (lift_result (py_first r) s w) as [[[x|e|c] s1] w1]; try reflexivity.
  rewrite IH. reflexivity.
Qed.

Lemma trino_execute_query_no_exit (P : platform) query :
  no_exit (TrinoClient.execute_query P query).
Proof. unfold TrinoClient.execute_query, TrinoClient.conn. solve_no_exit. Qed.

(** X24.  [show_tables] runs the query SHOW TABLES through
    [execute_query], with the same calls and the same effect on the
    client, and raises what that raised.  When it returns, it returns a
    list with one entry for each row of the result, the row's first item;
    a row without a first item makes it raise instead. *)
Theorem show_tables_takes_the_first_column (P : platform) (self : TrinoClient.t) (w : world) :
  let '(rq, s1, w1) := TrinoClient.execute_query P "SHOW TABLES" self w in
  let res := TrinoClient.show_tables P self w in
  res.1.2 = s1
  /\ res.2 = w1
  /\ match rq with
     | Ret result =>
         match res.1.1 with
         | Ret v =>
             exists rows names,
               py_iter result = inl rows
               /\ v = VList names
               /\ Forall2 (fun row name => py_first row = inl name) rows names
         | Raise e =>
             py_iter result = inr e
             \/ exists rows, py_iter result = inl rows
                             /\ forall names,
                                  ~ Forall2 (fun row name => py_first row = inl name) rows names
         | Exit _ => False
         end
     | Raise e => res.1.1 = Raise e
     | Exit _ => False
     end.
Proof.
  destruct (TrinoClient.execute_query P "SHOW TABLES" self w) as [[rq s1] w1] eqn:Hq.
  intros res.
  destruct rq as [result|e|c].
  - destruct (py_iter result) as [rows|e] eqn:Hi.
    + destruct (map_m_lift py_first rows s1 w1) as [(xs & Hm & Hall)|(e & Hm & Hno)].
      * assert (Hres : res = (Ret (VList xs), s1, w1)).
        { subst res. unfold TrinoClient.show_tables. rewrite (bind_run _ _ _ _ _ _ _ Hq).
          unfold bind at 1. rewrite Hi. simpl. unfold bind at 1.
          rewrite first_items_run, Hm. reflexivity. }
        rewrite Hres. simpl. split; [reflexivity|]. split; [reflexivity|].
        exists rows, xs. auto.
      * assert (Hres : res = (Raise e, s1, w1)).
        { subst res. unfold TrinoClient.show_tables. rewrite (bind_run _ _ _ _ _ _ _ Hq).
          unfold bind at 1. rewrite Hi. simpl. unfold bind at 1.
          rewrite first_items_run, Hm. reflexivity. }
        rewrite Hres. simpl. split; [reflexivity|]. split; [reflexivity|].
        right. exists rows. auto.
    + assert (Hres : res = (Raise e, s1, w1)).
      { subst res. unfold TrinoClient.show_tables. rewrite (bind_run _ _ _ _ _ _ _ Hq).
        unfold bind at 1. rewrite Hi. reflexivity. }
      rewrite Hres. simpl. split; [reflexivity|]. split; [reflexivity|]. left. reflexivity.
  - assert (Hres : res = (Raise e, s1, w1)).
    { subst res. unfold TrinoClient.show_tables. rewrite (bind_run _ _ _ _ _ _ _ Hq).
      reflexivity. }
    rewrite Hres. simpl. split; [reflexivity|]. split; reflexivity.
  - exfalso. apply (trino_execute_query_no_exit P "SHOW TABLES" self w c).
    rewrite Hq. reflexivity.
Qed.

Lemma column_names_run (d : pyval) (s : TrinoClient.t) (w : world) :
  TrinoClient.column_names d s w =
    match py_iter d with
    | inl entries => map_m (fun r => lift_result (py_first r)) entries s w
    | inr e => (Raise e, s, w)
    end.
Proof.
  unfold TrinoClient.column_names. unfold bind at 1.
  destruct (py_iter d) as [entries|e]; [|reflexivity]. simpl. apply first_items_run.
Qed.

Lemma execute_with_description_run (P : platform) (query : string)
    (self : TrinoClient.t) (w : world) c s1 w1 :
  TrinoClient.conn P self w = (Ret c, s1, w1) ->
  let cursor := next_id w1 in
  let start := [NewCursor Trino c; CursorExecute Trino cursor query None] in
  exists r wf,
    TrinoClient.execute_with_description P query self w = (r, s1, wf)
    /\ match r with
       | Ret v =>
           exists d rows cols,
             v = VDict [("columns", VList cols); ("data", rows)]
             /\ respond P (events w1 ++ start) (CursorDescription cursor) = inl d
             /\ events wf =
                  events w1 ++ start ++ [CursorDescription cursor]
                    ++ (if py_truthy d then [CursorDescription cursor] else [])
                    ++ [CursorFetchall Trino cursor]
             /\ (if py_truthy d
                 then exists d' entries,
                        respond P (events w1 ++ start ++ [CursorDescription cursor])
                          (CursorDescription cursor) = inl d'
                        /\ py_iter d' = inl entries
                        /\ Forall2 (fun entry col => py_first entry = inl col) entries cols
                 else cols = [])
       | Raise e =>
           exists earlier,
             logs wf = earlier ++
                         [(ERROR, "Query execution with description failed: " +:+ exn_msg e)]
       | Exit _ => False
       end.
Proof.
  intros Hc cursor start. subst cursor start.
  unfold TrinoClient.execute_with_description, try_except.
  rewrite (bind_run _ _ _ _ _ _ _ Hc).
  unfold external_new. unfold bind at 1. unfold bind at 1. rewrite external_run.
  destruct (respond P (events w1) (NewCursor Trino c)) as [v1|e1].
  2:{ do 2 eexists. split; [reflexivity|]. eexists. reflexivity. }
  unfold fresh_id at 1. simpl next_id. unfold bind at 1. rewrite external_run. simpl events.
  destruct (respond P (events w1 ++ [NewCursor Trino c])
              (CursorExecute Trino (next_id w1) query None)) as [v2|e2].
  2:{ do 2 eexists. split; [reflexivity|]. eexists. reflexivity. }
  unfold bind at 1. rewrite external_run. simpl events. rewrite <- !app_assoc. simpl app.
  destruct (respond P (events w1 ++ [NewCursor Trino c; CursorExecute Trino (next_id w1) query None])
              (CursorDescription (next_id w1))) as [d|e3] eqn:Hd.
  2:{ do 2 eexists. split; [reflexivity|]. eexists. reflexivity. }
  unfold bind at 1.
  destruct (py_truthy d) eqn:Ht.
  - (* the description is read again *)
    unfold bind at 1. rewrite external_run. simpl events. rewrite <- !app_assoc. simpl app.
    destruct (respond P (events w1 ++ [NewCursor Trino c;
                                       CursorExecute Trino (next_id w1) query None;
                                       CursorDescription (next_id w1)])
                (CursorDescription (next_id w1))) as [d'|e4] eqn:Hd'.
    2:{ do 2 eexists. split; [reflexivity|]. eexists. reflexivity. }
    rewrite column_names_run.
    destruct (py_iter d') as [entries|e5] eqn:Hi.
    2:{ do 2 eexists. split; [reflexivity|]. eexists. reflexivity. }
    match goal with
    | |- context [map_m _ entries s1 ?w2] =>
        destruct (map_m_lift py_first entries s1 w2) as [(cols & -> & Hall)|(e6 & -> & _)]
    end.
    2:{ do 2 eexists. split; [reflexivity|]. eexists. reflexivity. }
    unfold bind at 1. rewrite external_run. simpl events. rewrite <- !app_assoc. simpl app.
    destruct (respond P _ (CursorFetchall Trino (next_id w1))) as [rows|e7].
    2:{ do 2 eexists. split; [reflexivity|]. eexists. reflexivity. }
    unfold bind at 1. destruct (py_len rows) as [n|e8].
    2:{ do 2 eexists. split; [reflexivity|]. eexists. reflexivity. }
    do 2 eexists. split; [reflexivity|].
    exists d, rows, cols. rewrite Ht. split; [reflexivity|]. split; [reflexivity|].
    split; [simpl; rewrite <- ?app_assoc; reflexivity|]. exists d', entries.
    split; [reflexivity|]. split; [exact Hi|exact Hall].
  - unfold ret at 1. unfold bind at 1. rewrite external_run. simpl events.
    rewrite <- !app_assoc. simpl app.
    destruct (respond P _ (CursorFetchall Trino (next_id w1))) as [rows|e7].
    2:{ do 2 eexists. split; [reflexivity|]. eexists. reflexivity. }
    unfold bind at 1. destruct (py_len rows) as [n|e8].
    2:{ do 2 eexists. split; [reflexivity|]. eexists. reflexivity. }
    do 2 eexists. split; [reflexivity|].
    exists d, rows, []. rewrite Ht. split; [reflexivity|]. split; [reflexivity|].
    split; [simpl; rewrite <- ?app_assoc; reflexivity|reflexivity].
Qed.

(** X25.  [TrinoClient.execute_with_description], once the connection is
    there, asks for a cursor, executes the query and reads the cursor's
    description.  When the description is empty or [None] the columns are
    the empty list and the description is not read again; otherwise it is
    read a second time, and the columns are the first items of the entries
    of that second reading.  Then the rows are fetched.  When it returns,
    the value is a dictionary with exactly the entries [columns] and
    [data], in that order; whatever raised on the way is logged and raised
    again, and the client is left as the connecting left it. *)
Theorem execute_with_description_reads_the_columns (P : platform) (query : string)
    (self : TrinoClient.t) (w : world) :
  let '(rc, s1, w1) := TrinoClient.conn P self w in
  let res := TrinoClient.execute_with_description P query self w in
  match rc with
  | Ret c =>
      let cursor := next_id w1 in
      let start := [NewCursor Trino c; CursorExecute Trino cursor query None] in
      res.1.2 = s1
      /\ match res.1.1 with
         | Ret v =>
             exists d rows cols,
               v = VDict [("columns", VList cols); ("data", rows)]
               /\ respond P (events w1 ++ start) (CursorDescription cursor) = inl d
               /\ events res.2 =
                    events w1 ++ start ++ [CursorDescription cursor]
                      ++ (if py_truthy d then [CursorDescription cursor] else [])
                      ++ [CursorFetchall Trino cursor]
               /\ (if py_truthy d
                   then exists d' entries,
                          respond P (events w1 ++ start ++ [CursorDescription cursor])
                            (CursorDescription cursor) = inl d'
                          /\ py_iter d' = inl entries
                          /\ Forall2 (fun entry col => py_first entry = inl col) entries cols
                   else cols = [])
         | Raise e =>
             exists earlier,
               logs res.2 = earlier ++
                 [(ERROR, "Query execution with description failed: " +:+ exn_msg e)]
         | Exit _ => False
         end
  | Raise e => res.1 = (Raise e, s1) /\ events res.2 = events w1
  | Exit _ => False
  end.
Proof.
  destruct (TrinoClient.conn P self w) as [[rc s1] w1] eqn:Hc.
  intros res. destruct rc as [c|e|c].
  - destruct (execute_with_description_run P query self w c s1 w1 Hc) as (r & wf & Hres & H).
    subst res. rewrite Hres. simpl. split; [reflexivity|exact H].
  - subst res. unfold TrinoClient.execute_with_description, try_except.
    rewrite (bind_run _ _ _ _ _ _ _ Hc). split; reflexivity.
  - pose proof (trino_conn_run P self w) as H. rewrite Hc in H. exact H.
Qed.

(** ** The health check and the clients it leaves behind *)

(** Run a client method by hand, splitting on every answer of the
    platform. *)
Ltac run_every_call P :=
  simpl; rewrite ?external_run; simpl;
  repeat first
    [ match goal with
      | |- context [respond P ?evs ?c] =>
          destruct (respond P evs c); simpl; rewrite ?external_run; simpl
      end
    | match goal with
      | |- context [py_len ?v] => destruct (py_len v); simpl; rewrite ?external_run; simpl
      end ].

Lemma trino_query_keeps (P : platform) query (c : TrinoClient.t) (w : world) :
  TrinoClient.id (TrinoClient.execute_query P query c w).1.2 = TrinoClient.id c
  /\ constructed (TrinoClient.execute_query P query c w).2 = constructed w.
Proof.
  destruct c as [i [h|]];
    unfold TrinoClient.execute_query, TrinoClient.conn, try_except, external_new, bind, get,
      put, fresh_id, log, throw, ret;
    run_every_call P; split; reflexivity.
Qed.

Lemma postgres_query_keeps (P : platform) query params (c : PostgresClient.t) (w : world) :
  PostgresClient.id (PostgresClient.execute_query P query params c w).1.2 = PostgresClient.id c
  /\ constructed (PostgresClient.execute_query P query params c w).2 = constructed w.
Proof.
  destruct c as [i [h|]];
    unfold PostgresClient.execute_query, PostgresClient.rollback, PostgresClient.conn,
      try_except, external_new, bind, get, put, fresh_id, log, throw, ret;
    run_every_call P; split; reflexivity.
Qed.

Lemma redis_ping_keeps (P : platform) (c : RedisClient.t) (w : world) :
  RedisClient.id (RedisClient.ping P c w).1.2 = RedisClient.id c
  /\ constructed (RedisClient.ping P c w).2 = constructed w.
Proof.
  destruct c as [i [h|]];
    unfold RedisClient.ping, RedisClient.client, try_except, external_new, bind, get,
      put, fresh_id, log, throw, ret;
    run_every_call P; split; reflexivity.
Qed.

Lemma minio_bucket_exists_keeps (P : platform) bucket (c : MinIOClient.t) (w : world) :
  MinIOClient.id (MinIOClient.bucket_exists P bucket c w).1.2 = MinIOClient.id c
  /\ constructed (MinIOClient.bucket_exists P bucket c w).2 = constructed w.
Proof.
  destruct c as [i [h|]];
    unfold MinIOClient.bucket_exists, MinIOClient.client, try_except, external_new, bind, get,
      put, fresh_id, log, throw, ret;
    run_every_call P; split; reflexivity.
Qed.

Section ProbeCache.
Context (P : platform).

Ltac others_kept := intros [] H; try reflexivity; congruence.

Lemma check_trino_cache (s : ClientManager.t) (w : world) :
  let res := ClientManager.check_trino P s w in
  (forall sv, sv <> Trino -> cached res.1.2 sv = cached s sv)
  /\ cached res.1.2 Trino = held_after P s w Trino
  /\ constructed res.2 = constructed w ++ newly_built P s w Trino.
Proof.
  destruct s as [tr pg rd mn]. unfold held_after, newly_built. simpl cached.
  unfold ClientManager.check_trino, ClientManager.on_trino, ClientManager.trino.
  destruct tr as [c|].
  - unfold bind, get, zoom, ret. simpl.
    pose proof (trino_query_keeps P "SELECT 1" c w) as [Hid Hc].
    destruct (TrinoClient.execute_query P "SELECT 1" c w) as [[r c'] w1]. simpl in *.
    destruct r; simpl; (split; [others_kept|]); rewrite Hid, Hc, app_nil_r; split; reflexivity.
  - unfold TrinoClient.init. destruct (installed P Trino) eqn:Hi.
    + unfold bind, get, put, zoom, ret, fresh_id, note_constructed, log. simpl.
      match goal with
      | |- context [TrinoClient.execute_query P "SELECT 1" ?c ?w0] =>
          pose proof (trino_query_keeps P "SELECT 1" c w0) as [Hid Hc];
          destruct (TrinoClient.execute_query P "SELECT 1" c w0) as [[r c'] w1]
      end. simpl in *.
      destruct r; simpl; (split; [others_kept|]); rewrite Hid, Hc; split; reflexivity.
    + unfold bind, get, throw. simpl. split; [others_kept|].
      rewrite app_nil_r. split; reflexivity.
Qed.

Lemma check_postgres_cache (s : ClientManager.t) (w : world) :
  let res := ClientManager.check_postgres P s w in
  (forall sv, sv <> Postgres -> cached res.1.2 sv = cached s sv)
  /\ cached res.1.2 Postgres = held_after P s w Postgres
  /\ constructed res.2 = constructed w ++ newly_built P s w Postgres.
Proof.
  destruct s as [tr pg rd mn]. unfold held_after, newly_built. simpl cached.
  unfold ClientManager.check_postgres, ClientManager.on_postgres, ClientManager.postgres.
  destruct pg as [c|].
  - unfold bind, get, zoom, ret. simpl.
    pose proof (postgres_query_keeps P "SELECT 1" None c w) as [Hid Hc].
    destruct (PostgresClient.execute_query P "SELECT 1" None c w) as [[r c'] w1]. simpl in *.
    destruct r; simpl; (split; [others_kept|]); rewrite Hid, Hc, app_nil_r; split; reflexivity.
  - unfold PostgresClient.init. destruct (installed P Postgres) eqn:Hi.
    + unfold bind, get, put, zoom, ret, fresh_id, note_constructed, log. simpl.
      match goal with
      | |- context [PostgresClient.execute_query P "SELECT 1" None ?c ?w0] =>
          pose proof (postgres_query_keeps P "SELECT 1" None c w0) as [Hid Hc];
          destruct (PostgresClient.execute_query P "SELECT 1" None c w0) as [[r c'] w1]
      end. simpl in *.
      destruct r; simpl; (split; [others_kept|]); rewrite Hid, Hc; split; reflexivity.
    + unfold bind, get, throw. simpl. split; [others_kept|].
      rewrite app_nil_r. split; reflexivity.
Qed.

Lemma check_redis_cache (s : ClientManager.t) (w : world) :
  let res := ClientManager.check_redis P s w in
  (forall sv, sv <> Redis -> cached res.1.2 sv = cached s sv)
  /\ cached res.1.2 Redis = held_after P s w Redis
  /\ constructed res.2 = constructed w ++ newly_built P s w Redis.
Proof.
  destruct s as [tr pg rd mn]. unfold held_after, newly_built. simpl cached.
  unfold ClientManager.check_redis, ClientManager.on_redis, ClientManager.redis.
  destruct rd as [c|].
  - unfold bind, get, zoom, ret. simpl.
    pose proof (redis_ping_keeps P c w) as [Hid Hc].
    destruct (RedisClient.ping P c w) as [[r c'] w1]. simpl in *.
    destruct r; simpl; (split; [others_kept|]); rewrite Hid, Hc, app_nil_r; split; reflexivity.
  - unfold RedisClient.init. destruct (installed P Redis) eqn:Hi.
    + unfold bind, get, put, zoom, ret, fresh_id, note_constructed, log. simpl.
      match goal with
      | |- context [RedisClient.ping P ?c ?w0] =>
          pose proof (redis_ping_keeps P c w0) as [Hid Hc];
          destruct (RedisClient.ping P c w0) as [[r c'] w1]
      end. simpl in *.
      destruct r; simpl; (split; [others_kept|]); rewrite Hid, Hc; split; reflexivity.
    + unfold bind, get, throw. simpl. split; [others_kept|].
      rewrite app_nil_r. split; reflexivity.
Qed.

Lemma check_minio_cache (s : ClientManager.t) (w : world) :
  let res := ClientManager.check_minio P s w in
  (forall sv, sv <> MinIO -> cached res.1.2 sv = cached s sv)
  /\ cached res.1.2 MinIO = held_after P s w MinIO
  /\ constructed res.2 = constructed w ++ newly_built P s w MinIO.
Proof.
  destruct s as [tr pg rd mn]. unfold held_after, newly_built. simpl cached.
  unfold ClientManager.check_minio, ClientManager.on_minio, ClientManager.minio.
  destruct mn as [c|].
  - unfold bind, get, zoom, ret. simpl.
    pose proof (minio_bucket_exists_keeps P (minio_bucket (settings P)) c w) as [Hid Hc].
    destruct (MinIOClient.bucket_exists P (minio_bucket (settings P)) c w) as [[r c'] w1].
    simpl in *.
    destruct r; simpl; (split; [others_kept|]); rewrite Hid, Hc, app_nil_r; split; reflexivity.
  - unfold MinIOClient.init. destruct (installed P MinIO) eqn:Hi.
    + unfold bind, get, put, zoom, ret, fresh_id, note_constructed, log. simpl.
      match goal with
      | |- context [MinIOClient.bucket_exists P ?b ?c ?w0] =>
          pose proof (minio_bucket_exists_keeps P b c w0) as [Hid Hc];
          destruct (MinIOClient.bucket_exists P b c w0) as [[r c'] w1]
      end. simpl in *.
      destruct r; simpl; (split; [others_kept|]); rewrite Hid, Hc; split; reflexivity.
    + unfold bind, get, throw. simpl. split; [others_kept|].
      rewrite app_nil_r. split; reflexivity.
Qed.

End ProbeCache.

Lemma after_probe_constructed {A} name (r : outcome A) w :
  constructed (after_probe name r w) = constructed w.
Proof. destruct r; reflexivity. Qed.

Lemma built_nothing (l : list (service * nat)) :
  (forall sv, built sv l = []) -> l = [].
Proof.
  destruct l as [|[sv i] l]; [reflexivity|]. intros H. specialize (H sv).
  unfold built in H. simpl in H. unfold service_eqb in H.
  rewrite bool_decide_eq_true_2 in H by reflexivity. discriminate.
Qed.

Lemma health_check_cache (P : platform) (self : ClientManager.t) (w : world) :
  let '(r, s1, w1) := ClientManager.health_check P self w in
  exists new,
    constructed w1 = constructed w ++ new
    /\ forall sv,
         match cached self sv with
         | Some i => cached s1 sv = Some i /\ built sv new = []
         | None =>
             if installed P sv
             then exists i, cached s1 sv = Some i /\ built sv new = [i]
             else cached s1 sv = None /\ built sv new = []
         end.
Proof.
  pose proof (health_check_run P self w) as Hrun.
  pose proof (check_trino_cache P self w) as (A1 & B1 & C1).
  destruct (ClientManager.check_trino P self w) as [[r1 s1] w1].
  pose proof (check_postgres_cache P s1 (after_probe "Trino" r1 w1)) as (A2 & B2 & C2).
  destruct (ClientManager.check_postgres P s1 _) as [[r2 s2] w2].
  pose proof (check_redis_cache P s2 (after_probe "PostgreSQL" r2 w2)) as (A3 & B3 & C3).
  destruct (ClientManager.check_redis P s2 _) as [[r3 s3] w3].
  pose proof (check_minio_cache P s3 (after_probe "Redis" r3 w3)) as (A4 & B4 & C4).
  destruct (ClientManager.check_minio P s3 _) as [[r4 s4] w4].
  destruct Hrun as (w' & -> & _ & Hc).
  cbn [fst snd] in *.
  rewrite after_probe_constructed in C2, C3, C4.
  eexists. split.
  { rewrite Hc, C4, C3, C2, C1, <- !app_assoc. reflexivity. }
  unfold held_after, newly_built in *.
  intros sv. rewrite !built_app.
  assert (K1 : cached s1 Postgres = cached self Postgres) by (apply A1; discriminate).
  assert (K2 : cached s1 Redis = cached self Redis) by (apply A1; discriminate).
  assert (K3 : cached s1 MinIO = cached self MinIO) by (apply A1; discriminate).
  assert (L1 : cached s2 Trino = cached s1 Trino) by (apply A2; discriminate).
  assert (L2 : cached s2 Redis = cached s1 Redis) by (apply A2; discriminate).
  assert (L3 : cached s2 MinIO = cached s1 MinIO) by (apply A2; discriminate).
  assert (M1 : cached s3 Trino = cached s2 Trino) by (apply A3; discriminate).
  assert (M2 : cached s3 Postgres = cached s2 Postgres) by (apply A3; discriminate).
  assert (M3 : cached s3 MinIO = cached s2 MinIO) by (apply A3; discriminate).
  assert (N1 : cached s4 Trino = cached s3 Trino) by (apply A4; discriminate).
  assert (N2 : cached s4 Postgres = cached s3 Postgres) by (apply A4; discriminate).
  assert (N3 : cached s4 Redis = cached s3 Redis) by (apply A4; discriminate).
  rewrite K1, K2, K3, L2, L3, M3 in *.
  destruct sv.
  - rewrite N1, M1, L1, B1.
    destruct (cached self Trino), (cached self Postgres), (cached self Redis),
      (cached self MinIO), (installed P Trino), (installed P Postgres), (installed P Redis),
      (installed P MinIO); simpl; eauto.
  - rewrite N2, M2, B2.
    destruct (cached self Trino), (cached self Postgres), (cached self Redis),
      (cached self MinIO), (installed P Trino), (installed P Postgres), (installed P Redis),
      (installed P MinIO); simpl; eauto.
  - rewrite N3, B3.
    destruct (cached self Trino), (cached self Postgres), (cached self Redis),
      (cached self MinIO), (installed P Trino), (installed P Postgres), (installed P Redis),
      (installed P MinIO); simpl; eauto.
  - rewrite B4.
    destruct (cached self Trino), (cached self Postgres), (cached self Redis),
      (cached self MinIO), (installed P Trino), (installed P Postgres), (installed P Redis),
      (installed P MinIO); simpl; eauto.
Qed.

(** X26.  [health_check] reads the four client properties, so it builds
    the clients that were missing and leaves them in the manager: a client
    held before is still held, with the same identity, and none is built
    for its service; for a service without a client, one client is built
    and kept when the library is installed, and none otherwise, whether or
    not the probe then succeeded.  Hence a second health check builds
    nothing and changes no field. *)
Theorem health_check_builds_each_client_once (P : platform) (self : ClientManager.t)
    (w : world) :
  let '(r, s1, w1) := ClientManager.health_check P self w in
  (exists new,
     constructed w1 = constructed w ++ new
     /\ forall sv,
          match cached self sv with
          | Some i => cached s1 sv = Some i /\ built sv new = []
          | None =>
              if installed P sv
              then exists i, cached s1 sv = Some i /\ built sv new = [i]
              else cached s1 sv = None /\ built sv new = []
          end)
  /\ forall w',
       let '(r2, s2, w2) := ClientManager.health_check P s1 w' in
       constructed w2 = constructed w' /\ forall sv, cached s2 sv = cached s1 sv.
Proof.
  pose proof (health_check_cache P self w) as H1.
  destruct (ClientManager.health_check P self w) as [[r s1] w1].
  split; [exact H1|].
  destruct H1 as (new & _ & Hnew).
  intros w'. pose proof (health_check_cache P s1 w') as H2.
  destruct (ClientManager.health_check P s1 w') as [[r2 s2] w2].
  destruct H2 as (new' & Hc & Hnew').
  assert (Hall : forall sv, cached s2 sv = cached s1 sv /\ built sv new' = []).
  { intros sv. specialize (Hnew sv). specialize (Hnew' sv).
    destruct (cached s1 sv) as [i|] eqn:E1.
    - destruct Hnew' as [-> Hb]. split; [reflexivity|exact Hb].
    - destruct (installed P sv).
      + exfalso. destruct (cached self sv) as [j|].
        * destruct Hnew as [Hj _]. discriminate.
        * destruct Hnew as (j & Hj & _). discriminate.
      + destruct Hnew' as [-> Hb]. split; [reflexivity|exact Hb]. }
  split.
  - rewrite Hc, (built_nothing new'), app_nil_r; [reflexivity|]. intros sv. apply Hall.
  - intros sv. apply Hall.
Qed.

(** ** The helper methods of the settings *)

Section Recipients.
Import settings_helpers.

Lemma rstrip_idem s : rstrip (rstrip s) = rstrip s.
Proof.
  induction s as [|c s IH]; [reflexivity|]. simpl.
  destruct (rstrip s) as [|d t] eqn:E.
  - destruct (is_space c) eqn:Hc; [reflexivity|]. simpl. rewrite Hc. reflexivity.
  - simpl. simpl in IH. rewrite IH. reflexivity.
Qed.

Lemma lstrip_head s :
  lstrip s = "" \/ exists c t, lstrip s = String c t /\ is_space c = false.
Proof.
  induction s as [|c s IH]; [left; reflexivity|]. simpl.
  destruct (is_space c) eqn:Hc; [exact IH|]. right. exists c, s. auto.
Qed.

Lemma rstrip_head c t :
  is_space c = false -> exists t', rstrip (String c t) = String c t'.
Proof.
  intros Hc. simpl. destruct (rstrip t); [rewrite Hc|]; eexists; reflexivity.
Qed.

Lemma lstrip_strip s : lstrip (strip s) = strip s.
Proof.
  unfold strip. destruct (lstrip_head s) as [->|(c & t & -> & Hc)]; [reflexivity|].
  destruct (rstrip_head c t Hc) as (t' & ->). simpl. rewrite Hc. reflexivity.
Qed.

Lemma rstrip_strip s : rstrip (strip s) = strip s.
Proof. unfold strip. apply rstrip_idem. Qed.

Lemma has_comma_cons c s : has_comma (String c s) = Ascii.eqb c "," || has_comma s.
Proof. unfold has_comma. cbn [list_ascii_of_string existsb]. rewrite Ascii.eqb_sym. reflexivity. Qed.

Lemma has_comma_lstrip s : has_comma s = false -> has_comma (lstrip s) = false.
Proof.
  induction s as [|c s IH]; [reflexivity|]. rewrite has_comma_cons. cbn [lstrip].
  intros H. apply orb_false_iff in H as [H1 H2].
  destruct (is_space c); [apply IH, H2|]. rewrite has_comma_cons, H1, H2. reflexivity.
Qed.

Lemma has_comma_rstrip s : has_comma s = false -> has_comma (rstrip s) = false.
Proof.
  induction s as [|c s IH]; [reflexivity|]. rewrite has_comma_cons. cbn [rstrip].
  intros H. apply orb_false_iff in H as [H1 H2]. specialize (IH H2).
  destruct (rstrip s) as [|d t].
  - destruct (is_space c); [reflexivity|]. rewrite has_comma_cons, H1. reflexivity.
  - rewrite has_comma_cons, H1. exact IH.
Qed.

Lemma split_no_comma s : Forall (fun piece => has_comma piece = false) (split "," s).
Proof.
  induction s as [|c s IH]; cbn [split].
  - constructor; [reflexivity|constructor].
  - destruct (Ascii.eqb c ",") eqn:Hc.
    + constructor; [reflexivity|exact IH].
    + destruct (split "," s) as [|p ps]; [constructor; [|constructor]|].
      * rewrite has_comma_cons, Hc. reflexivity.
      * inversion IH; subst. constructor; [|assumption].
        rewrite has_comma_cons, Hc. assumption.
Qed.

Lemma split_one s : has_comma s = false -> split "," s = [s].
Proof.
  induction s as [|c s IH]; [reflexivity|]. rewrite has_comma_cons. cbn [split].
  intros H. apply orb_false_iff in H as [H1 H2].
  rewrite H1, (IH H2). reflexivity.
Qed.

Lemma split_append p q :
  has_comma p = false -> split "," (p +:+ String "," q) = p :: split "," q.
Proof.
  induction p as [|c p IH]; [reflexivity|]. rewrite has_comma_cons.
  change (String c p +:+ String "," q) with (String c (p +:+ String "," q)). cbn [split].
  intros H. apply orb_false_iff in H as [H1 H2].
  rewrite H1, (IH H2). reflexivity.
Qed.

Lemma tidy_strip s : tidy s -> strip s = s.
Proof. intros (_ & _ & Hl & Hr). unfold strip. rewrite Hl. exact Hr. Qed.

Lemma tidy_strip_space s : tidy s -> strip (String " " s) = s.
Proof. intros H. unfold strip. simpl. apply (tidy_strip s H). Qed.

Lemma split_join (l : list string) :
  Forall tidy l -> l <> [] -> split "," (join "," l) = l.
Proof.
  induction l as [|e l IH]; [congruence|]. intros H _.
  inversion H as [|? ? He Hl]; subst. destruct He as (_ & Hc & _).
  destruct l as [|e' l'].
  - simpl. apply split_one, Hc.
  - change (join "," (e :: e' :: l')) with (e +:+ String "," (join "," (e' :: l'))).
    rewrite split_append by exact Hc. rewrite IH; [reflexivity|exact Hl|discriminate].
Qed.

Lemma split_join_spaced (l : list string) :
  Forall tidy l -> l <> [] ->
  split "," (join ", " l) = hd "" l :: map (String " ") (tl l).
Proof.
  induction l as [|e l IH]; [congruence|]. intros H _.
  inversion H as [|? ? He Hl]; subst. destruct He as (_ & Hc & _).
  destruct l as [|e' l'].
  - simpl. apply split_one, Hc.
  - change (join ", " (e :: e' :: l'))
      with (e +:+ String "," (String " " (join ", " (e' :: l')))).
    rewrite split_append by exact Hc. simpl hd. simpl tl. f_equal.
    assert (Ht : tidy e') by (inversion Hl; assumption).
    destruct Ht as (_ & Hc' & _).
    specialize (IH Hl ltac:(discriminate)). simpl hd in IH. simpl tl in IH.
    cbn [split]. change (Ascii.eqb " " ",") with false. cbv iota.
    rewrite IH. reflexivity.
Qed.

Lemma join_not_empty sep e l : e <> "" -> join sep (e :: l) <> "".
Proof.
  intros He. destruct e as [|c e]; [congruence|]. destruct l; simpl; discriminate.
Qed.

Lemma omap_cons_eq {A B} (f : A -> option B) (x : A) (l : list A) :
  omap f (x :: l) = match f x with Some y => y :: omap f l | None => omap f l end.
Proof. reflexivity. Qed.

Lemma omap_strip_tidy (l : list string) :
  Forall tidy l ->
  omap (fun email => if String.eqb (strip email) "" then None else Some (strip email)) l = l.
Proof.
  induction 1 as [|e l He _ IH]; [reflexivity|]. rewrite omap_cons_eq.
  rewrite (tidy_strip e He). destruct He as (Hne & _).
  destruct (String.eqb_spec e ""); [contradiction|]. rewrite IH. reflexivity.
Qed.

Lemma omap_strip_spaced (l : list string) :
  Forall tidy l ->
  omap (fun email => if String.eqb (strip email) "" then None else Some (strip email))
       (map (String " ") l) = l.
Proof.
  induction 1 as [|e l He _ IH]; [reflexivity|]. cbn [map]. rewrite omap_cons_eq.
  rewrite (tidy_strip_space e He). destruct He as (Hne & _).
  destruct (String.eqb_spec e ""); [contradiction|]. rewrite IH. reflexivity.
Qed.

Lemma recipients_tidy (email_recipients : string) :
  Forall tidy (get_email_recipients_list email_recipients).
Proof.
  unfold get_email_recipients_list.
  destruct (String.eqb email_recipients ""); [constructor|].
  pose proof (split_no_comma email_recipients) as H.
  induction H as [|p ps Hp _ IH]; [constructor|]. rewrite omap_cons_eq.
  destruct (String.eqb_spec (strip p) "") as [|Hne]; [exact IH|].
  constructor; [|exact IH].
  split; [exact Hne|]. split.
  - unfold strip. apply has_comma_rstrip, has_comma_lstrip, Hp.
  - split; [apply lstrip_strip|apply rstrip_strip].
Qed.

Lemma recipients_round_trip (l : list string) :
  Forall tidy l ->
  get_email_recipients_list (join "," l) = l
  /\ get_email_recipients_list (join ", " l) = l.
Proof.
  intros H. destruct l as [|e l]; [split; reflexivity|].
  assert (He : e <> "") by (inversion H as [|? ? (Hne & _) _]; exact Hne).
  unfold get_email_recipients_list. split.
  - destruct (String.eqb_spec (join "," (e :: l)) "") as [E|_];
      [exfalso; exact (join_not_empty "," e l He E)|].
    rewrite split_join by (auto; discriminate). apply omap_strip_tidy, H.
  - destruct (String.eqb_spec (join ", " (e :: l)) "") as [E|_];
      [exfalso; exact (join_not_empty ", " e l He E)|].
    rewrite split_join_spaced by (auto; discriminate). cbn [hd tl].
    inversion H as [|? ? Ht Hl]; subst. rewrite omap_cons_eq.
    rewrite (tidy_strip e Ht). destruct (String.eqb_spec e ""); [contradiction|].
    rewrite (omap_strip_spaced l Hl). reflexivity.
Qed.

End Recipients.

(** X27.  [get_email_recipients_list] reads a list written with commas
    back.  Every entry it returns is tidy: not empty, free of commas, and
    without white space at either end.  And whatever list of tidy entries
    is joined with a comma, or with a comma and a space, is read back as
    it was; the empty list, written as the empty text, comes back
    empty. *)
Theorem recipients_are_read_back (l : list string) :
  Forall tidy l ->
  settings_helpers.get_email_recipients_list (join "," l) = l
  /\ settings_helpers.get_email_recipients_list (join ", " l) = l
  /\ forall text, Forall tidy (settings_helpers.get_email_recipients_list text).
Proof.
  intros H. destruct (recipients_round_trip l H) as [H1 H2].
  split; [exact H1|]. split; [exact H2|]. apply recipients_tidy.
Qed.

Lemma recipients_are_read_back_witness :
  settings_helpers.get_email_recipients_list "ops@example.com, data@example.com"
  = ["ops@example.com"; "data@example.com"].
Proof.
  apply (recipients_are_read_back ["ops@example.com"; "data@example.com"]).
  repeat constructor; discriminate.
Defined.

Lemma lower_upper_char c : lower_char (upper_char c) = lower_char c.
Proof. destruct c as [[] [] [] [] [] [] [] []]; reflexivity. Qed.

Lemma lower_lower_char c : lower_char (lower_char c) = lower_char c.
Proof. destruct c as [[] [] [] [] [] [] [] []]; reflexivity. Qed.

Lemma lower_upper s : settings_helpers.lower (upper s) = settings_helpers.lower s.
Proof.
  induction s as [|c s IH]; [reflexivity|]. simpl. rewrite lower_upper_char, IH. reflexivity.
Qed.

Lemma lower_lower s :
  settings_helpers.lower (settings_helpers.lower s) = settings_helpers.lower s.
Proof.
  induction s as [|c s IH]; [reflexivity|]. simpl. rewrite lower_lower_char, IH. reflexivity.
Qed.

(** X28.  [is_development] and [is_production] compare the environment
    name without regard to letter case: writing the name in capitals or
    in small letters changes neither answer.  No name is both
    development and production. *)
Theorem environment_checks_ignore_case (environment : string) :
  settings_helpers.is_development (upper environment)
    = settings_helpers.is_development environment
  /\ settings_helpers.is_development (settings_helpers.lower environment)
     = settings_helpers.is_development environment
  /\ settings_helpers.is_production (upper environment)
     = settings_helpers.is_production environment
  /\ settings_helpers.is_production (settings_helpers.lower environment)
     = settings_helpers.is_production environment
  /\ settings_helpers.is_development environment && settings_helpers.is_production environment
     = false.
Proof.
  unfold settings_helpers.is_development, settings_helpers.is_production.
  rewrite lower_upper, lower_lower. repeat (split; [reflexivity|]).
  destruct (String.eqb_spec (settings_helpers.lower environment) "development") as [->|];
    reflexivity.
Qed.

Lemma call_missing (P : platform) name args (c : TrinoClient.t) (w : world) :
  has_name name TrinoClient.attributes = false ->
  call_method P name args (TrinoObject c) w
  = (Raise (attribute_error "TrinoClient" name), TrinoObject c, w).
Proof.
  intros H. unfold call_method, bind, get. cbv beta iota. rewrite H. reflexivity.
Qed.

Lemma guarded_missing (P : platform) what name q (rest : pyval -> M client unit)
    (c : TrinoClient.t) (w : world) :
  has_name name TrinoClient.attributes = false ->
  guarded what (bind (call_method P name [q]) rest) (TrinoObject c) w
  = (Ret tt, TrinoObject c,
     logged ERROR (what +:+ ": " +:+ exn_msg (attribute_error "TrinoClient" name)) w).
Proof.
  intros H. unfold guarded, try_except, bind. rewrite (call_missing P name [q] c w H).
  reflexivity.
Qed.

Lemma bind_log_run {St B} lv msg (k : unit -> M St B) (s : St) (w : world) :
  bind (log lv msg) k s w = k tt s (logged lv msg w).
Proof. reflexivity. Qed.

Lemma logs_logged lv msg w : logs (logged lv msg w) = logs w ++ [(lv, msg)].
Proof. reflexivity. Qed.

Lemma events_logged lv msg w : events (logged lv msg w) = events w.
Proof. reflexivity. Qed.

(** X29.  [run_analysis_queries] handed an instance of the repository's
    [TrinoClient]: the class has neither [fetchone] nor [fetchall], so
    each of the six blocks fails on the attribute lookup.  The function
    still returns; it has sent nothing, left the client alone, and logged
    the six section titles, each followed by its failure. *)
Theorem analysis_with_the_trino_client_logs_six_failures (P : platform)
    (table_name schema : string) (c : TrinoClient.t) (w : world) :
  let missing name := ": 'TrinoClient' object has no attribute '" +:+ name +:+ "'" in
  let res := run_analysis_queries P table_name schema (TrinoObject c) w in
  res.1 = (Ret tt, TrinoObject c)
  /\ events res.2 = events w
  /\ logs res.2 =
       logs w ++
         [(INFO, "Running analysis on " +:+ "iceberg." +:+ schema +:+ "." +:+ table_name);
          (INFO, "=== Basic Table Statistics ===");
          (ERROR, "Failed to get basic stats" +:+ missing "fetchone");
          (INFO, nl +:+ "=== Revenue by Category ===");
          (ERROR, "Failed to get category analysis" +:+ missing "fetchall");
          (INFO, nl +:+ "=== Regional Performance ===");
          (ERROR, "Failed to get regional analysis" +:+ missing "fetchall");
          (INFO, nl +:+ "=== Monthly Trend Analysis ===");
          (ERROR, "Failed to get monthly analysis" +:+ missing "fetchall");
          (INFO, nl +:+ "=== Top Products ===");
          (ERROR, "Failed to get product analysis" +:+ missing "fetchall");
          (INFO, nl +:+ "=== Top Customers ===");
          (ERROR, "Failed to get customer analysis" +:+ missing "fetchall")].
Proof.
  intros missing res.
  assert (Hres : res =
    (Ret tt, TrinoObject c,
     logged ERROR ("Failed to get customer analysis" +:+ missing "fetchall")
       (logged INFO (nl +:+ "=== Top Customers ===")
       (logged ERROR ("Failed to get product analysis" +:+ missing "fetchall")
       (logged INFO (nl +:+ "=== Top Products ===")
       (logged ERROR ("Failed to get monthly analysis" +:+ missing "fetchall")
       (logged INFO (nl +:+ "=== Monthly Trend Analysis ===")
       (logged ERROR ("Failed to get regional analysis" +:+ missing "fetchall")
       (logged INFO (nl +:+ "=== Regional Performance ===")
       (logged ERROR ("Failed to get category analysis" +:+ missing "fetchall")
       (logged INFO (nl +:+ "=== Revenue by Category ===")
       (logged ERROR ("Failed to get basic stats" +:+ missing "fetchone")
       (logged INFO "=== Basic Table Statistics ==="
       (logged INFO ("Running analysis on " +:+ "iceberg." +:+ schema +:+ "." +:+ table_name)
          w)))))))))))))).
  { subst res missing. unfold run_analysis_queries, stats_block, category_block,
      regional_block, monthly_block, product_block, customer_block.
    set (full := "iceberg." +:+ schema +:+ "." +:+ table_name).
    rewrite !bind_log_run.
    unfold bind at 1. rewrite guarded_missing by reflexivity. rewrite bind_log_run.
    unfold bind at 1. rewrite guarded_missing by reflexivity. rewrite bind_log_run.
    unfold bind at 1. rewrite guarded_missing by reflexivity. rewrite bind_log_run.
    unfold bind at 1. rewrite guarded_missing by reflexivity. rewrite bind_log_run.
    unfold bind at 1. rewrite guarded_missing by reflexivity. rewrite bind_log_run.
    rewrite guarded_missing by reflexivity.
    reflexivity. }
  rewrite Hres. cbn [fst snd]. rewrite !events_logged, !logs_logged.
  split; [reflexivity|]. split; [reflexivity|].
  rewrite <- !app_assoc. reflexivity.
Qed.
